(** * ADM (additive detail measure) filter: libavfilter/vf_adm.c

    A shallow embedding of the fixed-point ADM pipeline of
    [libavfilter/vf_adm.c] and the proofs of its specified properties.

    Conventions of the embedding.
    - C [int] / [int32_t] values are integers in [Z]; arithmetic that can
      leave the 32-bit range is wrapped with [wrap32], stores into
      [int16_t] cells with [wrap16] (two's complement machines).
    - [float] and [double] are IEEE-754 binary32 and binary64, modelled
      bit-exactly by the Standard Library's [SpecFloat] operations
      (round to nearest even, every operation rounded to its own type).
    - The working arena [data_buf] and the two scratch rows are finite
      maps from [int16_t] cell index to value; a cell that was never
      written reads as 0.
    - A conversion of a floating-point value that has no integer value
      (NaN, infinity, out of range) to an integer type is undefined in C:
      such a conversion returns [None]. *)

From Stdlib Require Import ZArith Lia List Bool.
From Stdlib Require Import Floats.SpecFloat.
From stdpp Require Import gmap list.

Local Open Scope Z_scope.

(** ** Machine integers *)

(** Conversion of an integer to [int16_t] and to [int] on a two's
    complement machine: reduction modulo 2^16 (resp. 2^32) into the
    signed range. *)
Definition wrap16 (x : Z) : Z := Z.land (x + 32768) 65535 - 32768.
Definition wrap32 (x : Z) : Z := Z.land (x + 2147483648) 4294967295 - 2147483648.

(** Conversion to [uint16_t]. *)
Definition wrapu16 (x : Z) : Z := Z.land x 65535.

Definition in_int16 (x : Z) : Prop := -32768 <= x <= 32767.
Definition in_int16b (x : Z) : bool := (-32768 <=? x) && (x <=? 32767).

(** [FFABS(a)] is [((a) >= 0 ? (a) : (-(a)))], evaluated on [int]. *)
Definition FFABS (a : Z) : Z := if a >=? 0 then a else wrap32 (- a).

Definition BIT_SHIFT : Z := 15.

Definition MAX_ALIGN : Z := 32.

(** [ALIGN_CEIL(x)] *)
Definition ALIGN_CEIL (x : Z) : Z :=
  x + (if negb (Z.rem x MAX_ALIGN =? 0) then MAX_ALIGN - Z.rem x MAX_ALIGN else 0).

(** ** IEEE-754 arithmetic *)

Module Import Flt.

Section Format.
Variables prec emax : Z.

(** Conversion of an integer to the format. *)
Definition of_Z (z : Z) : spec_float := binary_normalize prec emax z 0 false.

(** Conversion from another binary format. *)
Definition convert (x : spec_float) : spec_float :=
      match x with
      | S754_finite s m e => binary_round prec emax s m e
      | _ => x
      end.
End Format.

(** Integer value of [ceil(x)]; [None] when [x] is NaN or infinite. *)
Definition ceilZ (x : spec_float) : option Z :=
    match x with
    | S754_zero _ => Some 0
    | S754_finite s m e =>
        if 0 <=? e then Some (cond_Zopp s (Z.pos m * 2 ^ e))
        else if s then Some (- (Z.pos m / 2 ^ (- e)))
             else Some (- ((- Z.pos m) / 2 ^ (- e)))
    | _ => None
    end.

(** Integer value of [x] truncated toward zero. *)
Definition truncZ (x : spec_float) : option Z :=
    match x with
    | S754_zero _ => Some 0
    | S754_finite s m e =>
        if 0 <=? e then Some (cond_Zopp s (Z.pos m * 2 ^ e))
        else Some (cond_Zopp s (Z.pos m / 2 ^ (- e)))
    | _ => None
    end.

(** Integer value of [lrint(x)] in the default rounding mode (to
      nearest, ties to even). *)
Definition lrintZ (x : spec_float) : option Z :=
    match x with
    | S754_zero _ => Some 0
    | S754_finite s m e =>
        if 0 <=? e then Some (cond_Zopp s (Z.pos m * 2 ^ e))
        else
          let d := 2 ^ (- e) in
          let q := Z.pos m / d in
          let r := Z.pos m mod d in
          let q' := match Z.compare (2 * r) d with
                    | Lt => q
                    | Gt => q + 1
                    | Eq => if Z.even q then q else q + 1
                    end in
          Some (cond_Zopp s q')
    | _ => None
    end.

(** binary32, the C type [float]. *)
Module F32.
Definition prec : Z := 24.
Definition emax : Z := 128.
Definition of_int : Z -> spec_float := of_Z prec emax.
Definition of_double : spec_float -> spec_float := convert prec emax.
Definition add := SFadd prec emax.
Definition sub := SFsub prec emax.
Definition mul := SFmul prec emax.
Definition div := SFdiv prec emax.
End F32.

(** binary64, the C type [double]. *)
Module F64.
Definition prec : Z := 53.
Definition emax : Z := 1024.
Definition of_int : Z -> spec_float := of_Z prec emax.
Definition of_float : spec_float -> spec_float := convert prec emax.
Definition add := SFadd prec emax.
Definition sub := SFsub prec emax.
Definition mul := SFmul prec emax.
Definition div := SFdiv prec emax.
End F64.

(** The three comparison operators are the same in every format. *)
Definition ltb : spec_float -> spec_float -> bool := SFltb.
Definition leb : spec_float -> spec_float -> bool := SFleb.
Definition eqb : spec_float -> spec_float -> bool := SFeqb.

End Flt.

(** Conversion of an integral floating-point value to [int16_t] and to
    [int]: defined only when the value is representable. *)
Definition to_int16 (z : option Z) : option Z :=
  match z with
  | Some v => if in_int16b v then Some v else None
  | None => None
  end.

Definition to_int32 (z : option Z) : option Z :=
  match z with
  | Some v => if (- 2 ^ 31 <=? v) && (v <? 2 ^ 31) then Some v else None
  | None => None
  end.

(** [lrint] on the finite values it is applied to in this file. *)
Definition lrint (x : spec_float) : Z := default 0 (lrintZ x).

(** ** Constants of vf_adm.c *)

(** [ADM_BORDER_FACTOR] is the [double] literal [0.1]. *)
Definition ADM_BORDER_FACTOR : spec_float := S754_finite false 7205759403792794 (-56).

(** The [double] literals [0.5], [1e-2] and the constant [1920.0 * 1080.0]. *)
Definition d_half : spec_float := S754_finite false 4503599627370496 (-53).
Definition d_1em2 : spec_float := S754_finite false 5764607523034235 (-59).
Definition d_1080p : spec_float := F64.of_int (1920 * 1080).

(** [dwt2_db2_coeffs_lo] and [dwt2_db2_coeffs_hi], the literals rounded
    to [float]:
    0.482962913144690, 0.836516303737469, 0.224143868041857,
    -0.129409522550921 and the same taps reversed with alternating
    signs. *)
Definition dwt2_db2_coeffs_lo : list spec_float :=
  [ S754_finite false 16205546 (-25); S754_finite false 14034415 (-24);
    S754_finite false 15042040 (-26); S754_finite true 8684526 (-26) ].
Definition dwt2_db2_coeffs_hi : list spec_float :=
  [ S754_finite true 8684526 (-26); S754_finite true 15042040 (-26);
    S754_finite false 14034415 (-24); S754_finite true 16205546 (-25) ].

(** The table [Q[4][2]] of basis function amplitudes, as [float]:
    57.534645 169.767410 / 31.265896 69.937431 / 23.056629 40.990150 /
    21.895033 31.936741. *)
Definition Q : list (spec_float * spec_float) :=
  [ (S754_finite false 15082362 (-18), S754_finite false 11125877 (-16));
    (S754_finite false 16392334 (-19), S754_finite false 9166839 (-17));
    (S754_finite false 12088314 (-19), S754_finite false 10745322 (-18));
    (S754_finite false 11479303 (-19), S754_finite false 16744050 (-19)) ].

(** In [adm_decouple]: [cos_1deg_sq] is the [float] nearest to
    cos(pi/180)^2 = 0.99969541350954..., and [eps] the [float] nearest
    to 1e-30. *)
Definition cos_1deg_sq : spec_float := S754_finite false 16772106 (-24).
Definition eps : spec_float := S754_finite false 10633824 (-123).

(** The loop of [ff_adm_init] that fills [dwt2_db2_coeffs_lo_int] and
    [dwt2_db2_coeffs_hi_int]:
    [lrint(dwt2_db2_coeffs_lo[i] * (1 << BIT_SHIFT))]. *)
Definition init_coeffs (c : list spec_float) : list Z :=
  map (fun x => lrint (F32.mul x (F32.of_int (Z.shiftl 1 BIT_SHIFT)))) c.

Definition dwt2_db2_coeffs_lo_int : list Z :=
  Eval vm_compute in init_coeffs dwt2_db2_coeffs_lo.
Definition dwt2_db2_coeffs_hi_int : list Z :=
  Eval vm_compute in init_coeffs dwt2_db2_coeffs_hi.

(** ** Memory *)

(** The fields of [AVFrame] that matter here: the luma plane [data[0]]
    as an array of samples of the element type the reader selects
    ([uint8_t] or [uint16_t]), [linesize[0]] in bytes, and the declared
    [width] and [height] of the frame. *)
Record AVFrame := mkFrame {
  data0 : list Z;
  linesize0 : Z;
  frame_width : Z;
  frame_height : Z
}.

(** A read outside the array (undefined in C) yields 0. *)
Definition frame_get (f : AVFrame) (idx : Z) : Z :=
  if idx <? 0 then 0 else nth (Z.to_nat idx) (data0 f) 0.

(** Cells of [int16_t]; unwritten cells read 0. *)
Definition rd (m : gmap Z Z) (a : Z) : Z := default 0 (m !! a).
Definition wr (m : gmap Z Z) (a : Z) (v : Z) : gmap Z Z := <[a := v]> m.

(** Modelled from the spec: the declaration of [ADMData] (adm.h) is not
    among the sources.  The record holds the fields vf_adm.c uses: the
    configured width and height, the bit depth [desc->comp[0].depth],
    and the contents of the three allocations of [ff_adm_init], the
    arena [data_buf] and the scratch rows [temp_lo] and [temp_hi], all
    of [int16_t] cells. *)
Record ADMData := mkADM {
  width : Z;
  height : Z;
  depth : Z;
  data_buf : gmap Z Z;
  temp_lo : gmap Z Z;
  temp_hi : gmap Z Z
}.

Definition set_data_buf (s : ADMData) (m : gmap Z Z) : ADMData :=
  mkADM (width s) (height s) (depth s) m (temp_lo s) (temp_hi s).
Definition set_temp_lo (s : ADMData) (m : gmap Z Z) : ADMData :=
  mkADM (width s) (height s) (depth s) (data_buf s) m (temp_hi s).
Definition set_temp_hi (s : ADMData) (m : gmap Z Z) : ADMData :=
  mkADM (width s) (height s) (depth s) (data_buf s) (temp_lo s) m.

(** Pointers into [data_buf] are byte offsets from its start; cell
    [p[idx]] of an [int16_t *p] is cell [p / 2 + idx] of the map. *)
Definition cell (p idx : Z) : Z := p / 2 + idx.

Definition load (s : ADMData) (p idx : Z) : Z := rd (data_buf s) (cell p idx).
Definition store (s : ADMData) (p idx : Z) (v : Z) : ADMData :=
  set_data_buf s (wr (data_buf s) (cell p idx) (wrap16 v)).

(** [adm_dwt_band_t]: four pointers. *)
Record adm_dwt_band_t := mkBand { band_a : Z; band_h : Z; band_v : Z; band_d : Z }.

(** ** Loops *)

(** [for (i = lo; i < hi; i++) body]: [n] iterations from index [i]. *)
Fixpoint for_from {S : Type} (n : nat) (i : Z) (body : Z -> S -> S) (s : S) : S :=
  match n with
  | O => s
  | Datatypes.S n' => for_from n' (i + 1) body (body i s)
  end.

Definition for_ {S : Type} (lo hi : Z) (body : Z -> S -> S) (s : S) : S :=
  for_from (Z.to_nat (hi - lo)) lo body s.

(** The same loop when the body can hit an undefined conversion. *)
Fixpoint forM_from {S : Type} (n : nat) (i : Z) (body : Z -> S -> option S) (s : S)
    : option S :=
  match n with
  | O => Some s
  | Datatypes.S n' =>
      match body i s with
      | Some s' => forM_from n' (i + 1) body s'
      | None => None
      end
  end.

Definition forM {S : Type} (lo hi : Z) (body : Z -> S -> option S) (s : S) : option S :=
  forM_from (Z.to_nat (hi - lo)) lo body s.

(** The boundary rule shared by the DWT passes and the masking filter:
    [k = FFABS(k); if (k >= n) k = 2 * n - k - 1;] *)
Definition mirror (n k : Z) : Z :=
  let k := FFABS k in
  if k >=? n then 2 * n - k - 1 else k.

(** ** The stages of the pipeline *)

(** [sum += filt_coeff * img_coeff] on [int]. *)
Definition mac (sum filt_coeff img_coeff : Z) : Z :=
  wrap32 (sum + wrap32 (filt_coeff * img_coeff)).

(** [sizeof(dwt2_db2_coeffs_lo_int) / sizeof(int)] *)
Definition filt_w : Z := 4.

(** The tap loop of one DWT pass at output position [i] over an input
    of length [n]; [img k] is the input sample at (mirrored) index [k]. *)
Definition dwt_filter (n i : Z) (img : Z -> Z) : Z * Z :=
  for_ 0 filt_w (fun filt_i '(sum_lo, sum_hi) =>
    let filt_coeff_lo := nth (Z.to_nat filt_i) dwt2_db2_coeffs_lo_int 0 in
    let filt_coeff_hi := nth (Z.to_nat filt_i) dwt2_db2_coeffs_hi_int 0 in
    let src_i := mirror n (2 * i - 1 + filt_i) in
    let img_coeff := img src_i in
    (mac sum_lo filt_coeff_lo img_coeff, mac sum_hi filt_coeff_hi img_coeff))
  (0, 0).

(** The body of the macro [adm_dwt2_fn(type, bits)].  [src s idx] is
    [src[idx]] read in state [s]; [src_px_stride] is
    [src_stride / sizeof(type)].  The width and height are those of the
    context, [s->width] and [s->height]. *)
Definition adm_dwt2 (src : ADMData -> Z -> Z) (dst : adm_dwt_band_t)
    (src_px_stride dst_stride : Z) (s : ADMData) : ADMData :=
  let w := width s in
  let h := height s in
  let dst_px_stride := dst_stride / 2 in
  for_ 0 ((h + 1) `quot` 2) (fun i s =>
    (* Vertical pass. *)
    let s := for_ 0 w (fun j s =>
      let '(sum_lo, sum_hi) :=
        dwt_filter h i (fun src_i => src s (src_i * src_px_stride + j)) in
      let s := set_temp_lo s (wr (temp_lo s) j (wrap16 (Z.shiftr sum_lo BIT_SHIFT))) in
      set_temp_hi s (wr (temp_hi s) j (wrap16 (Z.shiftr sum_hi BIT_SHIFT)))) s in
    (* Horizontal pass (lo). *)
    let s := for_ 0 ((w + 1) `quot` 2) (fun j s =>
      let '(sum_lo, sum_hi) := dwt_filter w j (fun src_j => rd (temp_lo s) src_j) in
      let s := store s (band_a dst) (i * dst_px_stride + j) (Z.shiftr sum_lo BIT_SHIFT) in
      store s (band_v dst) (i * dst_px_stride + j) (Z.shiftr sum_hi BIT_SHIFT)) s in
    (* Horizontal pass (hi). *)
    for_ 0 ((w + 1) `quot` 2) (fun j s =>
      let '(sum_lo, sum_hi) := dwt_filter w j (fun src_j => rd (temp_hi s) src_j) in
      let s := store s (band_h dst) (i * dst_px_stride + j) (Z.shiftr sum_lo BIT_SHIFT) in
      store s (band_d dst) (i * dst_px_stride + j) (Z.shiftr sum_hi BIT_SHIFT)) s) s.

(** The three instances [adm_dwt2_8bit], [adm_dwt2_10bit] (samples of a
    frame) and [adm_dwt2_32bit] ([int16_t] cells of the arena). *)
Definition adm_dwt2_8bit (src : AVFrame) (dst : adm_dwt_band_t)
    (src_stride dst_stride : Z) (s : ADMData) : ADMData :=
  adm_dwt2 (fun _ idx => frame_get src idx) dst (src_stride / 1) dst_stride s.

Definition adm_dwt2_10bit (src : AVFrame) (dst : adm_dwt_band_t)
    (src_stride dst_stride : Z) (s : ADMData) : ADMData :=
  adm_dwt2 (fun _ idx => frame_get src idx) dst (src_stride / 2) dst_stride s.

Definition adm_dwt2_32bit (src : Z) (dst : adm_dwt_band_t)
    (src_stride dst_stride : Z) (s : ADMData) : ADMData :=
  adm_dwt2 (fun s idx => load s src idx) dst (src_stride / 2) dst_stride s.

(** *** Decoupling *)

(** [DIVS(n, d)] is [((n) * (1.0 / d))] with [d] not parenthesised, so
    that [DIVS(th, oh + eps)] is [th * (1.0 / oh + eps)], evaluated in
    [double]. *)
Definition DIVS_eps (n d : Z) : spec_float :=
  F64.mul (F64.of_int n)
          (F64.add (F64.div (F64.of_int 1) (F64.of_int d)) (F64.of_float eps)).

(** [k < 0 ? 0 : (k > 1 ? 1 : k)] on [float]. *)
Definition clamp01 (k : spec_float) : spec_float :=
  if ltb k (F32.of_int 0) then F32.of_int 0
  else if ltb (F32.of_int 1) k then F32.of_int 1 else k.

(** The gain [kh] after the assignment to [float] and the clamp. *)
Definition gain (t o : Z) : spec_float := clamp01 (F32.of_double (DIVS_eps t o)).

(** [angle_flag]: the three [float] quantities are assigned from [int]
    expressions. *)
Definition angle_flag (oh ov th tv : Z) : bool :=
  let ot_dp := F32.of_int (wrap32 (wrap32 (oh * th) + wrap32 (ov * tv))) in
  let o_mag_sq := F32.of_int (wrap32 (wrap32 (oh * oh) + wrap32 (ov * ov))) in
  let t_mag_sq := F32.of_int (wrap32 (wrap32 (th * th) + wrap32 (tv * tv))) in
  leb (F32.of_int 0) ot_dp &&
  leb (F32.mul (F32.mul cos_1deg_sq o_mag_sq) t_mag_sq) (F32.mul ot_dp ot_dp).

(** The value of [tmph] (resp. [tmpv], [tmpd]) when the stores are
    reached, for reference sample [o] and distorted sample [t]. *)
Definition decouple_tmp (flag : bool) (o t : Z) : spec_float :=
  if flag then F32.of_int t else F32.mul (gain t o) (F32.of_int o).

(** The values stored in the restored and in the additive band,
    [ceil(tmp)] and [ceil(t - tmp)].  The promotion of the [float]
    argument of [ceil] to [double] does not change its value. *)
Definition decouple_r (tmp : spec_float) : option Z := to_int16 (ceilZ tmp).
Definition decouple_a (t : Z) (tmp : spec_float) : option Z :=
  to_int16 (ceilZ (F32.sub (F32.of_int t) tmp)).

Definition decouple_one (flag : bool) (o t : Z) : option (Z * Z) :=
  let tmp := decouple_tmp flag o t in
  match decouple_r tmp, decouple_a t tmp with
  | Some r, Some a => Some (r, a)
  | _, _ => None
  end.

Definition adm_decouple (ref main r a : adm_dwt_band_t) (w h : Z)
    (ref_stride main_stride r_stride a_stride : Z) (s : ADMData) : option ADMData :=
  let ref_px_stride := ref_stride / 2 in
  let main_px_stride := main_stride / 2 in
  let r_px_stride := r_stride / 2 in
  let a_px_stride := a_stride / 2 in
  forM 0 h (fun i s =>
    forM 0 w (fun j s =>
      let oh := load s (band_h ref) (i * ref_px_stride + j) in
      let ov := load s (band_v ref) (i * ref_px_stride + j) in
      let od := load s (band_d ref) (i * ref_px_stride + j) in
      let th := load s (band_h main) (i * main_px_stride + j) in
      let tv := load s (band_v main) (i * main_px_stride + j) in
      let td := load s (band_d main) (i * main_px_stride + j) in
      let flag := angle_flag oh ov th tv in
      match decouple_one flag oh th, decouple_one flag ov tv, decouple_one flag od td with
      | Some (rh, ah), Some (rv, av), Some (rd_, ad) =>
          let s := store s (band_h r) (i * r_px_stride + j) rh in
          let s := store s (band_v r) (i * r_px_stride + j) rv in
          let s := store s (band_d r) (i * r_px_stride + j) rd_ in
          let s := store s (band_h a) (i * a_px_stride + j) ah in
          let s := store s (band_v a) (i * a_px_stride + j) av in
          Some (store s (band_d a) (i * a_px_stride + j) ad)
      | _, _, _ => None
      end) s) s.

(** *** Contrast sensitivity weighting *)

(** [lrint((1.0 / q) * (1 << BIT_SHIFT))] stored in a [uint16_t]. *)
Definition csf_rfactor (q : spec_float) : Z :=
  wrapu16 (lrint (F64.mul (F64.div (F64.of_int 1) (F64.of_float q))
                          (F64.of_int (Z.shiftl 1 BIT_SHIFT)))).

Definition adm_csf (src dst : adm_dwt_band_t) (orig_h scale w h : Z)
    (src_stride dst_stride : Z) (s : ADMData) : ADMData :=
  let src_angles := [band_h src; band_v src; band_d src] in
  let dst_angles := [band_h dst; band_v dst; band_d dst] in
  let src_px_stride := src_stride / 2 in
  let dst_px_stride := dst_stride / 2 in
  let q := nth (Z.to_nat scale) Q (S754_nan, S754_nan) in
  let rfactor := [csf_rfactor (fst q); csf_rfactor (fst q); csf_rfactor (snd q)] in
  for_ 0 3 (fun theta s =>
    let src_ptr := nth (Z.to_nat theta) src_angles 0 in
    let dst_ptr := nth (Z.to_nat theta) dst_angles 0 in
    for_ 0 h (fun i s =>
      for_ 0 w (fun j s =>
        store s dst_ptr (i * dst_px_stride + j)
          (Z.shiftr (wrap32 (nth (Z.to_nat theta) rfactor 0
                             * load s src_ptr (i * src_px_stride + j))) BIT_SHIFT)) s) s) s.

(** *** Contrast masking *)

(** The coefficient of tap [(filt_i, filt_j)] as the source computes it:
    [lrint((filt_i == 1 && filt_j == 1) ? 1.0 / 15.0 : 1.0 / 30.0) * (1 << BIT_SHIFT)],
    the argument of [lrint] being the conditional expression alone. *)
Definition cm_filt_coeff (filt_i filt_j : Z) : Z :=
  wrap32 (lrint (if (filt_i =? 1) && (filt_j =? 1)
                 then F64.div (F64.of_int 1) (F64.of_int 15)
                 else F64.div (F64.of_int 1) (F64.of_int 30))
          * Z.shiftl 1 BIT_SHIFT).

Definition adm_cm_thresh (src : adm_dwt_band_t) (dst : Z) (w h : Z)
    (src_stride dst_stride : Z) (s : ADMData) : ADMData :=
  let angles := [band_h src; band_v src; band_d src] in
  let src_px_stride := src_stride / 2 in
  let dst_px_stride := dst_stride / 2 in
  for_ 0 h (fun i s =>
    let s := for_ 0 w (fun j s => store s dst (i * dst_px_stride + j) 0) s in
    for_ 0 3 (fun theta s =>
      let src_ptr := nth (Z.to_nat theta) angles 0 in
      for_ 0 w (fun j s =>
        let sum :=
          for_ 0 3 (fun filt_i sum =>
            for_ 0 3 (fun filt_j sum =>
              let filt_coeff := cm_filt_coeff filt_i filt_j in
              let src_i := mirror h (i - 1 + filt_i) in
              let src_j := mirror w (j - 1 + filt_j) in
              let img_coeff := FFABS (load s src_ptr (src_i * src_px_stride + src_j)) in
              mac sum filt_coeff img_coeff) sum) 0 in
        store s dst (i * dst_px_stride + j)
              (load s dst (i * dst_px_stride + j) + Z.shiftr sum BIT_SHIFT)) s) s) s.

Definition adm_cm (src dst : adm_dwt_band_t) (thresh : Z) (w h : Z)
    (src_stride dst_stride thresh_stride : Z) (s : ADMData) : ADMData :=
  let src_px_stride := src_stride / 2 in
  let dst_px_stride := dst_stride / 2 in
  let thresh_px_stride := thresh_stride / 2 in
  for_ 0 h (fun i s =>
    for_ 0 w (fun j s =>
      let xh := load s (band_h src) (i * src_px_stride + j) in
      let xv := load s (band_v src) (i * src_px_stride + j) in
      let xd := load s (band_d src) (i * src_px_stride + j) in
      let thr := load s thresh (i * thresh_px_stride + j) in
      let xh := FFABS xh - thr in
      let xv := FFABS xv - thr in
      let xd := FFABS xd - thr in
      let xh := if xh <? 0 then 0 else xh in
      let xv := if xv <? 0 then 0 else xv in
      let xd := if xd <? 0 then 0 else xd in
      let s := store s (band_h dst) (i * dst_px_stride + j) xh in
      let s := store s (band_v dst) (i * dst_px_stride + j) xv in
      store s (band_d dst) (i * dst_px_stride + j) xd) s) s.

(** *** Energy pooling *)

(** [get_cube]: the argument is converted to [int16_t], the product is
    computed on [int]. *)
Definition get_cube (val : Z) : Z :=
  let val := wrap16 val in
  wrap32 (wrap32 (val * val) * val).

(** The largest [k] with [k ^ 3 <= n], for [0 <= n < 2048 ^ 3], found
    bit by bit. *)
Definition icbrt (n : Z) : Z :=
  fold_left (fun k b => if (k + b) ^ 3 <=? n then k + b else k)
            [1024; 512; 256; 128; 64; 32; 16; 8; 4; 2; 1] 0.

(** [ceil(cbrt(n))] for an [int] [n]: the least integer whose cube is at
    least [n] ([cbrt] is taken to be the real cube root, which every
    libm returns to within an ulp and exactly on perfect cubes). *)
Definition ceil_cbrt (n : Z) : Z :=
  if n <? 0 then - icbrt (- n)
  else let k := icbrt n in if k ^ 3 =? n then k else k + 1.

(** [ceil(cbrt(a / 32.0))]: the division by 32 is exact in [double], and
    the least integer whose cube is at least [a / 32] is the least one
    whose cube is at least the ceiling of [a / 32]. *)
Definition ceil_cbrt_div32 (a : Z) : Z := ceil_cbrt (- ((- a) / 32)).

(** [int left = w * border_factor - 0.5;] in [double], truncated by the
    conversion to [int]. *)
Definition border (n : Z) (border_factor : spec_float) : Z :=
  default 0 (to_int32 (truncZ (F64.sub (F64.mul (F64.of_int n) border_factor) d_half))).

(** The double loop of [adm_sum_cube] over rows [top, bottom) and
    columns [left, right). *)
Definition sum_cube_loop (x px_stride top bottom left right : Z) (s : ADMData) : Z :=
  for_ top bottom (fun i sum =>
    for_ left right (fun j sum =>
      wrap32 (sum + get_cube (FFABS (load s x (i * px_stride + j))))) sum) 0.

(** The returned value is within the range of [int16_t] (lemma
    [adm_sum_cube_int16]), so the conversion of the [double] sum to the
    return type keeps it. *)
Definition adm_sum_cube (x : Z) (w h stride : Z) (border_factor : spec_float)
    (s : ADMData) : Z :=
  let px_stride := stride / 2 in
  let left := border w border_factor in
  let top := border h border_factor in
  let right := w - left in
  let bottom := h - top in
  let sum := sum_cube_loop x px_stride top bottom left right s in
  ceil_cbrt sum + ceil_cbrt_div32 (wrap32 ((bottom - top) * (right - left))).

(** *** The driver *)

(** [adm_buffer_copy]: [h] rows of [linewidth] bytes. *)
Definition adm_buffer_copy (src dst : Z) (linewidth h src_stride dst_stride : Z)
    (s : ADMData) : ADMData :=
  for_ 0 h (fun i s =>
    for_ 0 (linewidth / 2) (fun k s =>
      store s dst (i * (dst_stride / 2) + k) (load s src (i * (src_stride / 2) + k))) s) s.

Definition init_dwt_band (data_top buf_sz : Z) : adm_dwt_band_t * Z :=
  let a := data_top in
  let data_top := data_top + buf_sz in
  let h := data_top in
  let data_top := data_top + buf_sz in
  let v := data_top in
  let data_top := data_top + buf_sz in
  let d := data_top in
  let data_top := data_top + buf_sz in
  (mkBand a h v d, data_top).

(** The results written through [score], [score_num], [score_den] and
    [scores]. *)
Record adm_out := mkOut {
  score : spec_float;
  score_num : spec_float;
  score_den : spec_float;
  scores : list spec_float
}.

(** The views into the arena set up at the start of [ff_adm_process]. *)
Record adm_views := mkViews {
  buf_stride : Z;
  ref_scale : Z;
  main_scale : Z;
  ref_dwt2 : adm_dwt_band_t;
  main_dwt2 : adm_dwt_band_t;
  decouple_r_ : adm_dwt_band_t;
  decouple_a_ : adm_dwt_band_t;
  csf_o : adm_dwt_band_t;
  csf_r : adm_dwt_band_t;
  csf_a : adm_dwt_band_t;
  mta : Z;
  cm_r : adm_dwt_band_t
}.

Definition adm_layout (w h : Z) : adm_views :=
  let buf_stride := ALIGN_CEIL (((w + 1) `quot` 2) * 2) in
  let buf_sz := buf_stride * ((h + 1) `quot` 2) in
  let data_top := 0 in
  let ref_scale := data_top in
  let data_top := data_top + buf_sz in
  let main_scale := data_top in
  let data_top := data_top + buf_sz in
  let '(ref_dwt2, data_top) := init_dwt_band data_top buf_sz in
  let '(main_dwt2, data_top) := init_dwt_band data_top buf_sz in
  let '(decouple_r, data_top) := init_dwt_band data_top buf_sz in
  let '(decouple_a, data_top) := init_dwt_band data_top buf_sz in
  let '(csf_o, data_top) := init_dwt_band data_top buf_sz in
  let '(csf_r, data_top) := init_dwt_band data_top buf_sz in
  let '(csf_a, data_top) := init_dwt_band data_top buf_sz in
  let mta := data_top in
  let data_top := data_top + buf_sz in
  let '(cm_r, data_top) := init_dwt_band data_top buf_sz in
  mkViews buf_stride ref_scale main_scale ref_dwt2 main_dwt2 decouple_r decouple_a
          csf_o csf_r csf_a mta cm_r.

(** The loop state of [ff_adm_process]: the context, the current
    dimensions, the two accumulators and the [scores] written so far. *)
Record adm_loop := mkLoop {
  ctx : ADMData;
  cur_w : Z;
  cur_h : Z;
  acc_num : spec_float;
  acc_den : spec_float;
  acc_scores : list spec_float
}.

(** [num_scale += adm_sum_cube(...)]: [float] plus [int16_t]. *)
Definition add_pool (acc : spec_float) (v : Z) : spec_float := F32.add acc (F32.of_int v).

(** One iteration of [for (scale = 0; scale < 4; scale++)]. *)
Definition adm_scale (v : adm_views) (ref main : AVFrame) (scale : Z) (st : adm_loop)
    : option adm_loop :=
  let s := ctx st in
  let bs := buf_stride v in
  let s :=
    if scale =? 0 then
      if depth s <=? 8 then
        let s := adm_dwt2_8bit ref (ref_dwt2 v) (linesize0 ref) bs s in
        adm_dwt2_8bit main (main_dwt2 v) (linesize0 main) bs s
      else
        let s := adm_dwt2_10bit ref (ref_dwt2 v) (linesize0 ref) bs s in
        adm_dwt2_10bit main (main_dwt2 v) (linesize0 main) bs s
    else
      let s := adm_dwt2_32bit (ref_scale v) (ref_dwt2 v) bs bs s in
      adm_dwt2_32bit (main_scale v) (main_dwt2 v) bs bs s in
  let w := (cur_w st + 1) `quot` 2 in
  let h := (cur_h st + 1) `quot` 2 in
  match adm_decouple (ref_dwt2 v) (main_dwt2 v) (decouple_r_ v) (decouple_a_ v) w h bs bs bs bs s with
  | None => None
  | Some s =>
    let s := adm_csf (ref_dwt2 v) (csf_o v) (height s) scale w h bs bs s in
    let s := adm_csf (decouple_r_ v) (csf_r v) (height s) scale w h bs bs s in
    let s := adm_csf (decouple_a_ v) (csf_a v) (height s) scale w h bs bs s in
    let s := adm_cm_thresh (csf_a v) (mta v) w h bs bs s in
    let s := adm_cm (csf_r v) (cm_r v) (mta v) w h bs bs bs s in
    let num_scale := F32.of_int 0 in
    let den_scale := F32.of_int 0 in
    let num_scale := add_pool num_scale (adm_sum_cube (band_h (cm_r v)) w h bs ADM_BORDER_FACTOR s) in
    let num_scale := add_pool num_scale (adm_sum_cube (band_v (cm_r v)) w h bs ADM_BORDER_FACTOR s) in
    let num_scale := add_pool num_scale (adm_sum_cube (band_d (cm_r v)) w h bs ADM_BORDER_FACTOR s) in
    let den_scale := add_pool den_scale (adm_sum_cube (band_h (csf_o v)) w h bs ADM_BORDER_FACTOR s) in
    let den_scale := add_pool den_scale (adm_sum_cube (band_v (csf_o v)) w h bs ADM_BORDER_FACTOR s) in
    let den_scale := add_pool den_scale (adm_sum_cube (band_d (csf_o v)) w h bs ADM_BORDER_FACTOR s) in
    let num := F64.add (acc_num st) (F64.of_float num_scale) in
    let den := F64.add (acc_den st) (F64.of_float den_scale) in
    let s := adm_buffer_copy (band_a (ref_dwt2 v)) (ref_scale v) (w * 2) h bs bs s in
    let s := adm_buffer_copy (band_a (main_dwt2 v)) (main_scale v) (w * 2) h bs bs s in
    Some (mkLoop s w h num den
            (acc_scores st ++ [F64.of_float num_scale; F64.of_float den_scale]))
  end.

(** The noise floor [1e-2 * (s->width * s->height) / (1920.0 * 1080.0)]. *)
Definition numden_limit (s : ADMData) : spec_float :=
  F64.div (F64.mul d_1em2 (F64.of_int (wrap32 (width s * height s)))) d_1080p.

(** [x = x < numden_limit ? 0 : x] *)
Definition floor_clamp (limit x : spec_float) : spec_float :=
  if ltb x limit then F64.of_int 0 else x.

(** [if (den == 0.0) score = 1.0; else score = num / den;] *)
Definition final_score (num den : spec_float) : spec_float :=
  if eqb den (F64.of_int 0) then F64.of_int 1 else F64.div num den.

(** [ff_adm_process], returning the updated context together with the
    four outputs. *)
Definition ff_adm_process (s : ADMData) (ref main : AVFrame) : option (ADMData * adm_out) :=
  let limit := numden_limit s in
  let v := adm_layout (width s) (height s) in
  let st := mkLoop s (width s) (height s) (F64.of_int 0) (F64.of_int 0) [] in
  match forM 0 4 (adm_scale v ref main) st with
  | None => None
  | Some st =>
    let num := floor_clamp limit (acc_num st) in
    let den := floor_clamp limit (acc_den st) in
    Some (ctx st, mkOut (final_score num den) num den (acc_scores st))
  end.

(** ** Definitions used to state the properties *)

(** A context as [ff_adm_init] leaves it, with untouched allocations,
    and a frame whose plane holds the same sample everywhere. *)
Definition fresh_ctx (w h d : Z) : ADMData := mkADM w h d ∅ ∅ ∅.
Definition flat_frame (w h v : Z) : AVFrame :=
  mkFrame (repeat v (Z.to_nat (w * h))) w w h.

(** The masking coefficient as the specification words it: the tap
    value (1/15 at the centre, 1/30 elsewhere) times 2^15, rounded to
    nearest, the convention of [init_coeffs] and [csf_rfactor]. *)
Definition cm_filt_coeff_spec (filt_i filt_j : Z) : Z :=
  lrint (F64.mul (if (filt_i =? 1) && (filt_j =? 1)
                  then F64.div (F64.of_int 1) (F64.of_int 15)
                  else F64.div (F64.of_int 1) (F64.of_int 30))
                 (F64.of_int (Z.shiftl 1 BIT_SHIFT))).

(** The gain as the specification words it: distorted / (reference +
    eps), clamped to [0, 1]. *)
Definition gain_spec (t o : Z) : spec_float :=
  clamp01 (F32.div (F32.of_int t) (F32.add (F32.of_int o) eps)).

(** The context with another bit depth. *)
Definition set_depth (d : Z) (s : ADMData) : ADMData :=
  mkADM (width s) (height s) d (data_buf s) (temp_lo s) (temp_hi s).

Definition lift_depth (d : Z) (st : adm_loop) : adm_loop :=
  mkLoop (set_depth d (ctx st)) (cur_w st) (cur_h st) (acc_num st) (acc_den st) (acc_scores st).



(** The sum of [|x|^3] over rows [top, bottom) and columns
    [left, right), on unbounded integers. *)
Definition sum_abs_cube (x px_stride top bottom left right : Z) (s : ADMData) : Z :=
  for_ top bottom (fun i sum =>
    for_ left right (fun j sum =>
      sum + Z.abs (load s x (i * px_stride + j)) ^ 3) sum) 0.


(** The exact sum of cubes over the region [adm_sum_cube] visits. *)
Definition interior_sum (x w h stride : Z) (s : ADMData) : Z :=
  sum_abs_cube x (stride / 2)
    (border h ADM_BORDER_FACTOR) (h - border h ADM_BORDER_FACTOR)
    (border w ADM_BORDER_FACTOR) (w - border w ADM_BORDER_FACTOR) s.

(** A state whose band at [x] holds [v] at every position. *)
Definition const_band (x w h stride v : Z) (s : ADMData) : ADMData :=
  for_ 0 h (fun i s => for_ 0 w (fun j s => store s x (i * (stride / 2) + j) v) s) s.

(** *** Predicates on floating-point numbers *)

(** No bit has been shifted out. *)
Definition shr_exact (mrs : shr_record) : bool := negb (shr_r mrs || shr_s mrs).

(** [m * 2^e], with [e <= - q], lies between [A * 2^-q] and
    [B * 2^-q]. *)
Definition bnd (q A B m e : Z) : Prop :=
  e <= - q /\ A * 2 ^ (- q - e) <= m <= B * 2 ^ (- q - e).

(** A zero of sign [s], or a finite number of sign [s] whose magnitude
    lies between [A * 2^-q] and [B * 2^-q]. *)
Definition SFbnd (q : Z) (s : bool) (A B : Z) (x : spec_float) : Prop :=
  match x with
  | S754_zero s' => s' = s /\ A = 0
  | S754_finite s' m e => s' = s /\ bnd q A B (Z.pos m) e
  | _ => False
  end.

(** A finite number, of exponent at most [- q], whose value lies between
    [L * 2^-q] and [H * 2^-q]. *)
Definition sbnd (q L H : Z) (x : spec_float) : Prop :=
  match x with
  | S754_zero _ => L <= 0 <= H
  | S754_finite s m e =>
      e <= - q /\ L * 2 ^ (- q - e) <= cond_Zopp s (Z.pos m) <= H * 2 ^ (- q - e)
  | _ => False
  end.

(** What a rounding returns: a zero, a finite number of mantissa below
    [2^prec] or an infinity, of the given sign. *)
Definition rounded (prec : Z) (s : bool) (x : spec_float) : Prop :=
  match x with
  | S754_zero s' => s' = s
  | S754_infinity s' => s' = s
  | S754_finite s' m _ => s' = s /\ Z.pos m < 2 ^ prec
  | S754_nan => False
  end.

(** The sign class of a number that is not NaN. *)
Definition signed (s : bool) (x : spec_float) : Prop :=
  match x with
  | S754_zero _ => True
  | S754_infinity s' => s' = s
  | S754_finite s' _ _ => s' = s
  | S754_nan => False
  end.


(** The bit weights [b; b/2; ...; 1] below [B = 2 b]. *)
Fixpoint halving (B : Z) (l : list Z) : Prop :=
  match l with
  | [] => B = 1
  | b :: l' => 0 < b /\ B = 2 * b /\ halving b l'
  end.

(** ** Definitions used to state the properties of the buffers *)

(** The sizes in bytes of the three allocations of [ff_adm_init]:
    [av_malloc(buf_sz * 35)] for [data_buf] and [av_malloc(stride)] for
    each of [temp_lo] and [temp_hi]. *)
Record adm_alloc := mkAlloc { data_buf_sz : Z; temp_lo_sz : Z; temp_hi_sz : Z }.

Definition ff_adm_init_alloc (w h : Z) : adm_alloc :=
  let buf_stride := ALIGN_CEIL (((w + 1) `quot` 2) * 2) in
  let buf_sz := buf_stride * ((h + 1) `quot` 2) in
  let stride := ALIGN_CEIL (w * 2) in
  mkAlloc (buf_sz * 35) stride stride.

(** The pointers of a band and of all the views, in the order in which
    [ff_adm_process] carves them out of the arena. *)
Definition band_ptrs (b : adm_dwt_band_t) : list Z :=
  [band_a b; band_h b; band_v b; band_d b].
Definition view_ptrs (v : adm_views) : list Z :=
  [ref_scale v; main_scale v] ++ band_ptrs (ref_dwt2 v) ++ band_ptrs (main_dwt2 v)
  ++ band_ptrs (decouple_r_ v) ++ band_ptrs (decouple_a_ v) ++ band_ptrs (csf_o v)
  ++ band_ptrs (csf_r v) ++ band_ptrs (csf_a v) ++ [mta v] ++ band_ptrs (cm_r v).

(** The cells of rows [0 .. h) and columns [0 .. w) of the plane at [p]
    with a stride of [ps] cells. *)
Definition rect (p ps w h : Z) (a : Z) : Prop :=
  exists i j, 0 <= i < h /\ 0 <= j < w /\ a = cell p (i * ps + j).

(** Two planes of [h] rows, given by pointer and stride in cells, that
    occupy disjoint ranges of cells. *)
Definition apart (h : Z) (x y : Z * Z) : Prop :=
  fst x / 2 + h * snd x <= fst y / 2 \/ fst y / 2 + h * snd y <= fst x / 2.

(** [R] holds between every element of [l] and every later one. *)
Fixpoint pairwise {A : Type} (R : A -> A -> Prop) (l : list A) : Prop :=
  match l with
  | [] => True
  | x :: l' => Forall (R x) l' /\ pairwise R l'
  end.

(** Every cell of the arena holds an [int16_t] value. *)
Definition wf_mem (s : ADMData) : Prop := forall a, in_int16 (rd (data_buf s) a).

(** [s'] differs from [s] at most on the cells in [C], in the arena. *)
Definition same_outside (C : Z -> Prop) (s s' : ADMData) : Prop :=
  forall a, ~ C a -> rd (data_buf s') a = rd (data_buf s) a.

(** The cells [cellof k i j] a loop over rows [0 .. h) and columns
    [0 .. w) writes in [nb] planes. *)
Definition written (h w nb : Z) (cellof : Z -> Z -> Z -> Z) (a : Z) : Prop :=
  exists k i j, 0 <= k < nb /\ 0 <= i < h /\ 0 <= j < w /\ a = cellof k i j.

(** The cells of the planes at the pointers of [l]. *)
Definition rects (l : list Z) (ps w h : Z) (a : Z) : Prop :=
  exists p, In p l /\ rect p ps w h a.

(** Cell [a] lies inside the allocation [data_buf], resp. [temp_lo] and
    [temp_hi], that [ff_adm_init] makes for a [w] x [h] input. *)
Definition in_arena (w h : Z) (a : Z) : Prop :=
  0 <= 2 * a /\ 2 * a + 2 <= data_buf_sz (ff_adm_init_alloc w h).
Definition in_temp (w h : Z) (j : Z) : Prop :=
  0 <= 2 * j /\ 2 * j + 2 <= temp_lo_sz (ff_adm_init_alloc w h) /\
  2 * j + 2 <= temp_hi_sz (ff_adm_init_alloc w h).

(** [s'] has the configuration of [s] and differs from it at most on
    the arena cells in [C] and the scratch cells in [T]. *)
Definition confined (C T : Z -> Prop) (s s' : ADMData) : Prop :=
  width s' = width s /\ height s' = height s /\ depth s' = depth s /\
  (forall a, ~ C a -> rd (data_buf s') a = rd (data_buf s) a) /\
  (forall j, ~ T j -> rd (temp_lo s') j = rd (temp_lo s) j) /\
  (forall j, ~ T j -> rd (temp_hi s') j = rd (temp_hi s) j).

(** The pair stored at position [(i, j)] of the restored and of the
    additive band of one orientation ([sel] is [band_h], [band_v] or
    [band_d]), computed from the planes of [ref] and [main] in [s]. *)
Definition decouple_at (ref main : adm_dwt_band_t) (rps mps : Z) (s : ADMData)
    (sel : adm_dwt_band_t -> Z) (i j : Z) : option (Z * Z) :=
  decouple_one
    (angle_flag (load s (band_h ref) (i * rps + j)) (load s (band_v ref) (i * rps + j))
                (load s (band_h main) (i * mps + j)) (load s (band_v main) (i * mps + j)))
    (load s (sel ref) (i * rps + j)) (load s (sel main) (i * mps + j)).

(** The two cells [temp_lo[c]] and [temp_hi[c]] the vertical pass
    computes for output row [i] from the samples [f] of a plane with
    [h] rows and a stride of [sps] samples. *)
Definition dwt_vert (f : Z -> Z) (sps h : Z) (i c : Z) : Z * Z :=
  let '(sum_lo, sum_hi) := dwt_filter h i (fun src_i => f (src_i * sps + c)) in
  (wrap16 (Z.shiftr sum_lo BIT_SHIFT), wrap16 (Z.shiftr sum_hi BIT_SHIFT)).

(** A scratch row after the vertical pass of output row [i]: cells
    [0 .. w) are new, the others keep the content [t0]. *)
Definition dwt_temp (f : Z -> Z) (sps w h : Z) (t0 : gmap Z Z) (sel : Z * Z -> Z)
    (i : Z) (c : Z) : Z :=
  if (0 <=? c) && (c <? w) then sel (dwt_vert f sps h i c) else rd t0 c.

(** The two samples a horizontal pass stores at column [j] from the
    scratch row [row] of [w] cells. *)
Definition dwt_horiz (w : Z) (row : Z -> Z) (j : Z) : Z * Z :=
  let '(sum_lo, sum_hi) := dwt_filter w j row in
  (wrap16 (Z.shiftr sum_lo BIT_SHIFT), wrap16 (Z.shiftr sum_hi BIT_SHIFT)).

(** * Properties *)

(** ** Boundary indices (C10) *)

Lemma wrap32_small x : -2147483648 <= x < 2147483648 -> wrap32 x = x.
Proof.
  intros H. unfold wrap32.
  change 4294967295 with (Z.ones 32). rewrite Z.land_ones by lia.
  rewrite Z.mod_small; lia.
Qed.

Lemma wrap16_small x : -32768 <= x <= 32767 -> wrap16 x = x.
Proof.
  intros H. unfold wrap16.
  change 65535 with (Z.ones 16). rewrite Z.land_ones by lia.
  rewrite Z.mod_small; lia.
Qed.

Lemma wrap16_range x : -32768 <= wrap16 x <= 32767.
Proof.
  unfold wrap16. change 65535 with (Z.ones 16). rewrite Z.land_ones by lia.
  pose proof (Z.mod_pos_bound (x + 32768) (2 ^ 16)). lia.
Qed.

Lemma wrap32_range x : -2147483648 <= wrap32 x < 2147483648.
Proof.
  unfold wrap32. change 4294967295 with (Z.ones 32). rewrite Z.land_ones by lia.
  pose proof (Z.mod_pos_bound (x + 2147483648) (2 ^ 32)). lia.
Qed.

Lemma FFABS_abs x : -2147483648 < x < 2147483648 -> FFABS x = Z.abs x.
Proof.
  intros H. unfold FFABS. destruct (Z.geb_spec x 0).
  - lia.
  - rewrite wrap32_small; lia.
Qed.



(** ** The masking coefficients (C2) *)

(** C2. The source rounds the tap value itself, not its product with
    2^15: every coefficient of the 3x3 kernel is 0, where the
    specification's quantisation gives 2185 at the centre and 1092 at
    the other taps. *)
Theorem cm_filt_coeff_zero :
  (forall filt_i filt_j, cm_filt_coeff filt_i filt_j = 0) /\
  cm_filt_coeff_spec 1 1 = 2185 /\
  (forall filt_i filt_j, 0 <= filt_i < 3 -> 0 <= filt_j < 3 ->
     (filt_i, filt_j) <> (1, 1) -> cm_filt_coeff_spec filt_i filt_j = 1092).
Proof.
  split; [|split].
  - intros fi fj. unfold cm_filt_coeff.
    destruct ((fi =? 1) && (fj =? 1)); reflexivity.
  - reflexivity.
  - intros fi fj Hi Hj Hne. unfold cm_filt_coeff_spec.
    destruct (Z.eqb_spec fi 1) as [->|]; destruct (Z.eqb_spec fj 1) as [->|];
      simpl; try reflexivity.
    congruence.
Qed.

Lemma cm_filt_coeff_zero_witness : cm_filt_coeff_spec 0 2 = 1092.
Proof.
  apply (proj2 (proj2 cm_filt_coeff_zero)); [lia|lia|discriminate].
Defined.

(** ** The final score (C1) *)

Lemma adm_scale_acc v ref main scale st st' :
  adm_scale v ref main scale st = Some st' ->
  exists n d,
    acc_num st' = F64.add (acc_num st) n /\
    acc_den st' = F64.add (acc_den st) d /\
    acc_scores st' = acc_scores st ++ [n; d].
Proof.
  unfold adm_scale. intros H.
  destruct (adm_decouple _ _ _ _ _ _ _ _ _ _ _) as [s1|]; [|discriminate].
  injection H as <-. cbn [acc_num acc_den acc_scores]. eauto.
Qed.

(** C1. Whenever [ff_adm_process] returns, the eight [scores] are the
    per-scale numerators and denominators; the numerator and the
    denominator are their sums over the four scales, each replaced by
    zero when it is strictly below the floor
    [1e-2 * (width * height) / (1920 * 1080)]; and the score is 1.0
    when the resulting denominator equals zero and numerator /
    denominator otherwise. *)
Theorem ff_adm_process_score s ref main s' out :
  ff_adm_process s ref main = Some (s', out) ->
  exists n0 d0 n1 d1 n2 d2 n3 d3,
    scores out = [n0; d0; n1; d1; n2; d2; n3; d3] /\
    let zero := F64.of_int 0 in
    let num := F64.add (F64.add (F64.add (F64.add zero n0) n1) n2) n3 in
    let den := F64.add (F64.add (F64.add (F64.add zero d0) d1) d2) d3 in
    let limit :=
      F64.div (F64.mul d_1em2 (F64.of_int (wrap32 (width s * height s)))) d_1080p in
    score_num out = (if ltb num limit then zero else num) /\
    score_den out = (if ltb den limit then zero else den) /\
    score out = (if eqb (score_den out) zero then F64.of_int 1
                 else F64.div (score_num out) (score_den out)).
Proof.
  unfold ff_adm_process, forM. intros H.
  change (Z.to_nat (4 - 0)) with 4%nat in H. cbn [forM_from] in H.
  destruct (adm_scale _ ref main 0 _) as [st0|] eqn:E0; [|discriminate].
  destruct (adm_scale _ ref main (0 + 1) st0) as [st1|] eqn:E1; [|discriminate].
  destruct (adm_scale _ ref main (0 + 1 + 1) st1) as [st2|] eqn:E2; [|discriminate].
  destruct (adm_scale _ ref main (0 + 1 + 1 + 1) st2) as [st3|] eqn:E3; [|discriminate].
  injection H as <- <-.
  apply adm_scale_acc in E0 as (n0 & d0 & N0 & D0 & S0).
  apply adm_scale_acc in E1 as (n1 & d1 & N1 & D1 & S1).
  apply adm_scale_acc in E2 as (n2 & d2 & N2 & D2 & S2).
  apply adm_scale_acc in E3 as (n3 & d3 & N3 & D3 & S3).
  cbn [acc_num acc_den acc_scores] in *.
  exists n0, d0, n1, d1, n2, d2, n3, d3.
  cbn [scores score_num score_den score].
  rewrite S3, S2, S1, S0, N3, N2, N1, N0, D3, D2, D1, D0.
  repeat split.
Qed.

Lemma flat_pair_defined :
  exists r, ff_adm_process (fresh_ctx 32 2 8) (flat_frame 32 2 128) (flat_frame 32 2 128)
            = Some r.
Proof.
  assert (H : match ff_adm_process (fresh_ctx 32 2 8) (flat_frame 32 2 128)
                      (flat_frame 32 2 128) with Some _ => true | None => false end = true)
    by (vm_compute; reflexivity).
  destruct (ff_adm_process _ _ _) as [r|]; [exists r; reflexivity|discriminate H].
Qed.

Lemma ff_adm_process_score_witness :
  exists s' out,
    ff_adm_process (fresh_ctx 32 2 8) (flat_frame 32 2 128) (flat_frame 32 2 128)
    = Some (s', out) /\
    exists n0 d0 n1 d1 n2 d2 n3 d3,
      scores out = [n0; d0; n1; d1; n2; d2; n3; d3] /\
      score out = (if eqb (score_den out) (F64.of_int 0) then F64.of_int 1
                   else F64.div (score_num out) (score_den out)).
Proof.
  destruct flat_pair_defined as [[s' out] E]. exists s', out. split; [exact E|].
  destruct (ff_adm_process_score _ _ _ _ _ E)
    as (n0 & d0 & n1 & d1 & n2 & d2 & n3 & d3 & Hs & _ & _ & Hsc).
  exists n0, d0, n1, d1, n2, d2, n3, d3. split; assumption.
Defined.

(** ** The gain of the decoupling stage (C6) *)

(** C6. At a pixel where the reference and the distorted sample of an
    orientation are both 0, the source's gain [0 * (1.0 / 0 + eps)] is
    NaN, where distorted / (reference + eps) is 0.  When the angle test
    fails there (here for H and V samples (0, 1) against (0, -1)), the
    provisional restored value stays NaN and its conversion to
    [int16_t] is undefined. *)
Theorem gain_nan_at_zero :
  gain 0 0 = S754_nan /\
  gain_spec 0 0 = S754_zero false /\
  angle_flag 0 1 0 (-1) = false /\
  decouple_tmp (angle_flag 0 1 0 (-1)) 0 0 = S754_nan /\
  decouple_one (angle_flag 0 1 0 (-1)) 0 0 = None.
Proof. repeat split; vm_compute; reflexivity. Qed.

(** ** Identical frame pairs (C7) *)


(** ** Rounding to a floating-point format *)

Lemma digits2_pos_bounds m :
  2 ^ (Z.pos (digits2_pos m) - 1) <= Z.pos m < 2 ^ Z.pos (digits2_pos m).
Proof.
  induction m as [m IH|m IH|]; cbn [digits2_pos].
  - rewrite Pos2Z.inj_succ. replace (Z.succ (Z.pos (digits2_pos m)) - 1) with (Z.pos (digits2_pos m)) by lia.
    rewrite Z.pow_succ_r by lia.
    assert (E : 2 ^ Z.pos (digits2_pos m) = 2 * 2 ^ (Z.pos (digits2_pos m) - 1)).
    { rewrite <- Z.pow_succ_r by lia. f_equal. lia. }
    lia.
  - rewrite Pos2Z.inj_succ. replace (Z.succ (Z.pos (digits2_pos m)) - 1) with (Z.pos (digits2_pos m)) by lia.
    rewrite Z.pow_succ_r by lia.
    assert (E : 2 ^ Z.pos (digits2_pos m) = 2 * 2 ^ (Z.pos (digits2_pos m) - 1)).
    { rewrite <- Z.pow_succ_r by lia. f_equal. lia. }
    lia.
  - simpl. lia.
Qed.

Lemma Zdigits2_bounds m : 0 < m -> 2 ^ (Zdigits2 m - 1) <= m < 2 ^ Zdigits2 m.
Proof. destruct m; try lia. intros _. apply digits2_pos_bounds. Qed.

Lemma Zdigits2_nonneg m : 0 <= Zdigits2 m.
Proof. destruct m; simpl; lia. Qed.

(** A number below [2^k] has at most [k] digits. *)
Lemma Zdigits2_le m k : 0 <= m < 2 ^ k -> 0 <= k -> Zdigits2 m <= k.
Proof.
  intros Hm Hk. destruct (Z.eq_dec m 0) as [->|]; [simpl; lia|].
  pose proof (Zdigits2_bounds m ltac:(lia)) as [Hlo _].
  destruct (Z_le_gt_dec (Zdigits2 m) k); [assumption|].
  exfalso. assert (2 ^ k <= 2 ^ (Zdigits2 m - 1)) by (apply Z.pow_le_mono_r; lia). lia.
Qed.

Lemma iter_pos_nat {A} (f : A -> A) p x : SpecFloat.iter_pos f p x = Nat.iter (Pos.to_nat p) f x.
Proof.
  revert x. induction p as [p IH|p IH|]; intros x; cbn [SpecFloat.iter_pos].
  - rewrite !IH. rewrite Pos2Nat.inj_xI. cbn [Nat.iter Nat.mul].
    rewrite <- !Nat.iter_add. rewrite <- Nat.iter_succ_r. f_equal. lia.
  - rewrite !IH. rewrite Pos2Nat.inj_xO. rewrite <- Nat.iter_add. f_equal. lia.
  - reflexivity.
Qed.


Lemma shr_1_spec mrs :
  0 <= shr_m mrs ->
  shr_m (shr_1 mrs) = shr_m mrs / 2 /\
  (shr_exact (shr_1 mrs) = true <-> shr_exact mrs = true /\ shr_m mrs = 2 * shr_m (shr_1 mrs)).
Proof.
  destruct mrs as [m r s]. unfold shr_exact. cbn [shr_m shr_r shr_s].
  intros Hm. destruct m as [|p|p]; [| |lia].
  - split; [reflexivity|]. destruct r, s; cbn; intuition (try discriminate).
  - destruct p as [p|p|]; cbn [shr_1 shr_m shr_r shr_s].
    + split. { rewrite Pos2Z.inj_xI. apply Z.div_unique with (r := 1); lia. }
      destruct r, s; cbn; intuition (try discriminate; try lia).
    + split. { rewrite Pos2Z.inj_xO. apply Z.div_unique with (r := 0); lia. }
      destruct r, s; cbn; intuition (try discriminate; try lia).
    + split; [reflexivity|].
      destruct r, s; cbn; intuition (try discriminate; try lia).
Qed.

Lemma shr_iter_spec n mrs :
  0 <= shr_m mrs ->
  shr_m (Nat.iter n shr_1 mrs) = shr_m mrs / 2 ^ Z.of_nat n /\
  (shr_exact (Nat.iter n shr_1 mrs) = true <->
   shr_exact mrs = true /\ shr_m mrs = 2 ^ Z.of_nat n * shr_m (Nat.iter n shr_1 mrs)).
Proof.
  intros Hm. induction n as [|n IH].
  - simpl. rewrite Z.div_1_r. split; [reflexivity|]. split; [intros; split; [assumption|lia] | tauto].
  - destruct IH as [IH1 IH2].
    assert (H0 : 0 <= shr_m (Nat.iter n shr_1 mrs)).
    { rewrite IH1. apply Z.div_pos; lia. }
    destruct (shr_1_spec _ H0) as [S1 S2].
    rewrite Nat2Z.inj_succ, Z.pow_succ_r by lia.
    change (Nat.iter (S n) shr_1 mrs) with (shr_1 (Nat.iter n shr_1 mrs)).
    split.
    + rewrite S1, IH1. rewrite Z.div_div by lia. f_equal. lia.
    + split.
      * intros Hex. apply S2 in Hex as [Hex' Hm']. apply IH2 in Hex' as [Hex'' Hm''].
        split; [assumption|]. rewrite Hm'' at 1. rewrite Hm' at 1. ring.
      * intros [Hex Hm']. apply S2.
        assert (P : 0 < 2 ^ Z.of_nat n) by (apply Z.pow_pos_nonneg; lia).
        assert (Hq : shr_m (Nat.iter n shr_1 mrs) = 2 * shr_m (shr_1 (Nat.iter n shr_1 mrs))).
        { rewrite IH1. rewrite Hm' at 1.
          replace (2 * 2 ^ Z.of_nat n * shr_m (shr_1 (Nat.iter n shr_1 mrs)))
            with (2 * shr_m (shr_1 (Nat.iter n shr_1 mrs)) * 2 ^ Z.of_nat n) by ring.
          apply Z.div_mul. lia. }
        split; [|assumption]. apply IH2. split; [assumption|].
        rewrite Hq. rewrite Hm' at 1. ring.
Qed.

Lemma shr_spec m e n :
  0 <= m ->
  exists mrs e', shr (Build_shr_record m false false) e n = (mrs, e') /\
  (n <= 0 -> mrs = Build_shr_record m false false /\ e' = e) /\
  (0 < n -> e' = e + n /\ shr_m mrs = m / 2 ^ n /\
            (shr_exact mrs = true <-> m = 2 ^ n * shr_m mrs)).
Proof.
  intros Hm. unfold shr. destruct n as [|p|p].
  - eexists _, _. split; [reflexivity|]. split; [auto|lia].
  - eexists _, _. split; [reflexivity|]. split; [lia|]. intros _. rewrite iter_pos_nat.
    pose proof (shr_iter_spec (Pos.to_nat p) (Build_shr_record m false false) Hm) as H.
    cbn [shr_m] in H. rewrite positive_nat_Z in H.
    destruct H as [H1 H2]. split; [reflexivity|]. split; [assumption|].
    rewrite H2. change (shr_exact {| shr_m := m; shr_r := false; shr_s := false |}) with true. tauto.
  - eexists _, _. split; [reflexivity|]. split; [auto|lia].
Qed.

Lemma round_nearest_even_spec mrs :
  let m2 := round_nearest_even (shr_m mrs) (loc_of_shr_record mrs) in
  shr_m mrs <= m2 <= shr_m mrs + 1 /\ (shr_exact mrs = true -> m2 = shr_m mrs).
Proof.
  destruct mrs as [m [|] [|]]; unfold shr_exact; cbn;
    try destruct (Z.even m); split; try lia; try discriminate; reflexivity.
Qed.

Lemma pow2_pos k : 0 < 2 ^ k \/ k < 0.
Proof. destruct (Z_lt_le_dec k 0); [right; assumption|left; apply Z.pow_pos_nonneg; lia]. Qed.

Lemma pos_iter_xO m d : Z.pos (Pos.iter xO m d) = Z.pos m * 2 ^ Z.pos d.
Proof.
  induction d as [|d IH] using Pos.peano_ind.
  - cbn. lia.
  - rewrite Pos.iter_succ, Pos2Z.inj_succ, Z.pow_succ_r by lia.
    rewrite Pos2Z.inj_xO, IH. ring.
Qed.

Lemma shl_align_spec mx ex ex' :
  exists m' e', shl_align mx ex ex' = (m', e') /\ e' <= ex /\
    Z.pos m' = Z.pos mx * 2 ^ (ex - e').
Proof.
  unfold shl_align. destruct (ex' - ex) as [|d|d] eqn:E.
  - exists mx, ex. rewrite Z.sub_diag. split; [reflexivity|]. split; lia.
  - exists mx, ex. rewrite Z.sub_diag. split; [reflexivity|]. split; lia.
  - eexists _, _. split; [reflexivity|]. split; [lia|].
    rewrite pos_iter_xO. f_equal. f_equal. lia.
Qed.

Section Rounding.
Variables prec emax q : Z.
Hypothesis Hprec : 0 < prec.
Hypothesis Hemax : prec < emax.
Hypothesis Hq : 0 <= q.
Hypothesis Hqmax : q <= emax + prec - 3.


Lemma shr_fexp_bnd A B m e :
  0 <= A <= B -> B < 2 ^ prec -> 0 <= m -> bnd q A B m e ->
  exists mrs e', shr_fexp prec emax m e loc_Exact = (mrs, e') /\
    0 <= shr_m mrs /\ bnd q A B (shr_m mrs) e' /\
    (shr_exact mrs = false -> shr_m mrs < B * 2 ^ (- q - e')).
Proof.
  intros HAB HB Hm [He [Hlo Hhi]]. unfold shr_fexp. cbn [shr_record_of_loc].
  set (n := fexp prec emax (Zdigits2 m + e) - e).
  destruct (shr_spec m e n Hm) as (mrs & e' & E & Hn0 & Hn1).
  exists mrs, e'. split; [exact E|].
  destruct (Z_le_gt_dec n 0) as [Hn|Hn].
  - destruct (Hn0 Hn) as [-> ->]. cbn [shr_m]. unfold shr_exact. cbn.
    split; [assumption|]. split; [split; [assumption|split; assumption]|discriminate].
  - destruct (Hn1 ltac:(lia)) as (-> & Hq' & Hex).
    assert (Pe : 0 < 2 ^ (- q - e)) by (apply Z.pow_pos_nonneg; lia).
    assert (Pn : 0 < 2 ^ n) by (apply Z.pow_pos_nonneg; lia).
    assert (Hd : Zdigits2 m + e <= prec - q).
    { assert (Zdigits2 m <= prec - q - e); [|lia].
      apply Zdigits2_le; [|lia]. split; [assumption|].
      replace (prec - q - e) with (prec + (- q - e)) by lia. rewrite Z.pow_add_r by lia.
      nia. }
    assert (He' : e + n <= - q).
    { subst n. unfold fexp, emin. lia. }
    assert (Esplit : 2 ^ (- q - e) = 2 ^ (- q - (e + n)) * 2 ^ n).
    { rewrite <- Z.pow_add_r by lia. f_equal. lia. }
    assert (Pe' : 0 < 2 ^ (- q - (e + n))) by (apply Z.pow_pos_nonneg; lia).
    assert (L : A * 2 ^ (- q - (e + n)) <= shr_m mrs).
    { rewrite Hq'. apply Z.div_le_lower_bound; [assumption|]. rewrite Esplit in Hlo. nia. }
    assert (U : shr_m mrs <= B * 2 ^ (- q - (e + n))).
    { rewrite Hq'. apply Z.div_le_upper_bound; [assumption|]. rewrite Esplit in Hhi. nia. }
    split; [rewrite Hq'; apply Z.div_pos; lia|].
    split; [split; [assumption|split; assumption]|].
    intros Hinex. destruct (Z.eq_dec (shr_m mrs) (B * 2 ^ (- q - (e + n)))) as [Eq|]; [|lia].
    exfalso. assert (m = 2 ^ n * shr_m mrs); [|rewrite (proj2 Hex) in Hinex; [discriminate|assumption]].
    assert (2 ^ n * shr_m mrs <= m).
    { rewrite Hq'. apply Z.mul_div_le. assumption. }
    rewrite Esplit in Hhi. nia.
Qed.


Lemma binary_round_aux_bnd s A B m e :
  0 <= A <= B -> B < 2 ^ prec -> 0 <= m -> bnd q A B m e ->
  SFbnd q s A B (binary_round_aux prec emax s m e loc_Exact).
Proof.
  intros HAB HB Hm Hb. unfold binary_round_aux.
  destruct (shr_fexp_bnd A B m e HAB HB Hm Hb) as (mrs & e' & E1 & P1 & B1 & I1).
  rewrite E1.
  pose proof (round_nearest_even_spec mrs) as R. cbv zeta in R. destruct R as [R1 R2].
  set (m2 := round_nearest_even (shr_m mrs) (loc_of_shr_record mrs)) in *.
  assert (B2 : bnd q A B m2 e').
  { destruct B1 as (He' & L & U). split; [assumption|].
    destruct (shr_exact mrs) eqn:X; [rewrite R2 by reflexivity; lia|].
    specialize (I1 eq_refl). lia. }
  destruct (shr_fexp_bnd A B m2 e' HAB HB ltac:(lia) B2) as (mrs2 & e2 & E2 & P2 & B3 & _).
  rewrite E2. destruct B3 as (He2 & L2 & U2).
  assert (Pe : 0 < 2 ^ (- q - e2)) by (apply Z.pow_pos_nonneg; lia).
  destruct (shr_m mrs2) as [|p|p] eqn:Em.
  - cbn. split; [reflexivity|]. nia.
  - replace (e2 <=? emax - prec) with true by (symmetry; apply Z.leb_le; lia).
    cbn. split; [reflexivity|]. split; [assumption|]. split; assumption.
  - lia.
Qed.

Lemma bnd_shift A B m e e' :
  e' <= e -> bnd q A B m e -> bnd q A B (m * 2 ^ (e - e')) e'.
Proof.
  intros Hle (He & L & U). split; [lia|].
  replace (- q - e') with (- q - e + (e - e')) by lia. rewrite Z.pow_add_r by lia.
  assert (0 < 2 ^ (e - e')) by (apply Z.pow_pos_nonneg; lia).
  nia.
Qed.

Lemma binary_round_bnd s A B m e :
  0 <= A <= B -> B < 2 ^ prec -> bnd q A B (Z.pos m) e ->
  SFbnd q s A B (binary_round prec emax s m e).
Proof.
  intros HAB HB Hb. unfold binary_round.
  destruct (shl_align_spec m e (fexp prec emax (Z.pos (digits2_pos m) + e)))
    as (m' & e' & -> & Hle & Hm').
  apply binary_round_aux_bnd; [assumption|assumption|lia|].
  rewrite Hm'. apply bnd_shift; assumption.
Qed.

(** The same for a number of exponent above [- q], here an integer. *)
Lemma binary_round_bnd_int s A B m :
  0 <= A <= B -> B < 2 ^ prec -> A <= Z.pos m * 2 ^ q <= B ->
  SFbnd q s A B (binary_round prec emax s m 0).
Proof.
  intros HAB HB Hb. unfold binary_round.
  assert (Pq : 0 < 2 ^ q) by (apply Z.pow_pos_nonneg; lia).
  assert (Hqp : q < prec).
  { apply (Z.pow_lt_mono_r_iff 2); [lia|lia|nia]. }
  assert (Hd : Z.pos (digits2_pos m) <= prec - q).
  { apply (Zdigits2_le (Z.pos m)); [|lia]. split; [lia|].
    assert (2 ^ prec = 2 ^ (prec - q) * 2 ^ q).
    { rewrite <- Z.pow_add_r by lia. f_equal. lia. }
    nia. }
  assert (Hf : fexp prec emax (Z.pos (digits2_pos m) + 0) <= - q).
  { unfold fexp, emin. lia. }
  destruct (shl_align_spec m 0 (fexp prec emax (Z.pos (digits2_pos m) + 0)))
    as (m' & e' & E & Hle & Hm').
  rewrite E.
  assert (He' : e' <= - q).
  { unfold shl_align in E.
    destruct (fexp prec emax (Z.pos (digits2_pos m) + 0) - 0) as [|d|d] eqn:Ed;
      injection E as E1 E2; subst e'; unfold fexp, emin in *; lia. }
  apply binary_round_aux_bnd; [assumption|assumption|lia|].
  split; [assumption|]. rewrite Hm'.
  replace (0 - e') with (q + (- q - e')) by lia. rewrite Z.pow_add_r by lia.
  assert (0 < 2 ^ (- q - e')) by (apply Z.pow_pos_nonneg; lia).
  nia.
Qed.


Lemma SFbnd_sbnd s A B L H x :
  SFbnd q s A B x -> 0 <= A <= B ->
  (if s then L <= - B /\ - A <= H else L <= A /\ B <= H) ->
  sbnd q L H x.
Proof.
  destruct x as [s'|s'| |s' m e]; cbn; try tauto.
  - intros [-> ->] HAB. destruct s; lia.
  - intros (-> & He & Lo & Hi) HAB Hs.
    assert (0 < 2 ^ (- q - e)) by (apply Z.pow_pos_nonneg; lia).
    split; [assumption|]. destruct s; cbn; nia.
Qed.

Lemma sbnd_weaken L H L' H' x : sbnd q L H x -> L' <= L -> H <= H' -> sbnd q L' H' x.
Proof.
  destruct x as [s|s| |s m e]; cbn; try tauto; [lia|].
  intros (He & Lo & Hi) HL HH.
  assert (0 < 2 ^ (- q - e)) by (apply Z.pow_pos_nonneg; lia).
  split; [assumption|]. nia.
Qed.

Lemma sbnd_inter L H L' H' x : sbnd q L H x -> sbnd q L' H' x -> sbnd q (Z.max L L') (Z.min H H') x.
Proof.
  destruct x as [s|s| |s m e]; cbn; try tauto; [lia|].
  intros (He & Lo & Hi) (_ & Lo' & Hi').
  split; [assumption|].
  destruct (Z.max_spec L L') as [[_ ->]|[_ ->]], (Z.min_spec H H') as [[_ ->]|[_ ->]]; lia.
Qed.

Lemma binary_normalize_sbnd L H D e sz :
  e <= - q -> - 2 ^ prec < L -> L <= H -> H < 2 ^ prec ->
  L * 2 ^ (- q - e) <= D <= H * 2 ^ (- q - e) ->
  sbnd q L H (binary_normalize prec emax D e sz).
Proof.
  intros He HL HLH HH [Lo Hi].
  assert (P : 0 < 2 ^ (- q - e)) by (apply Z.pow_pos_nonneg; lia).
  destruct D as [|p|p]; cbn [binary_normalize].
  - cbn. nia.
  - apply (SFbnd_sbnd false (Z.max L 0) H).
    + apply binary_round_bnd; [nia|assumption|]. split; [assumption|]. nia.
    + nia.
    + lia.
  - apply (SFbnd_sbnd true (Z.max (- H) 0) (- L)).
    + apply binary_round_bnd; [nia|lia|]. split; [assumption|]. nia.
    + nia.
    + lia.
Qed.

Lemma of_Z_sbnd z :
  - 2 ^ prec < z * 2 ^ q < 2 ^ prec -> sbnd q (z * 2 ^ q) (z * 2 ^ q) (of_Z prec emax z).
Proof.
  intros Hz. unfold of_Z.
  assert (Pq : 0 < 2 ^ q) by (apply Z.pow_pos_nonneg; lia).
  destruct z as [|p|p]; cbn [binary_normalize].
  - cbn. lia.
  - apply (SFbnd_sbnd false (Z.pos p * 2 ^ q) (Z.pos p * 2 ^ q)); [|lia|lia].
    apply binary_round_bnd_int; lia.
  - apply (SFbnd_sbnd true (Z.pos p * 2 ^ q) (Z.pos p * 2 ^ q)); [|lia|lia].
    apply binary_round_bnd_int; lia.
Qed.


Lemma shl_align_fst mx ex ez :
  ez <= ex -> Z.pos (fst (shl_align mx ex ez)) = Z.pos mx * 2 ^ (ex - ez).
Proof.
  intros Hle. unfold shl_align. destruct (ez - ex) as [|d|d] eqn:E; cbn [fst].
  - replace (ex - ez) with 0 by lia. lia.
  - lia.
  - rewrite pos_iter_xO. f_equal. f_equal. lia.
Qed.

Lemma cond_Zopp_mul s a b : cond_Zopp s (a * b) = cond_Zopp s a * b.
Proof. destruct s; cbn; ring. Qed.

Lemma sbnd_le L H x : sbnd q L H x -> L <= H.
Proof.
  destruct x as [s|s| |s m e]; cbn; try tauto; [lia|].
  intros (He & Lo & Hi).
  assert (0 < 2 ^ (- q - e)) by (apply Z.pow_pos_nonneg; lia). nia.
Qed.

(** The aligned difference (or sum) of two bounded numbers. *)
Lemma align_bounds L H s m e ez :
  ez <= e -> e <= - q ->
  L * 2 ^ (- q - e) <= cond_Zopp s (Z.pos m) <= H * 2 ^ (- q - e) ->
  L * 2 ^ (- q - ez) <= cond_Zopp s (Z.pos (fst (shl_align m e ez))) <= H * 2 ^ (- q - ez).
Proof.
  intros Hle He [Lo Hi]. rewrite shl_align_fst by assumption. rewrite cond_Zopp_mul.
  replace (- q - ez) with (- q - e + (e - ez)) by lia. rewrite Z.pow_add_r by lia.
  assert (0 < 2 ^ (e - ez)) by (apply Z.pow_pos_nonneg; lia).
  nia.
Qed.

Lemma cond_Zopp_negb s a : cond_Zopp (negb s) a = - cond_Zopp s a.
Proof. destruct s; cbn; lia. Qed.

Lemma SFsub_sbnd L1 H1 L2 H2 x y :
  sbnd q L1 H1 x -> sbnd q L2 H2 y ->
  - 2 ^ prec < L1 - H2 -> H1 - L2 < 2 ^ prec ->
  sbnd q (L1 - H2) (H1 - L2) (SFsub prec emax x y).
Proof.
  intros Hx Hy HL HH.
  pose proof (sbnd_le _ _ _ Hx) as Hx'. pose proof (sbnd_le _ _ _ Hy) as Hy'.
  destruct x as [sx|sx| |sx mx ex], y as [sy|sy| |sy my ey]; cbn in Hx, Hy; try tauto.
  - cbn. destruct sx, sy; cbn; lia.
  - cbn. destruct Hy as (He & Lo & Hi). split; [assumption|].
    rewrite cond_Zopp_negb.
    assert (0 < 2 ^ (- q - ey)) by (apply Z.pow_pos_nonneg; lia). nia.
  - cbn. destruct Hx as (He & Lo & Hi). split; [assumption|].
    assert (0 < 2 ^ (- q - ex)) by (apply Z.pow_pos_nonneg; lia). nia.
  - destruct Hx as (Hex & Lx & Ux), Hy as (Hey & Ly & Uy).
    cbn [SFsub]. cbv zeta.
    pose proof (align_bounds L1 H1 sx mx ex (Z.min ex ey) ltac:(lia) Hex (conj Lx Ux)) as [A1 A2].
    pose proof (align_bounds L2 H2 sy my ey (Z.min ex ey) ltac:(lia) Hey (conj Ly Uy)) as [A3 A4].
    apply binary_normalize_sbnd; [lia|assumption|lia|assumption|].
    lia.
Qed.

Lemma SFadd_sbnd L1 H1 L2 H2 x y :
  sbnd q L1 H1 x -> sbnd q L2 H2 y ->
  - 2 ^ prec < L1 + L2 -> H1 + H2 < 2 ^ prec ->
  sbnd q (L1 + L2) (H1 + H2) (SFadd prec emax x y).
Proof.
  intros Hx Hy HL HH.
  pose proof (sbnd_le _ _ _ Hx) as Hx'. pose proof (sbnd_le _ _ _ Hy) as Hy'.
  destruct x as [sx|sx| |sx mx ex], y as [sy|sy| |sy my ey]; cbn in Hx, Hy; try tauto.
  - cbn. destruct sx, sy; cbn; lia.
  - cbn. destruct Hy as (He & Lo & Hi). split; [assumption|].
    assert (0 < 2 ^ (- q - ey)) by (apply Z.pow_pos_nonneg; lia). nia.
  - cbn. destruct Hx as (He & Lo & Hi). split; [assumption|].
    assert (0 < 2 ^ (- q - ex)) by (apply Z.pow_pos_nonneg; lia). nia.
  - destruct Hx as (Hex & Lx & Ux), Hy as (Hey & Ly & Uy).
    cbn [SFadd]. cbv zeta.
    pose proof (align_bounds L1 H1 sx mx ex (Z.min ex ey) ltac:(lia) Hex (conj Lx Ux)) as [A1 A2].
    pose proof (align_bounds L2 H2 sy my ey (Z.min ex ey) ltac:(lia) Hey (conj Ly Uy)) as [A3 A4].
    apply binary_normalize_sbnd; [lia|assumption|lia|assumption|].
    lia.
Qed.


End Rounding.

Lemma shr_record_of_loc_m m l : shr_m (shr_record_of_loc m l) = m.
Proof. destruct l as [|[]]; reflexivity. Qed.

Lemma shr_fexp_lt prec emax m e l :
  0 < prec -> 0 <= m ->
  exists mrs e', shr_fexp prec emax m e l = (mrs, e') /\ 0 <= shr_m mrs < 2 ^ prec.
Proof.
  intros Hprec Hm. unfold shr_fexp, shr.
  set (n := fexp prec emax (Zdigits2 m + e) - e).
  assert (Hn : Zdigits2 m - prec <= n) by (subst n; unfold fexp; lia).
  assert (Hlt : m < 2 ^ Zdigits2 m).
  { destruct (Z.eq_dec m 0) as [->|]; [cbn; lia|]. apply Zdigits2_bounds. lia. }
  pose proof (Zdigits2_nonneg m) as Hd.
  destruct n as [|p|p] eqn:En.
  - eexists _, _. split; [reflexivity|]. rewrite shr_record_of_loc_m.
    split; [assumption|]. eapply Z.lt_le_trans; [exact Hlt|]. apply Z.pow_le_mono_r; lia.
  - eexists _, _. split; [reflexivity|]. rewrite iter_pos_nat.
    destruct (shr_iter_spec (Pos.to_nat p) (shr_record_of_loc m l)) as [-> _].
    { rewrite shr_record_of_loc_m. assumption. }
    rewrite shr_record_of_loc_m, positive_nat_Z.
    split; [apply Z.div_pos; lia|].
    apply Z.div_lt_upper_bound; [lia|].
    rewrite <- Z.pow_add_r by lia.
    eapply Z.lt_le_trans; [exact Hlt|]. apply Z.pow_le_mono_r; lia.
  - eexists _, _. split; [reflexivity|]. rewrite shr_record_of_loc_m.
    split; [assumption|]. eapply Z.lt_le_trans; [exact Hlt|]. apply Z.pow_le_mono_r; lia.
Qed.


Lemma binary_round_aux_rounded prec emax s m e l :
  0 < prec -> 0 <= m -> rounded prec s (binary_round_aux prec emax s m e l).
Proof.
  intros Hprec Hm. unfold binary_round_aux.
  destruct (shr_fexp_lt prec emax m e l Hprec Hm) as (mrs & e' & -> & H1).
  pose proof (round_nearest_even_spec mrs) as R. cbv zeta in R. destruct R as [R1 _].
  destruct (shr_fexp_lt prec emax (round_nearest_even (shr_m mrs) (loc_of_shr_record mrs))
              e' loc_Exact Hprec ltac:(lia)) as (mrs2 & e2 & -> & H2).
  destruct (shr_m mrs2) as [|p|p]; cbn; [reflexivity| |lia].
  destruct (e2 <=? emax - prec); cbn; [split; [reflexivity|lia]|reflexivity].
Qed.

Lemma binary_round_rounded prec emax s m e :
  0 < prec -> rounded prec s (binary_round prec emax s m e).
Proof.
  intros Hprec. unfold binary_round. destruct (shl_align _ _ _) as [mz ez].
  apply binary_round_aux_rounded; [assumption|lia].
Qed.

(** ** Facts on binary32 used by the decoupling stage *)

Lemma F32_of_int_0 : F32.of_int 0 = S754_zero false.
Proof. reflexivity. Qed.

Lemma F32_of_int_1 : F32.of_int 1 = S754_finite false 8388608 (-23).
Proof. reflexivity. Qed.

(** After the clamp the gain is NaN or lies in [0, 1]. *)
Lemma clamp01_sbnd k0 :
  match k0 with S754_finite _ m _ => Z.pos m < 2 ^ 24 | _ => True end ->
  clamp01 k0 = S754_nan \/ sbnd 0 0 1 (clamp01 k0).
Proof.
  unfold clamp01. rewrite F32_of_int_0, F32_of_int_1.
  destruct k0 as [s|s| |s m e]; intros Hm.
  - right. destruct s; cbn; lia.
  - right. destruct s; cbn; lia.
  - left. reflexivity.
  - right. destruct s; [cbn; lia|].
    unfold ltb, SFltb. cbn [SFcompare].
    destruct (Z.compare_spec (-23) e) as [<-|Hlt|Hgt].
    + rewrite Pos.compare_cont_spec. cbn [Pos.switch_Eq].
      destruct (Pos.compare_spec 8388608 m) as [E|Hl|Hg]; cbn [Pos.switch_Eq];
        cbv beta iota; cbn [sbnd cond_Zopp]; change (2 ^ (- 0 - -23)) with 8388608.
      * rewrite <- E. lia.
      * lia.
      * assert (Z.pos m < 8388608) by exact Hg. clear Hg. lia.
    + cbv beta iota. cbn [sbnd cond_Zopp]. change (2 ^ (- 0 - -23)) with 8388608. lia.
    + cbv beta iota. cbn [sbnd cond_Zopp]. split; [lia|]. split; [lia|].
      assert (2 ^ 24 <= 2 ^ (- 0 - e)) by (apply Z.pow_le_mono_r; lia). lia.
Qed.

Lemma ceilZ_sbnd L H x :
  sbnd 0 L H x -> exists c, ceilZ x = Some c /\ L <= c <= H /\ sbnd 0 (c - 1) c x.
Proof.
  destruct x as [s|s| |s m e]; cbn [sbnd]; try tauto.
  - intros HL. exists 0. cbn. repeat split; lia.
  - replace (- 0 - e) with (- e) by lia. intros (He & Lo & Hi).
    assert (P : 0 < 2 ^ (- e)) by (apply Z.pow_pos_nonneg; lia).
    cbn [ceilZ]. destruct (Z.leb_spec 0 e) as [He0|He0].
    + assert (e = 0) by lia. subst e. change (2 ^ (- 0)) with 1 in *. change (2 ^ 0) with 1.
      eexists. split; [reflexivity|]. rewrite Z.mul_1_r. split; [lia|]. split; lia.
    + destruct s; cbn [cond_Zopp] in *.
      * eexists. split; [reflexivity|].
        pose proof (Z.mul_div_le (Z.pos m) (2 ^ (- e)) P).
        pose proof (Z.mul_succ_div_gt (Z.pos m) (2 ^ (- e)) P).
        assert (- H <= Z.pos m / 2 ^ (- e)) by (apply Z.div_le_lower_bound; lia).
        assert (Z.pos m / 2 ^ (- e) <= - L) by (apply Z.div_le_upper_bound; lia).
        split; [lia|]. split; [lia|]. nia.
      * eexists. split; [reflexivity|].
        pose proof (Z.mul_div_le (- Z.pos m) (2 ^ (- e)) P).
        pose proof (Z.mul_succ_div_gt (- Z.pos m) (2 ^ (- e)) P).
        assert (- H <= (- Z.pos m) / 2 ^ (- e)) by (apply Z.div_le_lower_bound; lia).
        assert ((- Z.pos m) / 2 ^ (- e) <= - L) by (apply Z.div_le_upper_bound; lia).
        split; [lia|]. split; [lia|]. nia.
Qed.

Lemma SFmul_unit_sbnd prec emax k y o :
  0 < prec -> prec < emax ->
  sbnd 0 0 1 k -> sbnd 0 o o y -> - 2 ^ prec < o < 2 ^ prec ->
  sbnd 0 (Z.min 0 o) (Z.max 0 o) (SFmul prec emax k y).
Proof.
  intros Hprec Hemax Hk Hy Ho.
  destruct k as [sk|sk| |sk mk ek], y as [sy|sy| |sy my ey]; cbn in Hk, Hy; try tauto;
    try (cbn; lia).
  destruct Hk as (Hek & Lk & Uk), Hy as (Hey & Ly & Uy).
  replace (- 0 - ek) with (- ek) in * by lia. replace (- 0 - ey) with (- ey) in * by lia.
  assert (Pk : 0 < 2 ^ (- ek)) by (apply Z.pow_pos_nonneg; lia).
  assert (Py : 0 < 2 ^ (- ey)) by (apply Z.pow_pos_nonneg; lia).
  destruct sk; cbn [cond_Zopp] in Lk, Uk; [lia|].
  cbn [SFmul xorb].
  apply (SFbnd_sbnd 0 sy 0 (Z.abs o)); [|lia|destruct sy; cbn [cond_Zopp] in *; nia].
  apply binary_round_aux_bnd; try lia.
  split; [lia|].
  replace (- 0 - (ek + ey)) with (- ek + - ey) by lia. rewrite Z.pow_add_r by lia.
  rewrite Pos2Z.inj_mul.
  destruct sy; cbn [cond_Zopp] in *; nia.
Qed.

Lemma F32_of_double_lt x :
  match F32.of_double x with S754_finite _ m _ => Z.pos m < 2 ^ 24 | _ => True end.
Proof.
  destruct x as [s|s| |s m e]; cbn [F32.of_double convert]; try exact I.
  pose proof (binary_round_rounded F32.prec F32.emax s m e eq_refl) as R.
  destruct (binary_round F32.prec F32.emax s m e); cbn in R; try exact I.
  apply R.
Qed.

Lemma F32_of_int_sbnd z : - 2 ^ 24 < z < 2 ^ 24 -> sbnd 0 z z (F32.of_int z).
Proof.
  intros Hz.
  assert (H := of_Z_sbnd F32.prec F32.emax 0 eq_refl eq_refl (Z.le_refl 0)).
  specialize (H ltac:(unfold F32.prec, F32.emax; lia) z).
  change (2 ^ 0) with 1 in H. rewrite Z.mul_1_r in H. apply H. exact Hz.
Qed.

Lemma F32_sub_sbnd L1 H1 L2 H2 x y :
  sbnd 0 L1 H1 x -> sbnd 0 L2 H2 y ->
  - 2 ^ 24 < L1 - H2 -> H1 - L2 < 2 ^ 24 ->
  sbnd 0 (L1 - H2) (H1 - L2) (F32.sub x y).
Proof.
  apply (SFsub_sbnd F32.prec F32.emax 0); unfold F32.prec, F32.emax; lia.
Qed.




(** The provisional restored value is NaN or finite with a value in the
    range of [int16_t]. *)
Lemma decouple_tmp_sbnd flag o t :
  in_int16 o -> in_int16 t ->
  decouple_tmp flag o t = S754_nan \/
  exists L H, sbnd 0 L H (decouple_tmp flag o t) /\ -32768 <= L /\ H <= 32767.
Proof.
  unfold in_int16. intros Ho Ht. unfold decouple_tmp. destruct flag.
  - right. exists t, t. split; [apply F32_of_int_sbnd; lia|lia].
  - unfold gain.
    destruct (clamp01_sbnd _ (F32_of_double_lt (DIVS_eps t o))) as [-> | Hk].
    + left. reflexivity.
    + right. exists (Z.min 0 o), (Z.max 0 o). split; [|lia].
      apply (SFmul_unit_sbnd F32.prec F32.emax);
        [unfold F32.prec; lia|unfold F32.prec, F32.emax; lia|exact Hk|
        |unfold F32.prec; lia].
      apply F32_of_int_sbnd. lia.
Qed.

Lemma to_int16_Some z r : to_int16 z = Some r -> z = Some r /\ in_int16 r.
Proof.
  destruct z as [v|]; cbn; [|discriminate].
  unfold in_int16b, in_int16.
  destruct (Z.leb_spec (-32768) v), (Z.leb_spec v 32767); cbn; try discriminate.
  intros [= <-]. split; [reflexivity|lia].
Qed.

(** ** The outputs of the decoupling stage (C5) *)

(** Whenever the two stores are defined, the restored and the additive
    output add up to the distorted sample or to one more. *)
Lemma decouple_one_sum flag o t r a :
  in_int16 o -> in_int16 t ->
  decouple_one flag o t = Some (r, a) ->
  0 <= r + a - t <= 1.
Proof.
  intros Ho Ht. unfold decouple_one, decouple_r, decouple_a.
  destruct (decouple_tmp_sbnd flag o t Ho Ht) as [-> | (L & H & Hb & HL & HH)].
  - cbn. discriminate.
  - set (tmp := decouple_tmp flag o t) in *.
    destruct (ceilZ_sbnd L H tmp Hb) as (c & Ec & Hc & Hb').
    rewrite Ec.
    assert (Hs : sbnd 0 (t - c) (t - (c - 1)) (F32.sub (F32.of_int t) tmp)).
    { unfold in_int16 in *.
      apply F32_sub_sbnd; [apply F32_of_int_sbnd; lia|exact Hb'|lia|lia]. }
    destruct (ceilZ_sbnd _ _ _ Hs) as (a' & Ea & Ha & _).
    rewrite Ea.
    destruct (to_int16 (Some c)) as [r'|] eqn:Er; [|discriminate].
    destruct (to_int16 (Some a')) as [a''|] eqn:Eaa; [|discriminate].
    apply to_int16_Some in Er as [[= <-] _]. apply to_int16_Some in Eaa as [[= <-] _].
    intros [= <- <-]. lia.
Qed.

(** *** When the stores are defined *)

Lemma shr_spec_loc mrs0 e n :
  0 <= shr_m mrs0 ->
  exists mrs e', shr mrs0 e n = (mrs, e') /\
  (n <= 0 -> mrs = mrs0 /\ e' = e) /\
  (0 < n -> e' = e + n /\ shr_m mrs = shr_m mrs0 / 2 ^ n).
Proof.
  intros Hm. unfold shr. destruct n as [|p|p].
  - eexists _, _. split; [reflexivity|]. split; [auto|lia].
  - eexists _, _. split; [reflexivity|]. split; [lia|]. intros _. rewrite iter_pos_nat.
    destruct (shr_iter_spec (Pos.to_nat p) mrs0 Hm) as [H1 _].
    rewrite positive_nat_Z in H1. split; [reflexivity|exact H1].
  - eexists _, _. split; [reflexivity|]. split; [auto|lia].
Qed.

Section RoundingLoc.
Variables prec emax q : Z.
Hypothesis Hprec : 0 < prec.
Hypothesis Hemax : prec < emax.
Hypothesis Hq : 0 <= q.
Hypothesis Hqmax : q <= emax + prec - 3.

(** Rounding a number that lies strictly between [m * 2^e] and
    [(m + 1) * 2^e], or is [m * 2^e], when both lie between the
    bounds. *)
Lemma binary_round_aux_loc_bnd s A B m e l :
  0 <= A <= B -> B < 2 ^ prec -> 0 <= m -> e <= - q ->
  A * 2 ^ (- q - e) <= m -> m + 1 <= B * 2 ^ (- q - e) ->
  SFbnd q s A B (binary_round_aux prec emax s m e l).
Proof.
  intros HAB HB Hm He Lo Hi. unfold binary_round_aux.
  assert (Pe : 0 < 2 ^ (- q - e)) by (apply Z.pow_pos_nonneg; lia).
  assert (B1 : exists mrs e', shr_fexp prec emax m e l = (mrs, e') /\
             bnd q A B (round_nearest_even (shr_m mrs) (loc_of_shr_record mrs)) e' /\
             0 <= shr_m mrs).
  { unfold shr_fexp. set (n := fexp prec emax (Zdigits2 m + e) - e).
    destruct (shr_spec_loc (shr_record_of_loc m l) e n) as (mrs & e' & E & Hn0 & Hn1).
    { rewrite shr_record_of_loc_m. assumption. }
    exists mrs, e'. split; [exact E|].
    pose proof (round_nearest_even_spec mrs) as R. cbv zeta in R. destruct R as [R1 _].
    rewrite shr_record_of_loc_m in Hn1.
    destruct (Z_le_gt_dec n 0) as [Hn|Hn].
    - destruct (Hn0 Hn) as [-> ->]. rewrite shr_record_of_loc_m in *.
      split; [|assumption]. split; [assumption|]. lia.
    - destruct (Hn1 ltac:(lia)) as (-> & Hq').
      assert (Pn : 0 < 2 ^ n) by (apply Z.pow_pos_nonneg; lia).
      assert (Hd : Zdigits2 m + e <= prec - q).
      { assert (Zdigits2 m <= prec - q - e); [|lia].
        apply Zdigits2_le; [|lia]. split; [assumption|].
        replace (prec - q - e) with (prec + (- q - e)) by lia. rewrite Z.pow_add_r by lia.
        nia. }
      assert (He' : e + n <= - q) by (subst n; unfold fexp, emin; lia).
      assert (Esplit : 2 ^ (- q - e) = 2 ^ (- q - (e + n)) * 2 ^ n).
      { rewrite <- Z.pow_add_r by lia. f_equal. lia. }
      assert (Pe' : 0 < 2 ^ (- q - (e + n))) by (apply Z.pow_pos_nonneg; lia).
      assert (L : A * 2 ^ (- q - (e + n)) <= shr_m mrs).
      { rewrite Hq'. apply Z.div_le_lower_bound; [assumption|]. rewrite Esplit in Lo. nia. }
      assert (U : shr_m mrs + 1 <= B * 2 ^ (- q - (e + n))).
      { assert (shr_m mrs < B * 2 ^ (- q - (e + n))); [|lia].
        rewrite Hq'. apply Z.div_lt_upper_bound; [assumption|]. rewrite Esplit in Hi. nia. }
      split; [|rewrite Hq'; apply Z.div_pos; lia].
      split; [assumption|]. lia. }
  destruct B1 as (mrs & e' & -> & B2 & P1).
  pose proof (round_nearest_even_spec mrs) as R. cbv zeta in R. destruct R as [R1 _].
  set (m2 := round_nearest_even (shr_m mrs) (loc_of_shr_record mrs)) in *.
  destruct (shr_fexp_bnd prec emax q Hprec Hemax Hq Hqmax A B m2 e' HAB HB ltac:(lia) B2)
    as (mrs2 & e2 & E2 & P2 & B3 & _).
  rewrite E2. destruct B3 as (He2 & L2 & U2).
  assert (Pe2 : 0 < 2 ^ (- q - e2)) by (apply Z.pow_pos_nonneg; lia).
  destruct (shr_m mrs2) as [|p|p] eqn:Em.
  - cbn. split; [reflexivity|]. nia.
  - replace (e2 <=? emax - prec) with true by (symmetry; apply Z.leb_le; lia).
    cbn. split; [reflexivity|]. split; [assumption|]. split; assumption.
  - lia.
Qed.

End RoundingLoc.

(** A non-zero integer converts to a finite number of its sign. *)
Lemma of_Z_finite prec emax z :
  0 < prec -> prec < emax -> - 2 ^ prec < z < 2 ^ prec -> z <> 0 ->
  exists m e, of_Z prec emax z = S754_finite (z <? 0) m e /\ e <= 0 /\
              Z.pos m = Z.abs z * 2 ^ (- e).
Proof.
  intros Hprec Hemax Hz Hz0.
  pose proof (of_Z_sbnd prec emax 0 Hprec Hemax (Z.le_refl 0) ltac:(lia) z) as H.
  change (2 ^ 0) with 1 in H. rewrite Z.mul_1_r in H. specialize (H Hz).
  destruct (of_Z prec emax z) as [s|s| |s m e]; cbn [sbnd] in H; try tauto; [lia|].
  destruct H as (He & Lo & Hi). replace (- 0 - e) with (- e) in * by lia.
  assert (P : 0 < 2 ^ (- e)) by (apply Z.pow_pos_nonneg; lia).
  exists m, e. destruct s; cbn [cond_Zopp] in *.
  - assert (z < 0) by nia. replace (z <? 0) with true by (symmetry; apply Z.ltb_lt; lia).
    split; [reflexivity|]. split; [lia|]. nia.
  - assert (0 < z) by nia. replace (z <? 0) with false by (symmetry; apply Z.ltb_ge; lia).
    split; [reflexivity|]. split; [lia|]. nia.
Qed.

(** [1.0 / o] for a non-zero [int16_t] [o]: a finite number of the sign
    of [o] and of magnitude between [2^-15] and [1 + 2^-15]. *)
Lemma F64_inv_bnd o :
  in_int16 o -> o <> 0 ->
  SFbnd 15 (o <? 0) 1 32769 (F64.div (F64.of_int 1) (F64.of_int o)).
Proof.
  unfold in_int16. intros Ho Ho0.
  destruct (of_Z_finite F64.prec F64.emax o eq_refl eq_refl) as (mo & eo & E & Heo & Hmo);
    [change (2 ^ F64.prec) with 9007199254740992; lia|assumption|].
  unfold F64.of_int at 2. rewrite E.
  change (F64.of_int 1) with (S754_finite false 4503599627370496 (-52)).
  unfold F64.div. cbn [SFdiv xorb].
  set (d2 := Zdigits2 (Z.pos mo)).
  assert (Hd2 : 2 ^ (d2 - 1) <= Z.pos mo < 2 ^ d2) by (apply Zdigits2_bounds; lia).
  assert (Hd2p : 0 < d2) by (subst d2; cbn; lia).
  assert (P : 0 < 2 ^ (- eo)) by (apply Z.pow_pos_nonneg; lia).
  (* the number of digits of |o| *)
  assert (HD : 1 <= d2 + eo <= 16).
  { split.
    - destruct (Z_lt_le_dec (d2 + eo) 1) as [Hlt|]; [|lia]. exfalso.
      assert (2 ^ d2 <= 2 ^ (- eo)) by (apply Z.pow_le_mono_r; lia). nia.
    - destruct (Z_lt_le_dec 16 (d2 + eo)) as [Hlt|]; [|lia]. exfalso.
      assert (2 ^ (16 + - eo) <= 2 ^ (d2 - 1)) by (apply Z.pow_le_mono_r; lia).
      rewrite Z.pow_add_r in H by lia. change (2 ^ 16) with 65536 in H. nia. }
  destruct (SFdiv_core_binary _ _ _ _ _ _) as [[mz ez] lz] eqn:Ec.
  unfold SFdiv_core_binary in Ec. fold d2 in Ec.
  change (Zdigits2 4503599627370496) with 53 in Ec. cbv zeta in Ec.
  replace (Z.min (fexp F64.prec F64.emax (53 + -52 - (d2 + eo))) (-52 - eo))
    with (-52 - (d2 + eo)) in Ec by (unfold fexp, emin, F64.prec, F64.emax; lia).
  replace (-52 - eo - (-52 - (d2 + eo))) with d2 in Ec by lia.
  destruct d2 as [|dp|dp] eqn:Ed2; [lia| |lia].
  change (IntDef.Z.div_eucl (Z.shiftl 4503599627370496 (Z.pos dp)) (Z.pos mo))
    with (Z.div_eucl (Z.shiftl 4503599627370496 (Z.pos dp)) (Z.pos mo)) in Ec.
  rewrite Z.shiftl_mul_pow2 in Ec by lia.
  pose proof (Z_div_mod (4503599627370496 * 2 ^ Z.pos dp) (Z.pos mo) ltac:(lia)) as Hdm.
  destruct (Z.div_eucl (4503599627370496 * 2 ^ Z.pos dp) (Z.pos mo)) as [qq rr].
  injection Ec as <- <- <-. destruct Hdm as [Hdm Hrr].
  assert (Pd : 0 < 2 ^ Z.pos dp) by (apply Z.pow_pos_nonneg; lia).
  set (T := 2 ^ (37 + (Z.pos dp + eo))).
  assert (PT : 0 < T) by (apply Z.pow_pos_nonneg; lia).
  assert (ET : T * 2 ^ (- eo) = 137438953472 * 2 ^ Z.pos dp).
  { unfold T. rewrite <- Z.pow_add_r by lia.
    replace (37 + (Z.pos dp + eo) + - eo) with (37 + Z.pos dp) by lia.
    rewrite Z.pow_add_r by lia. reflexivity. }
  assert (Habs : 1 <= Z.abs o <= 32768) by lia.
  assert (Hq0 : 0 <= qq) by nia.
  assert (Hlo : T <= qq).
  { assert (T * Z.pos mo <= 4503599627370496 * 2 ^ Z.pos dp).
    { rewrite Hmo. replace (T * (Z.abs o * 2 ^ (- eo))) with (Z.abs o * (T * 2 ^ (- eo))) by ring.
      rewrite ET. nia. }
    nia. }
  assert (Hhi : qq <= 32768 * T).
  { assert (qq * Z.pos mo <= 32768 * T * Z.pos mo); [|nia].
    assert (32768 * T * 2 ^ (- eo) <= 32768 * T * Z.pos mo) by nia.
    replace (32768 * T * 2 ^ (- eo)) with (32768 * (T * 2 ^ (- eo))) in H by ring.
    rewrite ET in H. nia. }
  apply (binary_round_aux_loc_bnd F64.prec F64.emax 15);
    unfold F64.prec, F64.emax; try lia.
  all: try (change (2 ^ 53) with 9007199254740992; lia).
  all: replace (- (15) - (-52 - (Z.pos dp + eo))) with (37 + (Z.pos dp + eo)) by lia;
    fold T; lia.
Qed.

(** [1.0 / o + eps]: finite or zero, never positive for a negative [o]
    and positive for a positive [o]. *)
Lemma F64_inv_eps_sbnd o :
  in_int16 o -> o <> 0 ->
  sbnd 15 (if o <? 0 then -32769 else 1) (if o <? 0 then 0 else 32770)
    (F64.add (F64.div (F64.of_int 1) (F64.of_int o)) (F64.of_float eps)).
Proof.
  intros Ho Ho0. pose proof (F64_inv_bnd o Ho Ho0) as Hx.
  assert (He : sbnd 15 0 1 (F64.of_float eps)).
  { change (F64.of_float eps) with (S754_finite false 5708990788927488 (-152)).
    cbn [sbnd cond_Zopp]. change (2 ^ (- (15) - -152)) with (2 ^ 137).
    split; [lia|]. split; [lia|]. change (2 ^ 137) with 174224571863520493293247799005065324265472. lia. }
  assert (P53 : 2 ^ 53 = 9007199254740992) by reflexivity.
  destruct (o <? 0).
  - apply (SFadd_sbnd F64.prec F64.emax 15 eq_refl eq_refl ltac:(lia)
             ltac:(unfold F64.prec, F64.emax; lia) (-32769) (-1) 0 1);
      unfold F64.prec; try lia; try assumption.
    apply (SFbnd_sbnd 15 true 1 32769); [assumption|lia|lia].
  - apply (SFadd_sbnd F64.prec F64.emax 15 eq_refl eq_refl ltac:(lia)
             ltac:(unfold F64.prec, F64.emax; lia) 1 32769 0 1);
      unfold F64.prec; try lia; try assumption.
    apply (SFbnd_sbnd 15 false 1 32769); [assumption|lia|lia].
Qed.

Lemma rounded_signed prec s x : rounded prec s x -> signed s x.
Proof. destruct x; cbn; tauto. Qed.

Lemma clamp01_zero s : clamp01 (S754_zero s) = S754_zero s.
Proof. destruct s; reflexivity. Qed.

(** The gain of a pixel that is not NaN is zero or lies in [0, 1]; it
    is a zero when the product is negative. *)
Lemma clamp01_signed s k :
  signed s k -> match k with S754_finite _ m _ => Z.pos m < 2 ^ 24 | _ => True end ->
  sbnd 0 0 1 (clamp01 k) /\ (s = true -> exists s', clamp01 k = S754_zero s').
Proof.
  intros Hs Hm. split.
  - destruct (clamp01_sbnd k Hm) as [E|H]; [|exact H].
    exfalso. destruct k as [s'|s'| |s' m e]; cbn in Hs; try tauto.
    + rewrite clamp01_zero in E. discriminate.
    + destruct s'; discriminate.
    + unfold clamp01 in E.
      destruct (ltb _ (F32.of_int 0)); [discriminate|].
      destruct (ltb (F32.of_int 1) _); discriminate.
  - intros ->. destruct k as [s'|s'| |s' m e]; cbn in Hs; try tauto.
    + exists s'. apply clamp01_zero.
    + subst s'. exists false. reflexivity.
    + subst s'. exists false. reflexivity.
Qed.

Lemma F32_of_int_finite z :
  - 2 ^ 24 < z < 2 ^ 24 -> z <> 0 ->
  exists m e, F32.of_int z = S754_finite (z <? 0) m e.
Proof.
  intros Hz Hz0.
  destruct (of_Z_finite F32.prec F32.emax z eq_refl eq_refl Hz Hz0) as (m & e & E & _).
  exists m, e. exact E.
Qed.

Lemma F64_of_int_finite z :
  - 2 ^ 53 < z < 2 ^ 53 -> z <> 0 ->
  exists m e, F64.of_int z = S754_finite (z <? 0) m e.
Proof.
  intros Hz Hz0.
  destruct (of_Z_finite F64.prec F64.emax z eq_refl eq_refl Hz Hz0) as (m & e & E & _).
  exists m, e. exact E.
Qed.

(** The gain of a pixel whose samples are not both zero. *)
Lemma gain_class t o :
  in_int16 o -> in_int16 t -> o <> 0 \/ t <> 0 ->
  (exists s, gain t o = S754_zero s) \/
  (o = 0 /\ gain t o = F32.of_int 1) \/
  (o <> 0 /\ t <> 0 /\ (t <? 0) = (o <? 0) /\ sbnd 0 0 1 (gain t o)).
Proof.
  unfold in_int16. intros Ho Ht Hne. unfold gain, DIVS_eps.
  destruct (Z.eq_dec o 0) as [->|Ho0].
  - (* 1.0 / 0 is an infinity *)
    destruct (F64_of_int_finite t) as (mt & et & Et);
      [change (2 ^ 53) with 9007199254740992; lia|lia|].
    rewrite Et. change (F64.of_int 0) with (S754_zero false).
    change (F64.of_int 1) with (S754_finite false 4503599627370496 (-52)).
    change (F64.of_float eps) with (S754_finite false 5708990788927488 (-152)).
    cbn. destruct (t <? 0); cbn.
    + left. exists false. reflexivity.
    + right. left. split; reflexivity.
  - pose proof (F64_inv_eps_sbnd o ltac:(unfold in_int16; lia) Ho0) as Hy.
    set (y := F64.add _ _) in *.
    destruct (Z.eq_dec t 0) as [->|Ht0].
    + left. change (F64.of_int 0) with (S754_zero false).
      destruct y as [sy|sy| |sy my ey]; cbn [sbnd] in Hy; try tauto.
      * exists (xorb false sy). cbn. apply clamp01_zero.
      * exists (xorb false sy). cbn. apply clamp01_zero.
    + destruct (F64_of_int_finite t) as (mt & et & Et);
        [change (2 ^ 53) with 9007199254740992; lia|lia|].
      rewrite Et.
      destruct y as [sy|sy| |sy my ey]; cbn [sbnd] in Hy; try tauto.
      * left. exists (xorb (t <? 0) sy). cbn. apply clamp01_zero.
      * assert (Hsy : sy = (o <? 0)).
        { destruct Hy as (He & Lo & Hi).
          assert (0 < 2 ^ (- (15) - ey)) by (apply Z.pow_pos_nonneg; lia).
          destruct (o <? 0), sy; cbn [cond_Zopp] in *; try reflexivity; nia. }
        subst sy.
        assert (Hk : signed (xorb (t <? 0) (o <? 0))
                       (F64.mul (S754_finite (t <? 0) mt et) (S754_finite (o <? 0) my ey))).
        { apply (rounded_signed F64.prec). cbn [F64.mul SFmul].
          apply binary_round_aux_rounded; [reflexivity|lia]. }
        set (k0 := F64.mul _ _) in *.
        assert (Hk' : signed (xorb (t <? 0) (o <? 0)) (F32.of_double k0)).
        { destruct k0 as [s0|s0| |s0 m0 e0]; cbn in Hk; try tauto; try exact Hk.
          subst s0. apply (rounded_signed F32.prec). cbn [F32.of_double convert].
          apply binary_round_rounded. reflexivity. }
        destruct (clamp01_signed _ _ Hk' (F32_of_double_lt k0)) as [Hb Hz].
        destruct (xorb (t <? 0) (o <? 0)) eqn:Ex.
        -- left. apply Hz. reflexivity.
        -- right. right. split; [assumption|]. split; [assumption|].
           split; [|exact Hb]. destruct (t <? 0), (o <? 0); cbn in Ex; congruence.
Qed.

(** The provisional restored value of a pixel whose samples are not
    both zero lies between 0 and the reference sample when the two
    samples have the same sign, and is zero otherwise. *)
Lemma decouple_tmp_range o t :
  in_int16 o -> in_int16 t -> o <> 0 \/ t <> 0 ->
  sbnd 0 (if (t <? 0) && (o <? 0) then o else 0)
         (if (0 <? t) && (0 <? o) then o else 0)
         (decouple_tmp false o t).
Proof.
  intros Ho Ht Hne. unfold decouple_tmp.
  assert (Hoo : sbnd 0 o o (F32.of_int o))
    by (apply F32_of_int_sbnd; unfold in_int16 in Ho; lia).
  assert (Hz : forall s, sbnd 0 (if (t <? 0) && (o <? 0) then o else 0)
                           (if (0 <? t) && (0 <? o) then o else 0)
                           (F32.mul (S754_zero s) (F32.of_int o))).
  { intros s. destruct (F32.of_int o) as [so|so| |so mo eo]; cbn [sbnd] in Hoo; try tauto;
      cbn [F32.mul SFmul sbnd];
      destruct (Z.ltb_spec t 0), (Z.ltb_spec o 0), (Z.ltb_spec 0 t), (Z.ltb_spec 0 o);
      cbn [andb]; lia. }
  destruct (gain_class t o Ho Ht Hne) as [[s ->]|[[-> ->]|(Ho0 & Ht0 & Hs & Hb)]].
  - apply Hz.
  - change (0 <? 0) with false. rewrite !Bool.andb_false_r.
    change (F32.mul (F32.of_int 1) (F32.of_int 0)) with (S754_zero false).
    cbn [sbnd]. lia.
  - pose proof (SFmul_unit_sbnd F32.prec F32.emax _ _ o eq_refl eq_refl Hb Hoo
                  ltac:(unfold in_int16, F32.prec in *; lia)) as H.
    eapply sbnd_weaken; [exact H| |].
    + destruct (Z.ltb_spec t 0), (Z.ltb_spec o 0); cbn [andb]; try discriminate; lia.
    + destruct (Z.ltb_spec t 0), (Z.ltb_spec o 0), (Z.ltb_spec 0 t), (Z.ltb_spec 0 o);
        cbn [andb]; try discriminate; lia.
Qed.

(** The two stores are defined as soon as the provisional restored
    value [tmp] is known to lie in a range that keeps [tmp] and
    [t - tmp] within [int16_t]. *)
Lemma decouple_one_sbnd flag o t L H :
  in_int16 t -> sbnd 0 L H (decouple_tmp flag o t) ->
  -32768 <= L -> H <= 32767 -> -32768 <= t - H -> t - L <= 32767 ->
  exists r a, decouple_one flag o t = Some (r, a).
Proof.
  unfold in_int16. intros Ht Hb HL HH HtH HtL.
  unfold decouple_one, decouple_r, decouple_a. cbv zeta.
  set (tmp := decouple_tmp flag o t) in *.
  destruct (ceilZ_sbnd L H tmp Hb) as (c & -> & Hc & Hb').
  pose proof (sbnd_inter _ _ _ _ _ _ Hb Hb') as Hi.
  assert (Hs : sbnd 0 (t - Z.min H c) (t - Z.max L (c - 1)) (F32.sub (F32.of_int t) tmp)).
  { apply F32_sub_sbnd; [apply F32_of_int_sbnd; lia|exact Hi|lia|lia]. }
  destruct (ceilZ_sbnd _ _ _ Hs) as (a & -> & Ha & _).
  cbn [to_int16]. unfold in_int16b.
  replace ((-32768 <=? c) && (c <=? 32767)) with true
    by (symmetry; apply andb_true_intro; split; apply Z.leb_le; lia).
  replace ((-32768 <=? a) && (a <=? 32767)) with true
    by (symmetry; apply andb_true_intro; split; apply Z.leb_le; lia).
  eauto.
Qed.

(** The stores of a pixel are defined unless both samples are zero and
    the angle test fails. *)
Lemma decouple_one_defined flag o t :
  in_int16 o -> in_int16 t -> flag = true \/ o <> 0 \/ t <> 0 ->
  exists r a, decouple_one flag o t = Some (r, a).
Proof.
  intros Ho Ht Hc. destruct flag.
  - apply (decouple_one_sbnd true o t t t); unfold in_int16 in *; try lia; try assumption.
    cbn [decouple_tmp]. apply F32_of_int_sbnd. lia.
  - assert (Hne : o <> 0 \/ t <> 0) by (destruct Hc as [|]; [discriminate|assumption]).
    pose proof (decouple_tmp_range o t Ho Ht Hne) as Hb.
    eapply decouple_one_sbnd; [exact Ht|exact Hb| | | |]; unfold in_int16 in *;
      destruct (Z.ltb_spec t 0), (Z.ltb_spec o 0), (Z.ltb_spec 0 t), (Z.ltb_spec 0 o);
      cbn [andb]; lia.
Qed.

(** When the angle test holds the restored value is the distorted
    sample and the additive value is 0. *)
Lemma decouple_one_aligned o t : in_int16 t -> decouple_one true o t = Some (t, 0).
Proof.
  unfold in_int16. intros Ht.
  unfold decouple_one, decouple_r, decouple_a, decouple_tmp. cbv zeta.
  assert (Hb : sbnd 0 t t (F32.of_int t)) by (apply F32_of_int_sbnd; lia).
  destruct (ceilZ_sbnd t t _ Hb) as (c & -> & Hc & _).
  assert (Hs : sbnd 0 (t - t) (t - t) (F32.sub (F32.of_int t) (F32.of_int t)))
    by (apply F32_sub_sbnd; [exact Hb|exact Hb|lia|lia]).
  destruct (ceilZ_sbnd _ _ _ Hs) as (a & -> & Ha & _).
  assert (c = t) by lia. assert (a = 0) by lia. subst c a.
  cbn [to_int16]. unfold in_int16b.
  replace ((-32768 <=? t) && (t <=? 32767)) with true
    by (symmetry; apply andb_true_intro; split; apply Z.leb_le; lia).
  reflexivity.
Qed.

Lemma decouple_one_aligned_witness : decouple_one true 5 (-7) = Some (-7, 0).
Proof. apply decouple_one_aligned. unfold in_int16. lia. Defined.

(** C5. For [int16_t] samples [o] (reference) and [t] (distorted) of an
    orientation, the values [r] and [a] stored in the restored and in
    the additive band satisfy [0 <= r + a - t <= 1]: their sum is the
    distorted sample or one more.  The two stores are defined (their
    operand is not NaN and fits [int16_t]) unless the angle test fails
    at a pixel where both samples are 0. *)
Theorem decouple_sum flag o t :
  in_int16 o -> in_int16 t ->
  (forall r a, decouple_one flag o t = Some (r, a) -> 0 <= r + a - t <= 1) /\
  (flag = true \/ o <> 0 \/ t <> 0 -> exists r a, decouple_one flag o t = Some (r, a)).
Proof.
  intros Ho Ht. split.
  - intros r a. apply decouple_one_sum; assumption.
  - apply decouple_one_defined; assumption.
Qed.

Lemma decouple_sum_witness :
  in_int16 100 /\ in_int16 37 /\
  exists r a, decouple_one false 100 37 = Some (r, a) /\ 0 <= r + a - 37 <= 1.
Proof.
  assert (H1 : in_int16 100) by (unfold in_int16; lia).
  assert (H2 : in_int16 37) by (unfold in_int16; lia).
  destruct (decouple_sum false 100 37 H1 H2) as [Hs Hd].
  destruct Hd as (r & a & E); [right; left; lia|].
  split; [exact H1|]. split; [exact H2|].
  exists r, a. split; [exact E|apply Hs; exact E].
Defined.

(** ** No validation in [ff_adm_process] (C4) *)

(** C4, as stated, fails: a context of bit depth 12 and frames whose
    declared size (7x5) is not the configured 32x2 are not rejected; the
    computation runs and returns the score 0.75. *)
Lemma ff_adm_process_unchecked :
  option_map (fun r => score (snd r))
    (ff_adm_process (fresh_ctx 32 2 12)
       (mkFrame (repeat 128 64) 64 7 5) (mkFrame (repeat 128 64) 64 7 5))
  = Some (F64.div (F64.of_int 3) (F64.of_int 4)).
Proof. vm_compute. reflexivity. Qed.

Lemma for_from_commute {S : Type} (g : S -> S) body n :
  (forall i s, body i (g s) = g (body i s)) ->
  forall i s, for_from n i body (g s) = g (for_from n i body s).
Proof.
  intros H. induction n as [|n IH]; intros i s; cbn [for_from]; [reflexivity|].
  rewrite H. apply IH.
Qed.

Lemma forM_from_commute {S : Type} (g : S -> S) body n :
  (forall i s, body i (g s) = option_map g (body i s)) ->
  forall i s, forM_from n i body (g s) = option_map g (forM_from n i body s).
Proof.
  intros H. induction n as [|n IH]; intros i s; cbn [forM_from]; [reflexivity|].
  rewrite H. destruct (body i s); cbn [option_map]; [apply IH | reflexivity].
Qed.

Ltac commute_leaf :=
  unfold load, store, set_data_buf, set_temp_lo, set_temp_hi;
  cbn [width height depth data_buf temp_lo temp_hi set_depth];
  repeat match goal with |- context [let '(_, _) := ?p in _] => destruct p end;
  reflexivity.

Ltac commute :=
  cbv beta zeta;
  repeat (rewrite (for_from_commute (set_depth _)) by (intros; commute));
  first [ reflexivity | commute_leaf ].

Lemma adm_dwt2_set_depth d src dst sps ds s :
  (forall s idx, src (set_depth d s) idx = src s idx) ->
  adm_dwt2 src dst sps ds (set_depth d s) = set_depth d (adm_dwt2 src dst sps ds s).
Proof.
  intros Hsrc. unfold adm_dwt2, for_.
  change (width (set_depth d s)) with (width s).
  change (height (set_depth d s)) with (height s).
  apply for_from_commute. intros i s1. cbv beta zeta.
  rewrite (for_from_commute (set_depth d)).
  2:{ intros j s2. 
      replace (dwt_filter (height s) i (fun src_i => src (set_depth d s2) (src_i * sps + j)))
         with (dwt_filter (height s) i (fun src_i => src s2 (src_i * sps + j))).
      2:{ unfold dwt_filter, for_. simpl. rewrite !Hsrc. reflexivity. }
      commute_leaf. }
  rewrite (for_from_commute (set_depth d)) by (intros; commute_leaf).
  rewrite (for_from_commute (set_depth d)) by (intros; commute_leaf).
  reflexivity.
Qed.

Lemma adm_decouple_set_depth d ref main r a w h s1 s2 s3 s4 s :
  adm_decouple ref main r a w h s1 s2 s3 s4 (set_depth d s)
  = option_map (set_depth d) (adm_decouple ref main r a w h s1 s2 s3 s4 s).
Proof.
  unfold adm_decouple, forM. cbv zeta.
  apply forM_from_commute. intros i sa.
  apply forM_from_commute. intros j sb.
  unfold load. cbn [data_buf set_depth].
  repeat match goal with |- context [match ?x with Some _ => _ | None => _ end] => destruct x as [[? ?]|] end; reflexivity.
Qed.

Lemma adm_csf_set_depth d src dst oh sc w h s1 s2 s :
  adm_csf src dst oh sc w h s1 s2 (set_depth d s) = set_depth d (adm_csf src dst oh sc w h s1 s2 s).
Proof. unfold adm_csf, for_. commute. Qed.

Lemma adm_cm_thresh_set_depth d src dst w h s1 s2 s :
  adm_cm_thresh src dst w h s1 s2 (set_depth d s) = set_depth d (adm_cm_thresh src dst w h s1 s2 s).
Proof. unfold adm_cm_thresh, for_. commute. Qed.

Lemma adm_cm_set_depth d src dst t w h s1 s2 s3 s :
  adm_cm src dst t w h s1 s2 s3 (set_depth d s) = set_depth d (adm_cm src dst t w h s1 s2 s3 s).
Proof. unfold adm_cm, for_. commute. Qed.

Lemma adm_buffer_copy_set_depth d src dst lw h s1 s2 s :
  adm_buffer_copy src dst lw h s1 s2 (set_depth d s) = set_depth d (adm_buffer_copy src dst lw h s1 s2 s).
Proof. unfold adm_buffer_copy, for_. commute. Qed.

Lemma adm_sum_cube_set_depth d x w h st bf s :
  adm_sum_cube x w h st bf (set_depth d s) = adm_sum_cube x w h st bf s.
Proof. reflexivity. Qed.

Lemma adm_scale_set_depth d v ref main scale st :
  (d <=? 8) = (depth (ctx st) <=? 8) ->
  adm_scale v ref main scale
    (mkLoop (set_depth d (ctx st)) (cur_w st) (cur_h st) (acc_num st) (acc_den st) (acc_scores st))
  = option_map (fun st' => mkLoop (set_depth d (ctx st')) (cur_w st') (cur_h st')
                              (acc_num st') (acc_den st') (acc_scores st'))
      (adm_scale v ref main scale st).
Proof.
  intros Hd. unfold adm_scale. cbn [ctx cur_w cur_h acc_num acc_den acc_scores].
  change (depth (set_depth d (ctx st))) with d. rewrite Hd.
  unfold adm_dwt2_8bit, adm_dwt2_10bit, adm_dwt2_32bit.
  set (s1 := if scale =? 0 then _ else _).
  set (s2 := if scale =? 0 then _ else _).
  assert (E : s1 = set_depth d s2).
  { subst s1 s2. destruct (scale =? 0); [destruct (depth (ctx st) <=? 8)|];
      rewrite !adm_dwt2_set_depth by reflexivity; reflexivity. }
  rewrite E. clear E s1. rewrite adm_decouple_set_depth.
  destruct (adm_decouple _ _ _ _ _ _ _ _ _ _ s2) as [s3|]; cbn [option_map]; [|reflexivity].
  change (height (set_depth d s3)) with (height s3).
  rewrite !adm_csf_set_depth, adm_cm_thresh_set_depth, adm_cm_set_depth.
  rewrite !adm_sum_cube_set_depth, !adm_buffer_copy_set_depth.
  reflexivity.
Qed.


Lemma adm_scale_depth v ref main scale st st' :
  adm_scale v ref main scale st = Some st' -> depth (ctx st') = depth (ctx st).
Proof.
  intros H.
  pose proof (adm_scale_set_depth (depth (ctx st)) v ref main scale st eq_refl) as E.
  replace (mkLoop (set_depth (depth (ctx st)) (ctx st)) (cur_w st) (cur_h st)
             (acc_num st) (acc_den st) (acc_scores st)) with st in E
    by (destruct st as [[] ? ? ? ? ?]; reflexivity).
  rewrite H in E. cbn [option_map] in E. injection E as ->. reflexivity.
Qed.

Lemma forM_scale_set_depth d v ref main n :
  forall k st, (d <=? 8) = (depth (ctx st) <=? 8) ->
  forM_from n k (adm_scale v ref main) (lift_depth d st)
  = option_map (lift_depth d) (forM_from n k (adm_scale v ref main) st).
Proof.
  induction n as [|n IH]; intros k st Hd; cbn [forM_from]; [reflexivity|].
  unfold lift_depth at 1. rewrite adm_scale_set_depth by assumption.
  destruct (adm_scale v ref main k st) as [st'|] eqn:E; cbn [option_map]; [|reflexivity].
  apply IH. rewrite (adm_scale_depth _ _ _ _ _ _ E). assumption.
Qed.

(** C4 (amended). [ff_adm_process] validates nothing and has no error
    path: the declared width and height of the two frames are never
    read, and the bit depth is only compared with 8, so every depth
    above 8 is processed as 16-bit samples and every depth of at most 8
    as 8-bit samples, with the same outputs. *)
Theorem ff_adm_process_no_validation s ref main d fw fh fw' fh' :
  (d <=? 8) = (depth s <=? 8) ->
  option_map snd
    (ff_adm_process (set_depth d s)
       (mkFrame (data0 ref) (linesize0 ref) fw fh)
       (mkFrame (data0 main) (linesize0 main) fw' fh'))
  = option_map snd (ff_adm_process s ref main).
Proof.
  intros Hd.
  replace (ff_adm_process (set_depth d s) (mkFrame (data0 ref) (linesize0 ref) fw fh)
             (mkFrame (data0 main) (linesize0 main) fw' fh'))
    with (ff_adm_process (set_depth d s) ref main) by reflexivity.
  unfold ff_adm_process, forM.
  change (width (set_depth d s)) with (width s).
  change (height (set_depth d s)) with (height s).
  change (numden_limit (set_depth d s)) with (numden_limit s).
  set (st0 := mkLoop s _ _ _ _ _).
  change (mkLoop (set_depth d s) (width s) (height s) (F64.of_int 0) (F64.of_int 0) [])
    with (lift_depth d st0).
  rewrite forM_scale_set_depth by exact Hd.
  destruct (forM_from _ 0 _ st0) as [st|]; reflexivity.
Qed.

Lemma ff_adm_process_no_validation_witness :
  option_map snd
    (ff_adm_process (set_depth 12 (fresh_ctx 32 2 10))
       (mkFrame (data0 (flat_frame 32 2 128)) (linesize0 (flat_frame 32 2 128)) 7 5)
       (mkFrame (data0 (flat_frame 32 2 128)) (linesize0 (flat_frame 32 2 128)) 7 5))
  = option_map snd
      (ff_adm_process (fresh_ctx 32 2 10) (flat_frame 32 2 128) (flat_frame 32 2 128)).
Proof. apply ff_adm_process_no_validation. reflexivity. Defined.

(** ** Black frame pairs (C8) *)


Lemma for_from_inv {S : Type} (P : S -> Prop) body n :
  (forall i s, P s -> P (body i s)) -> forall i s, P s -> P (for_from n i body s).
Proof.
  intros H. induction n as [|n IH]; intros i s Hs; cbn [for_from]; [assumption|].
  apply IH, H, Hs.
Qed.

















Lemma icbrt_fold_range n l k :
  Forall (fun b => 0 <= b) l ->
  k <= fold_left (fun k b => if (k + b) ^ 3 <=? n then k + b else k) l k
    <= k + fold_right Z.add 0 l.
Proof.
  intros H. revert k. induction H as [|b l Hb _ IH]; intros k; cbn [fold_left fold_right].
  - lia.
  - destruct ((k + b) ^ 3 <=? n); [specialize (IH (k + b))|specialize (IH k)]; lia.
Qed.

Lemma icbrt_range n : 0 <= icbrt n <= 2047.
Proof.
  unfold icbrt.
  pose proof (icbrt_fold_range n [1024; 512; 256; 128; 64; 32; 16; 8; 4; 2; 1] 0) as H.
  cbn [fold_right] in H. apply H. repeat constructor; lia.
Qed.

Lemma ceil_cbrt_range n : -2048 <= ceil_cbrt n <= 2048.
Proof.
  unfold ceil_cbrt. pose proof (icbrt_range n). pose proof (icbrt_range (- n)).
  destruct (n <? 0); [lia|]. cbv zeta. destruct (icbrt n ^ 3 =? n); lia.
Qed.



Lemma ceil_cbrt_div32_range a : -2048 <= ceil_cbrt_div32 a <= 2048.
Proof. apply ceil_cbrt_range. Qed.







(** ** Energy pooling (C3, C9) *)

(** *** The border *)

Lemma cond_Zopp_quot s m d :
  0 < d -> cond_Zopp s (Z.pos m / d) = cond_Zopp s (Z.pos m) `quot` d.
Proof.
  intros Hd. destruct s; cbn [cond_Zopp].
  - rewrite Z.quot_opp_l by lia. rewrite Z.quot_div_nonneg by lia. reflexivity.
  - rewrite Z.quot_div_nonneg by lia. reflexivity.
Qed.

(** Truncation of a bounded number. *)
Lemma truncZ_sbnd q L H x :
  0 <= q -> sbnd q L H x ->
  exists c, truncZ x = Some c /\ L `quot` 2 ^ q <= c <= H `quot` 2 ^ q.
Proof.
  intros Hq. assert (Pq : 0 < 2 ^ q) by (apply Z.pow_pos_nonneg; lia).
  destruct x as [s|s| |s m e]; cbn [sbnd]; try tauto.
  - intros HL. exists 0. split; [reflexivity|].
    split; [apply Z.quot_le_upper_bound|apply Z.quot_le_lower_bound]; lia.
  - intros (He & Lo & Hi). cbn [truncZ].
    assert (P : 0 < 2 ^ (- q - e)) by (apply Z.pow_pos_nonneg; lia).
    destruct (Z.leb_spec 0 e) as [He0|He0].
    + assert (e = 0) by lia. assert (q = 0) by lia. subst e q.
      change (2 ^ (- 0 - 0)) with 1 in *. change (2 ^ 0) with 1.
      eexists. split; [reflexivity|]. rewrite !Z.quot_1_r, Z.mul_1_r. lia.
    + assert (E : 2 ^ (- e) = 2 ^ q * 2 ^ (- q - e)).
      { rewrite <- Z.pow_add_r by lia. f_equal. lia. }
      eexists. split; [reflexivity|].
      rewrite cond_Zopp_quot by (apply Z.pow_pos_nonneg; lia).
      rewrite E.
      rewrite <- (Z.quot_mul_cancel_r L (2 ^ q) (2 ^ (- q - e))) by lia.
      rewrite <- (Z.quot_mul_cancel_r H (2 ^ q) (2 ^ (- q - e))) by lia.
      split; apply Z.quot_le_mono; nia.
Qed.

(** The product of two finite numbers, bounded through its exact
    value. *)
Lemma SFmul_bnd prec emax q sx mx ex sy my ey A B :
  0 < prec -> prec < emax -> 0 <= q -> q <= emax + prec - 3 ->
  0 <= A <= B -> B < 2 ^ prec ->
  bnd q A B (Z.pos mx * Z.pos my) (ex + ey) ->
  SFbnd q (xorb sx sy) A B
    (SFmul prec emax (S754_finite sx mx ex) (S754_finite sy my ey)).
Proof.
  intros Hprec Hemax Hq Hqmax HAB HB Hb. cbn [SFmul].
  apply binary_round_aux_bnd; try assumption; try lia.
  all: rewrite Pos2Z.inj_mul; exact Hb.
Qed.

(** The border of the pooling region: [n / 10] rounded to nearest,
    ties toward zero. *)
Lemma border_closed n :
  0 <= n < 2 ^ 31 -> border n ADM_BORDER_FACTOR = (n - 5) `quot` 10.
Proof.
  intros Hn. change (2 ^ 31) with 2147483648 in Hn.
  destruct (Z.eq_dec n 0) as [->|Hn0]; [vm_compute; reflexivity|].
  unfold border.
  assert (Hx : sbnd 4 (n * 2 ^ 4) (n * 2 ^ 4) (F64.of_int n)).
  { apply (of_Z_sbnd F64.prec F64.emax 4); unfold F64.prec, F64.emax; try lia.
    all: change (2 ^ 4) with 16; change (2 ^ 53) with 9007199254740992; lia. }
  change (2 ^ 4) with 16 in Hx.
  destruct (F64.of_int n) as [sx|sx| |sx mx ex]; cbn [sbnd] in Hx; try tauto; [lia|].
  destruct Hx as (Hex & Lx & Ux).
  assert (P : 0 < 2 ^ (- 4 - ex)) by (apply Z.pow_pos_nonneg; lia).
  destruct sx; cbn [cond_Zopp] in Lx, Ux; [nia|].
  change (- (4)) with (-4) in *.
  assert (Emx : Z.pos mx = n * 16 * 2 ^ (- 4 - ex)) by lia. clear Lx Ux.
  set (A := (8 * n) / 5).
  assert (HA : 5 * A <= 8 * n <= 5 * A + 4) by (subst A; Z.to_euclidean_division_equations; lia).
  assert (Hm : sbnd 4 A (A + 1)
                 (F64.mul (S754_finite false mx ex) ADM_BORDER_FACTOR)).
  { apply (SFbnd_sbnd 4 false A (A + 1)); [|lia|lia].
    apply (SFmul_bnd F64.prec F64.emax 4 false mx ex false 7205759403792794 (-56));
      unfold F64.prec, F64.emax; try lia.
    all: try (change (2 ^ 53) with 9007199254740992; lia).
    all: split; [lia|]; rewrite Emx; change (- (4)) with (-4);
      replace (- 4 - (ex + -56)) with (56 + (- 4 - ex)) by lia;
      rewrite Z.pow_add_r by lia; change (2 ^ 56) with 72057594037927936;
      nia. }
  assert (Hh : sbnd 4 8 8 d_half).
  { unfold d_half. cbn [sbnd cond_Zopp]. change (2 ^ (- (4) - -53)) with 562949953421312. lia. }
  assert (Hs : sbnd 4 (A - 8) (A + 1 - 8)
                 (F64.sub (F64.mul (S754_finite false mx ex) ADM_BORDER_FACTOR) d_half)).
  { apply (SFsub_sbnd F64.prec F64.emax 4); unfold F64.prec, F64.emax; try lia;
      try assumption.
    all: change (2 ^ 53) with 9007199254740992; lia. }
  destruct (truncZ_sbnd 4 _ _ _ ltac:(lia) Hs) as (c & -> & Hc).
  change (2 ^ 4) with 16 in Hc.
  assert (Ec : c = (n - 5) `quot` 10).
  { clear Hm Hs Emx Hh. subst A. Z.to_euclidean_division_equations. lia. }
  cbn [to_int32].
  replace ((- 2 ^ 31 <=? c) && (c <? 2 ^ 31)) with true; [rewrite Ec; reflexivity|].
  symmetry. apply andb_true_intro. change (2 ^ 31) with 2147483648.
  assert (0 <= c <= n).
  { rewrite Ec. clear - Hn. Z.to_euclidean_division_equations. lia. }
  split; [apply Z.leb_le|apply Z.ltb_lt]; lia.
Qed.

Lemma border_closed_witness : border 1920 ADM_BORDER_FACTOR = (1920 - 5) `quot` 10.
Proof. apply border_closed. change (2 ^ 31) with 2147483648. lia. Defined.

(** *** Cube roots *)


Lemma icbrt_fold_spec n l : forall k B,
  halving B l -> 0 <= k -> k ^ 3 <= n < (k + B) ^ 3 ->
  let r := fold_left (fun k b => if (k + b) ^ 3 <=? n then k + b else k) l k in
  0 <= r /\ r ^ 3 <= n < (r + 1) ^ 3.
Proof.
  induction l as [|b l IH]; intros k B HB Hk Hn; cbn [fold_left halving] in *.
  - subst B. auto.
  - destruct HB as (Hb & -> & HB). apply (IH _ b HB).
    + destruct (_ <=? _); lia.
    + destruct (Z.leb_spec ((k + b) ^ 3) n).
      * replace (k + b + b) with (k + 2 * b) by lia. lia.
      * lia.
Qed.

Lemma icbrt_spec n :
  0 <= n < 2 ^ 33 -> 0 <= icbrt n /\ icbrt n ^ 3 <= n < (icbrt n + 1) ^ 3.
Proof.
  intros Hn. unfold icbrt. apply (icbrt_fold_spec n _ 0 2048).
  - cbn. repeat split; lia.
  - lia.
  - change ((0 + 2048) ^ 3) with (2 ^ 33). change (0 ^ 3) with 0. lia.
Qed.

(** [ceil_cbrt n] is the least integer whose cube is at least [n]. *)
Lemma ceil_cbrt_spec n :
  0 <= n < 2 ^ 33 ->
  0 <= ceil_cbrt n /\ (ceil_cbrt n - 1) ^ 3 < n <= ceil_cbrt n ^ 3 \/ n = 0 /\ ceil_cbrt n = 0.
Proof.
  intros Hn. destruct (icbrt_spec n Hn) as (H0 & H1 & H2). unfold ceil_cbrt.
  destruct (Z.ltb_spec n 0); [lia|]. cbv zeta.
  destruct (Z.eqb_spec (icbrt n ^ 3) n) as [E|E].
  - destruct (Z.eq_dec n 0) as [->|Hne].
    + right. split; [reflexivity|]. destruct (Z.eq_dec (icbrt 0) 0); [assumption|].
      assert (1 <= icbrt 0) by lia.
      assert (1 ^ 3 <= icbrt 0 ^ 3) by (apply Z.pow_le_mono_l; lia). lia.
    + left. split; [assumption|]. split; [|lia].
      assert (1 <= icbrt n).
      { destruct (Z.eq_dec (icbrt n) 0) as [Z0|]; [|lia]. rewrite Z0 in E. cbn in E. lia. }
      assert ((icbrt n - 1) ^ 3 < icbrt n ^ 3); [|lia].
      apply Z.pow_lt_mono_l; lia.
  - left. split; [lia|]. replace (icbrt n + 1 - 1) with (icbrt n) by lia. lia.
Qed.

Lemma ceil_cbrt_mono n m :
  0 <= n <= m -> m < 2 ^ 33 -> ceil_cbrt n <= ceil_cbrt m.
Proof.
  intros Hnm Hm.
  destruct (ceil_cbrt_spec n ltac:(lia)) as [(N0 & N1 & N2)|(-> & ->)];
    destruct (ceil_cbrt_spec m ltac:(lia)) as [(M0 & M1 & M2)|(-> & ->)]; try lia.
  destruct (Z.le_gt_cases (ceil_cbrt n) (ceil_cbrt m)) as [|Hgt]; [assumption|].
  assert (ceil_cbrt m ^ 3 <= (ceil_cbrt n - 1) ^ 3) by (apply Z.pow_le_mono_l; lia).
  lia.
Qed.

(** *** The accumulation loops *)

Lemma for_from_ext {S : Type} (f g : Z -> S -> S) n : forall i a,
  (forall k b, i <= k < i + Z.of_nat n -> f k b = g k b) ->
  for_from n i f a = for_from n i g a.
Proof.
  induction n as [|n IH]; intros i a H; cbn [for_from]; [reflexivity|].
  rewrite (H i a) by lia. apply IH. intros k b Hk. apply H. lia.
Qed.

Lemma for_ext {S : Type} (f g : Z -> S -> S) lo hi a :
  (forall k b, lo <= k < hi -> f k b = g k b) -> for_ lo hi f a = for_ lo hi g a.
Proof. intros H. apply for_from_ext. intros k b Hk. apply H. lia. Qed.

(** A loop that only adds to a non-negative [int] accumulator and whose
    exact total fits in [int] never wraps. *)
Lemma for_from_nowrap (fw fu : Z -> Z -> Z) n : forall i a,
  (forall k b, i <= k < i + Z.of_nat n -> 0 <= b -> b <= fu k b) ->
  (forall k b, i <= k < i + Z.of_nat n -> 0 <= b -> fu k b < 2 ^ 31 -> fw k b = fu k b) ->
  0 <= a ->
  a <= for_from n i fu a /\
  (for_from n i fu a < 2 ^ 31 -> for_from n i fw a = for_from n i fu a).
Proof.
  induction n as [|n IH]; intros i a Hm Ha H0; cbn [for_from]; [split; [lia|reflexivity]|].
  pose proof (Hm i a ltac:(lia) H0) as H1.
  destruct (IH (i + 1) (fu i a)) as [I1 I2].
  - intros k b Hk. apply Hm. lia.
  - intros k b Hk. apply Ha. lia.
  - lia.
  - split; [lia|]. intros Hlt. rewrite (Ha i a) by lia. apply I2, Hlt.
Qed.

Lemma for_from_le (f g : Z -> Z -> Z) n : forall i a b,
  (forall k a b, i <= k < i + Z.of_nat n -> a <= b -> f k a <= g k b) ->
  a <= b -> for_from n i f a <= for_from n i g b.
Proof.
  induction n as [|n IH]; intros i a b H Hab; cbn [for_from]; [assumption|].
  apply IH; [intros; apply H; lia|apply H; lia].
Qed.

Lemma get_cube_small v :
  Z.abs v ^ 3 < 2 ^ 31 -> get_cube (FFABS v) = Z.abs v ^ 3.
Proof.
  intros H.
  assert (Hv : Z.abs v <= 1290).
  { destruct (Z.le_gt_cases (Z.abs v) 1290) as [|Hgt]; [assumption|].
    assert (1291 ^ 3 <= Z.abs v ^ 3) by (apply Z.pow_le_mono_l; lia).
    change (1291 ^ 3) with 2151685171 in *. change (2 ^ 31) with 2147483648 in *. lia. }
  pose proof (Z.abs_nonneg v) as Hn.
  unfold get_cube. rewrite FFABS_abs by lia. cbv zeta.
  rewrite wrap16_small by lia.
  assert (Hsq : 0 <= Z.abs v * Z.abs v <= 1290 * 1290) by nia.
  rewrite (wrap32_small (Z.abs v * Z.abs v)) by lia.
  replace (Z.abs v ^ 3) with (Z.abs v * Z.abs v * Z.abs v) in * by ring.
  apply wrap32_small. change (2 ^ 31) with 2147483648 in *. nia.
Qed.

Lemma sum_cube_loop_nowrap x ps top bottom left right s :
  sum_abs_cube x ps top bottom left right s < 2 ^ 31 ->
  0 <= sum_abs_cube x ps top bottom left right s /\
  sum_cube_loop x ps top bottom left right s = sum_abs_cube x ps top bottom left right s.
Proof.
  unfold sum_cube_loop, sum_abs_cube, for_.
  set (inner_u := fun (i : Z) (sum : Z) => for_from _ left _ sum).
  set (inner_w := fun (i : Z) (sum : Z) => for_from _ left _ sum).
  assert (Hin : forall i a, 0 <= a ->
            a <= inner_u i a /\ (inner_u i a < 2 ^ 31 -> inner_w i a = inner_u i a)).
  { intros i a Ha. subst inner_u inner_w. cbv beta. apply for_from_nowrap; cbv beta.
    - intros k b _ Hb. pose proof (Z.abs_nonneg (load s x (i * ps + k))).
      assert (0 <= Z.abs (load s x (i * ps + k)) ^ 3) by (apply Z.pow_nonneg; lia).
      lia.
    - intros k b _ Hb Hlt. cbv beta in Hlt. pose proof (Z.abs_nonneg (load s x (i * ps + k))).
      assert (0 <= Z.abs (load s x (i * ps + k)) ^ 3) by (apply Z.pow_nonneg; lia).
      rewrite get_cube_small by lia. apply wrap32_small.
      change (2 ^ 31) with 2147483648 in *. lia.
    - assumption. }
  intros H.
  destruct (for_from_nowrap inner_w inner_u (Z.to_nat (bottom - top)) top 0) as [I1 I2].
  - intros k b _ Hb. apply Hin, Hb.
  - intros k b _ Hb. apply Hin, Hb.
  - lia.
  - split; [exact I1|apply I2, H].
Qed.




Lemma sum_abs_cube_le x ps top bottom left right s1 s2 :
  (forall i j, top <= i < bottom -> left <= j < right ->
     Z.abs (load s1 x (i * ps + j)) <= Z.abs (load s2 x (i * ps + j))) ->
  sum_abs_cube x ps top bottom left right s1 <= sum_abs_cube x ps top bottom left right s2.
Proof.
  intros H. unfold sum_abs_cube, for_. apply for_from_le; [|lia].
  intros i a b Hi Hab. apply for_from_le; [|assumption].
  intros j a' b' Hj Hab'.
  assert (Z.abs (load s1 x (i * ps + j)) ^ 3 <= Z.abs (load s2 x (i * ps + j)) ^ 3).
  { apply Z.pow_le_mono_l. split; [apply Z.abs_nonneg|apply H; lia]. }
  lia.
Qed.

(** The pooled value fits the return type [int16_t]. *)
Lemma adm_sum_cube_int16 x w h stride bf s : in_int16 (adm_sum_cube x w h stride bf s).
Proof.
  unfold adm_sum_cube, in_int16. cbv zeta.
  match goal with |- _ <= ceil_cbrt ?a + ceil_cbrt_div32 ?b <= _ =>
    pose proof (ceil_cbrt_range a); pose proof (ceil_cbrt_div32_range b) end.
  lia.
Qed.

Lemma border_range n : 0 <= n -> 0 <= 2 * ((n - 5) `quot` 10) <= n.
Proof. intros Hn. Z.to_euclidean_division_equations. lia. Qed.




(** Without overflow the pooling is monotone: when every magnitude
    of the region grows (or stays) and the sum of cubes of the larger
    band fits in [int], the result does not decrease. *)
Theorem adm_sum_cube_monotone x w h stride s1 s2 :
  (forall i j,
      border h ADM_BORDER_FACTOR <= i < h - border h ADM_BORDER_FACTOR ->
      border w ADM_BORDER_FACTOR <= j < w - border w ADM_BORDER_FACTOR ->
      Z.abs (load s1 x (i * (stride / 2) + j)) <= Z.abs (load s2 x (i * (stride / 2) + j))) ->
  interior_sum x w h stride s2 < 2 ^ 31 ->
  adm_sum_cube x w h stride ADM_BORDER_FACTOR s1
  <= adm_sum_cube x w h stride ADM_BORDER_FACTOR s2.
Proof.
  intros Hle H2. unfold interior_sum in *.
  pose proof (sum_abs_cube_le _ _ _ _ _ _ _ _ Hle) as Hs.
  destruct (sum_cube_loop_nowrap _ _ _ _ _ _ _ H2) as [P2 E2].
  destruct (sum_cube_loop_nowrap x (stride / 2) (border h ADM_BORDER_FACTOR)
              (h - border h ADM_BORDER_FACTOR) (border w ADM_BORDER_FACTOR)
              (w - border w ADM_BORDER_FACTOR) s1 ltac:(lia)) as [P1 E1].
  unfold adm_sum_cube. cbv zeta. rewrite E1, E2.
  apply Z.add_le_mono_r. apply ceil_cbrt_mono; [lia|].
  change (2 ^ 33) with 8589934592. change (2 ^ 31) with 2147483648 in *. lia.
Qed.

Lemma adm_sum_cube_monotone_witness :
  adm_sum_cube 0 2 2 4 ADM_BORDER_FACTOR (const_band 0 2 2 4 100 (fresh_ctx 4 4 8))
  <= adm_sum_cube 0 2 2 4 ADM_BORDER_FACTOR (const_band 0 2 2 4 (2 * 100) (fresh_ctx 4 4 8)).
Proof.
  apply adm_sum_cube_monotone.
  - intros i j Hi Hj. change (border 2 ADM_BORDER_FACTOR) with 0 in Hi, Hj.
    assert (Ei : i = 0 \/ i = 1) by lia. assert (Ej : j = 0 \/ j = 1) by lia.
    destruct Ei as [->| ->], Ej as [->| ->]; vm_compute; discriminate.
  - vm_compute. reflexivity.
Defined.


(** ** The allocations and the views *)

Lemma ALIGN_CEIL_bounds x :
  0 <= x -> x <= ALIGN_CEIL x < x + 32 /\ ALIGN_CEIL x mod 32 = 0.
Proof.
  intros Hx. unfold ALIGN_CEIL, MAX_ALIGN.
  rewrite Z.rem_mod_nonneg by lia.
  pose proof (Z.mod_pos_bound x 32 ltac:(lia)) as Hm.
  pose proof (Z.div_mod x 32 ltac:(lia)) as Hd.
  destruct (Z.eqb_spec (x mod 32) 0) as [E|E]; cbn [negb].
  - rewrite Z.add_0_r. split; [lia|assumption].
  - split; [lia|].
    replace (x + (32 - x mod 32)) with ((x / 32 + 1) * 32) by lia.
    apply Z.mod_mul. lia.
Qed.

(** [ALIGN_CEIL(x)] is the least multiple of 32 that is at least [x]. *)
Theorem ALIGN_CEIL_least x :
  0 <= x ->
  x <= ALIGN_CEIL x /\ ALIGN_CEIL x mod 32 = 0 /\
  forall y, x <= y -> y mod 32 = 0 -> ALIGN_CEIL x <= y.
Proof.
  intros Hx. destruct (ALIGN_CEIL_bounds x Hx) as [[H1 H2] H3].
  split; [exact H1|]. split; [exact H3|].
  intros y Hy Hy0.
  apply Z.mod_divide in H3; [|lia]. apply Z.mod_divide in Hy0; [|lia].
  destruct H3 as [a Ha], Hy0 as [b Hb]. lia.
Qed.

Lemma ALIGN_CEIL_least_witness :
  33 <= ALIGN_CEIL 33 /\ ALIGN_CEIL 33 mod 32 = 0 /\
  forall y, 33 <= y -> y mod 32 = 0 -> ALIGN_CEIL 33 <= y.
Proof. apply ALIGN_CEIL_least. lia. Defined.

(** The views are 35 consecutive buffers of [buf_sz] bytes, the whole of
    the allocation of [ff_adm_init]. *)
Lemma view_ptrs_consecutive w h :
  view_ptrs (adm_layout w h)
  = map (fun k => k * (buf_stride (adm_layout w h) * ((h + 1) `quot` 2)))
        [0; 1; 2; 3; 4; 5; 6; 7; 8; 9; 10; 11; 12; 13; 14; 15; 16; 17; 18; 19; 20; 21; 22;
         23; 24; 25; 26; 27; 28; 29; 30; 31; 32; 33; 34] /\
  data_buf_sz (ff_adm_init_alloc w h)
  = 35 * (buf_stride (adm_layout w h) * ((h + 1) `quot` 2)).
Proof.
  unfold adm_layout, init_dwt_band, view_ptrs, band_ptrs, ff_adm_init_alloc.
  cbv zeta. cbn [buf_stride ref_scale main_scale ref_dwt2 main_dwt2 decouple_r_ decouple_a_
                 csf_o csf_r csf_a mta cm_r band_a band_h band_v band_d app map data_buf_sz].
  set (B := ALIGN_CEIL _ * _). split; [|lia].
  repeat (apply (f_equal2 cons); [lia|]). reflexivity.
Qed.

Lemma buf_stride_facts w :
  0 <= w ->
  exists ps, buf_stride (adm_layout w 0) = 2 * ps /\ (w + 1) `quot` 2 <= ps /\ w <= 2 * ps.
Proof.
  intros Hw.
  assert (E : buf_stride (adm_layout w 0) = ALIGN_CEIL ((w + 1) `quot` 2 * 2)) by reflexivity.
  rewrite E. clear E.
  assert (Hq : 0 <= (w + 1) `quot` 2 /\ w <= 2 * ((w + 1) `quot` 2))
    by (Z.to_euclidean_division_equations; lia).
  destruct (ALIGN_CEIL_bounds ((w + 1) `quot` 2 * 2) ltac:(lia)) as [[H1 _] H3].
  apply Z.mod_divide in H3; [|lia]. destruct H3 as [a Ha].
  exists (16 * a). lia.
Qed.

Lemma buf_stride_indep w h : buf_stride (adm_layout w h) = buf_stride (adm_layout w 0).
Proof. reflexivity. Qed.

(** Every access [p[i * px_stride + j]] to a view [p], for [i] and [j]
    within the halved dimensions, falls inside the buffer of that view,
    and the buffer inside the allocation [data_buf]. *)
Theorem view_access_in_bounds w h p i j :
  0 <= w -> 0 <= h -> In p (view_ptrs (adm_layout w h)) ->
  0 <= i < (h + 1) `quot` 2 -> 0 <= j < (w + 1) `quot` 2 ->
  exists k,
    0 <= k < 35 /\
    p = k * (buf_stride (adm_layout w h) * ((h + 1) `quot` 2)) /\
    p <= 2 * cell p (i * (buf_stride (adm_layout w h) / 2) + j) /\
    2 * cell p (i * (buf_stride (adm_layout w h) / 2) + j) + 2
      <= p + buf_stride (adm_layout w h) * ((h + 1) `quot` 2) /\
    p + buf_stride (adm_layout w h) * ((h + 1) `quot` 2)
      <= data_buf_sz (ff_adm_init_alloc w h).
Proof.
  intros Hw Hh Hp Hi Hj.
  destruct (view_ptrs_consecutive w h) as [E1 E2]. rewrite E1 in Hp. rewrite E2.
  rewrite buf_stride_indep in *.
  destruct (buf_stride_facts w Hw) as (ps & Eps & Hps & _). rewrite Eps in *.
  set (H2 := (h + 1) `quot` 2) in *.
  replace (2 * ps / 2) with ps by (apply Z.div_unique_exact; lia).
  assert (Hk : exists k, 0 <= k < 35 /\ p = k * (2 * ps * H2)).
  { cbn [map] in Hp. cbn [In] in Hp.
    repeat (destruct Hp as [Hp|Hp];
            [match type of Hp with ?k * _ = _ => exists k end; split; [lia|symmetry; exact Hp]|]).
    contradiction. }
  destruct Hk as (k & Hk & ->). exists k. split; [exact Hk|]. split; [reflexivity|].
  unfold cell.
  replace (k * (2 * ps * H2) / 2) with (k * (ps * H2))
    by (apply Z.div_unique_exact; lia).
  assert (0 <= i * ps + j < ps * H2) by nia.
  nia.
Qed.

Lemma view_access_in_bounds_witness :
  exists k,
    0 <= k < 35 /\
    mta (adm_layout 1920 1080) = k * (buf_stride (adm_layout 1920 1080) * ((1080 + 1) `quot` 2)) /\
    mta (adm_layout 1920 1080)
      <= 2 * cell (mta (adm_layout 1920 1080))
               (539 * (buf_stride (adm_layout 1920 1080) / 2) + 959) /\
    2 * cell (mta (adm_layout 1920 1080))
          (539 * (buf_stride (adm_layout 1920 1080) / 2) + 959) + 2
      <= mta (adm_layout 1920 1080)
         + buf_stride (adm_layout 1920 1080) * ((1080 + 1) `quot` 2) /\
    mta (adm_layout 1920 1080) + buf_stride (adm_layout 1920 1080) * ((1080 + 1) `quot` 2)
      <= data_buf_sz (ff_adm_init_alloc 1920 1080).
Proof.
  apply view_access_in_bounds.
  - lia.
  - lia.
  - unfold view_ptrs, band_ptrs. cbn [app In]. do 30 right. left. reflexivity.
  - vm_compute. split; [discriminate|reflexivity].
  - vm_compute. split; [discriminate|reflexivity].
Defined.



(** At scales 1 to 3 the transform of [ref_scale] reads its own output:
    for an even height of 4 or more, the last output row (not the
    first) reads source row [h - 1] (tap 2), and the columns of that
    row from the stride on are cells of row 0 of [band_a] of
    [ref_dwt2], which the same call has written at output row 0. *)
Theorem dwt2_32bit_reads_own_output w h c :
  0 <= w -> 4 <= h < 2 ^ 30 -> h mod 2 = 0 ->
  buf_stride (adm_layout w h) / 2 <= c < w ->
  mirror h (2 * ((h + 1) `quot` 2 - 1) - 1 + 2) = h - 1 /\
  cell (ref_scale (adm_layout w h))
       (mirror h (2 * ((h + 1) `quot` 2 - 1) - 1 + 2) * (buf_stride (adm_layout w h) / 2) + c)
  = cell (band_a (ref_dwt2 (adm_layout w h)))
         (0 * (buf_stride (adm_layout w h) / 2) + (c - buf_stride (adm_layout w h) / 2)) /\
  0 <= c - buf_stride (adm_layout w h) / 2 < (w + 1) `quot` 2 /\
  0 < (h + 1) `quot` 2 - 1.
Proof.
  intros Hw Hh Hev Hc.
  assert (Hm : mirror h (2 * ((h + 1) `quot` 2 - 1) - 1 + 2) = h - 1).
  { assert (E : 2 * ((h + 1) `quot` 2 - 1) - 1 + 2 = h - 1)
      by (Z.to_euclidean_division_equations; lia).
    rewrite E. unfold mirror. rewrite FFABS_abs by lia.
    destruct (Z.geb_spec (Z.abs (h - 1)) h); lia. }
  rewrite Hm. split; [reflexivity|].
  assert (Ea : band_a (ref_dwt2 (adm_layout w h))
               = 2 * (buf_stride (adm_layout w h) * ((h + 1) `quot` 2))).
  { unfold adm_layout, init_dwt_band. cbv zeta. cbn [ref_dwt2 band_a buf_stride]. lia. }
  assert (Er : ref_scale (adm_layout w h) = 0) by reflexivity.
  rewrite Ea, Er. clear Ea Er.
  rewrite buf_stride_indep in *.
  destruct (buf_stride_facts w Hw) as (ps & Eps & Hps & _). rewrite Eps in *.
  replace (2 * ps / 2) with ps in * by (apply Z.div_unique_exact; lia).
  assert (Hq : 2 * ((h + 1) `quot` 2) = h /\ w <= 2 * ((w + 1) `quot` 2))
    by (Z.to_euclidean_division_equations; lia).
  destruct Hq as [Hq Hq'].
  split; [|lia].
  unfold cell. change (0 / 2) with 0.
  replace (2 * (2 * ps * ((h + 1) `quot` 2)) / 2) with (2 * ps * ((h + 1) `quot` 2))
    by (apply Z.div_unique_exact; lia).
  nia.
Qed.

Lemma dwt2_32bit_reads_own_output_witness :
  mirror 1080 (2 * ((1080 + 1) `quot` 2 - 1) - 1 + 2) = 1080 - 1 /\
  cell (ref_scale (adm_layout 1920 1080))
       (mirror 1080 (2 * ((1080 + 1) `quot` 2 - 1) - 1 + 2)
        * (buf_stride (adm_layout 1920 1080) / 2) + 1000)
  = cell (band_a (ref_dwt2 (adm_layout 1920 1080)))
         (0 * (buf_stride (adm_layout 1920 1080) / 2)
          + (1000 - buf_stride (adm_layout 1920 1080) / 2)) /\
  0 <= 1000 - buf_stride (adm_layout 1920 1080) / 2 < (1920 + 1) `quot` 2 /\
  0 < (1080 + 1) `quot` 2 - 1.
Proof.
  apply dwt2_32bit_reads_own_output.
  - lia.
  - change (2 ^ 30) with 1073741824. lia.
  - reflexivity.
  - vm_compute. split; [discriminate|reflexivity].
Defined.

Lemma pairwise_map_impl {A B : Type} (R : A -> A -> Prop) (R' : B -> B -> Prop) (g : A -> B) l :
  (forall x y, R x y -> R' (g x) (g y)) -> pairwise R l -> pairwise R' (map g l).
Proof.
  intros HR. induction l as [|x l IH]; cbn [pairwise map]; [tauto|].
  intros [Hx Hl]. split; [|apply IH, Hl].
  rewrite List.Forall_forall in *. intros y Hy.
  apply in_map_iff in Hy as (z & <- & Hz). apply HR, Hx, Hz.
Qed.

(** The 35 views of the arena do not overlap: any two of them, taken
    with up to [(h + 1) / 2] rows of the common stride, occupy disjoint
    ranges of cells. *)
Theorem adm_layout_apart W H h :
  0 <= W -> 0 <= H -> h <= (H + 1) `quot` 2 ->
  pairwise (apart h)
    (map (fun p => (p, buf_stride (adm_layout W H) / 2)) (view_ptrs (adm_layout W H))).
Proof.
  intros HW HH Hh.
  destruct (view_ptrs_consecutive W H) as [E _]. rewrite E. clear E.
  rewrite buf_stride_indep.
  destruct (buf_stride_facts W HW) as (ps & Eps & Hps & _). rewrite Eps.
  replace (2 * ps / 2) with ps by (apply Z.div_unique_exact; lia).
  assert (HH2 : 0 <= (H + 1) `quot` 2) by (Z.to_euclidean_division_equations; lia).
  assert (Hps0 : 0 <= ps) by (Z.to_euclidean_division_equations; lia).
  set (H2 := (H + 1) `quot` 2) in *.
  rewrite map_map.
  apply (pairwise_map_impl Z.lt).
  - intros k k' Hk. unfold apart. cbn [fst snd]. left.
    replace (k * (2 * ps * H2) / 2) with (k * (ps * H2)) by (apply Z.div_unique_exact; lia).
    replace (k' * (2 * ps * H2) / 2) with (k' * (ps * H2)) by (apply Z.div_unique_exact; lia).
    assert (A1 : h * ps <= H2 * ps) by (apply Z.mul_le_mono_nonneg_r; lia).
    assert (A2 : 0 <= ps * H2) by (apply Z.mul_nonneg_nonneg; lia).
    assert (A3 : (k + 1) * (ps * H2) <= k' * (ps * H2))
      by (apply Z.mul_le_mono_nonneg_r; lia).
    rewrite (Z.mul_comm H2 ps) in A1. lia.
  - cbn [pairwise].
    repeat match goal with
           | |- _ /\ _ => split
           | |- Forall _ (_ :: _) => apply List.Forall_cons; [lia|]
           | |- Forall _ [] => apply List.Forall_nil
           | |- True => exact I
           end.
Qed.

Lemma adm_layout_apart_witness :
  pairwise (apart 540)
    (map (fun p => (p, buf_stride (adm_layout 1920 1080) / 2))
         (view_ptrs (adm_layout 1920 1080))).
Proof. apply adm_layout_apart; [lia|lia|]. vm_compute. discriminate. Defined.

(** ** Stores, planes and loops *)

Lemma rd_wr_eq m a v : rd (wr m a v) a = v.
Proof. unfold rd, wr. rewrite lookup_insert_eq. reflexivity. Qed.

Lemma rd_wr_ne m a a' v : a <> a' -> rd (wr m a v) a' = rd m a'.
Proof. intros H. unfold rd, wr. rewrite lookup_insert_ne by assumption. reflexivity. Qed.

Lemma rd_store_eq s p idx v : rd (data_buf (store s p idx v)) (cell p idx) = wrap16 v.
Proof. unfold store, set_data_buf. cbn [data_buf]. apply rd_wr_eq. Qed.

Lemma rd_store_ne s p idx v a :
  a <> cell p idx -> rd (data_buf (store s p idx v)) a = rd (data_buf s) a.
Proof.
  intros H. unfold store, set_data_buf. cbn [data_buf]. apply rd_wr_ne. congruence.
Qed.

Lemma wf_store s p idx v : wf_mem s -> wf_mem (store s p idx v).
Proof.
  intros H a. destruct (Z.eq_dec a (cell p idx)) as [->|Hne].
  - rewrite rd_store_eq. apply wrap16_range.
  - rewrite rd_store_ne by assumption. apply H.
Qed.

Lemma wf_fresh w h d : wf_mem (fresh_ctx w h d).
Proof.
  intros a. unfold in_int16, rd, fresh_ctx. cbn [data_buf].
  rewrite lookup_empty. cbn. lia.
Qed.

Lemma wf_load s p idx : wf_mem s -> in_int16 (load s p idx).
Proof. intros H. apply H. Qed.

(** A loop whose invariant depends on the index. *)
Lemma for_from_ind {S : Type} (P : Z -> S -> Prop) body n : forall i s,
  P i s ->
  (forall k s, i <= k < i + Z.of_nat n -> P k s -> P (k + 1) (body k s)) ->
  P (i + Z.of_nat n) (for_from n i body s).
Proof.
  induction n as [|n IH]; intros i s H0 Hstep; cbn [for_from].
  - replace (i + Z.of_nat 0) with i by lia. exact H0.
  - replace (i + Z.of_nat (Datatypes.S n)) with (i + 1 + Z.of_nat n) by lia.
    apply IH; [apply Hstep; [lia|exact H0]|].
    intros k s' Hk. apply Hstep. lia.
Qed.

Lemma for_ind {S : Type} (P : Z -> S -> Prop) body hi s :
  0 <= hi -> P 0 s ->
  (forall k s, 0 <= k < hi -> P k s -> P (k + 1) (body k s)) ->
  P hi (for_ 0 hi body s).
Proof.
  intros Hhi H0 Hstep. unfold for_.
  pose proof (for_from_ind P body (Z.to_nat (hi - 0)) 0 s H0) as H.
  replace (0 + Z.of_nat (Z.to_nat (hi - 0))) with hi in H by lia.
  apply H. intros k s' Hk. apply Hstep. lia.
Qed.

Lemma for_empty {S : Type} (body : Z -> S -> S) lo hi s : hi <= lo -> for_ lo hi body s = s.
Proof. intros H. unfold for_. replace (Z.to_nat (hi - lo)) with 0%nat by lia. reflexivity. Qed.

Lemma rect_index_inj ps w i j i' j' :
  0 <= j < w -> 0 <= j' < w -> w <= ps -> i * ps + j = i' * ps + j' -> i = i' /\ j = j'.
Proof. intros Hj Hj' Hw E. assert (i = i') by nia. subst i'. split; [reflexivity|lia]. Qed.

Lemma rect_range p ps w h a :
  w <= ps -> rect p ps w h a -> p / 2 <= a < p / 2 + h * ps.
Proof. intros Hw (i & j & Hi & Hj & ->). unfold cell. nia. Qed.

Lemma apart_rect h x y w w' a :
  apart h x y -> w <= snd x -> w' <= snd y ->
  rect (fst x) (snd x) w h a -> rect (fst y) (snd y) w' h a -> False.
Proof.
  intros Hap Hw Hw' Hx Hy.
  apply rect_range in Hx; [|assumption]. apply rect_range in Hy; [|assumption].
  unfold apart in Hap. lia.
Qed.

(** ** Loops that fill planes cell by cell *)

Section Map2D.
Variables (h w nb : Z) (cellof V : Z -> Z -> Z -> Z).
Variable body : Z -> Z -> ADMData -> ADMData.
Variable s0 : ADMData.

Hypothesis Hinj : forall k i j k' i' j',
  0 <= k < nb -> 0 <= i < h -> 0 <= j < w ->
  0 <= k' < nb -> 0 <= i' < h -> 0 <= j' < w ->
  cellof k i j = cellof k' i' j' -> k = k' /\ i = i' /\ j = j'.
Hypothesis Hfoot : forall i j s a,
  0 <= i < h -> 0 <= j < w ->
  (forall k, 0 <= k < nb -> a <> cellof k i j) ->
  rd (data_buf (body i j s)) a = rd (data_buf s) a.
Hypothesis Hval : forall i j s k,
  0 <= i < h -> 0 <= j < w -> 0 <= k < nb ->
  same_outside (written h w nb cellof) s0 s ->
  rd (data_buf (body i j s)) (cellof k i j) = V k i j.

Let inv (i j : Z) (s : ADMData) : Prop :=
  same_outside (written h w nb cellof) s0 s /\
  forall k i' j', 0 <= k < nb -> 0 <= i' < h -> 0 <= j' < w ->
    i' < i \/ (i' = i /\ j' < j) ->
    rd (data_buf s) (cellof k i' j') = V k i' j'.

Lemma map2d_step i j s :
  0 <= i < h -> 0 <= j < w -> inv i j s -> inv i (j + 1) (body i j s).
Proof.
  intros Hi Hj [Hst Hv]. split.
  - intros a Ha. rewrite Hfoot; [apply Hst, Ha|assumption|assumption|].
    intros k Hk ->. apply Ha. exists k, i, j. auto.
  - intros k i' j' Hk Hi' Hj' Hlt.
    destruct (Z.eq_dec i' i) as [->|Hne]; [destruct (Z.eq_dec j' j) as [->|Hnej]|].
    + apply Hval; assumption.
    + rewrite Hfoot; [apply Hv; [assumption|assumption|assumption|lia]|assumption|assumption|].
      intros k' Hk' E. apply Hinj in E; try assumption. lia.
    + rewrite Hfoot; [apply Hv; [assumption|assumption|assumption|lia]|assumption|assumption|].
      intros k' Hk' E. apply Hinj in E; try assumption. lia.
Qed.

Lemma map2d :
  let s' := for_ 0 h (fun i s => for_ 0 w (fun j s => body i j s) s) s0 in
  same_outside (written h w nb cellof) s0 s' /\
  forall k i j, 0 <= k < nb -> 0 <= i < h -> 0 <= j < w ->
    rd (data_buf s') (cellof k i j) = V k i j.
Proof.
  cbv zeta.
  destruct (Z_lt_le_dec h 0) as [Hh|Hh].
  { rewrite for_empty by lia. split; [intros a _; reflexivity|]. intros; lia. }
  destruct (Z_lt_le_dec w 0) as [Hw|Hw].
  { assert (E : for_ 0 h (fun i s => for_ 0 w (fun j s => body i j s) s) s0 = s0).
    { apply (for_from_inv (fun s => s = s0)); [|reflexivity].
      intros i s ->. apply for_empty. lia. }
    rewrite E. split; [intros a _; reflexivity|]. intros; lia. }
  assert (H : inv h 0 (for_ 0 h (fun i s => for_ 0 w (fun j s => body i j s) s) s0)).
  { apply (for_ind (fun i s => inv i 0 s)); [assumption| |].
    - split; [intros a _; reflexivity|]. intros; lia.
    - intros i s Hi Hinv.
      assert (Hw' : inv i w (for_ 0 w (fun j s => body i j s) s)).
      { apply (for_ind (fun j s => inv i j s)); [assumption|exact Hinv|].
        intros j s1 Hj. apply map2d_step; assumption. }
      destruct Hw' as [Hst Hv]. split; [exact Hst|].
      intros k i' j' Hk Hi' Hj' Hlt. apply Hv; try assumption. lia. }
  destruct H as [Hst Hv]. split; [exact Hst|].
  intros k i j Hk Hi Hj. apply Hv; try assumption. lia.
Qed.

End Map2D.

Lemma cell_inj p idx idx' : cell p idx = cell p idx' -> idx = idx'.
Proof. unfold cell. lia. Qed.

Lemma rect_cell p ps w h i j : 0 <= i < h -> 0 <= j < w -> rect p ps w h (cell p (i * ps + j)).
Proof. intros Hi Hj. exists i, j. auto. Qed.

Lemma for_from_range_inv {S : Type} (P : S -> Prop) body n : forall i s,
  P s -> (forall k s, i <= k < i + Z.of_nat n -> P s -> P (body k s)) ->
  P (for_from n i body s).
Proof.
  induction n as [|n IH]; intros i s H0 Hstep; cbn [for_from]; [exact H0|].
  apply IH; [apply Hstep; [lia|exact H0]|].
  intros k s' Hk. apply Hstep. lia.
Qed.

Lemma for_range_inv {S : Type} (P : S -> Prop) body lo hi s :
  P s -> (forall k s, lo <= k < hi -> P s -> P (body k s)) -> P (for_ lo hi body s).
Proof.
  intros H0 Hstep. unfold for_. apply for_from_range_inv; [exact H0|].
  intros k s' Hk. apply Hstep. lia.
Qed.

Lemma forM_from_range_inv {S : Type} (P : S -> Prop) body n : forall i s s',
  P s -> (forall k s s', i <= k < i + Z.of_nat n -> P s -> body k s = Some s' -> P s') ->
  forM_from n i body s = Some s' -> P s'.
Proof.
  induction n as [|n IH]; intros i s s' H0 Hstep; cbn [forM_from].
  - intros [= <-]. exact H0.
  - destruct (body i s) as [s1|] eqn:E; [|discriminate].
    apply IH; [apply (Hstep i s); [lia|exact H0|exact E]|].
    intros k s2 s3 Hk. apply Hstep. lia.
Qed.

Lemma forM_range_inv {S : Type} (P : S -> Prop) body lo hi s s' :
  P s -> (forall k s s', lo <= k < hi -> P s -> body k s = Some s' -> P s') ->
  forM lo hi body s = Some s' -> P s'.
Proof.
  intros H0 Hstep. unfold forM. apply forM_from_range_inv; [exact H0|].
  intros k s1 s2 Hk. apply Hstep. lia.
Qed.

Lemma forM_from_ind {S : Type} (P : Z -> S -> Prop) body n : forall i s s',
  P i s ->
  (forall k s s', i <= k < i + Z.of_nat n -> P k s -> body k s = Some s' -> P (k + 1) s') ->
  forM_from n i body s = Some s' -> P (i + Z.of_nat n) s'.
Proof.
  induction n as [|n IH]; intros i s s' H0 Hstep; cbn [forM_from].
  - intros [= <-]. replace (i + Z.of_nat 0) with i by lia. exact H0.
  - destruct (body i s) as [s1|] eqn:E; [|discriminate].
    replace (i + Z.of_nat (Datatypes.S n)) with (i + 1 + Z.of_nat n) by lia.
    apply IH; [apply (Hstep i s); [lia|exact H0|exact E]|].
    intros k s2 s3 Hk. apply Hstep. lia.
Qed.

Lemma forM_ind {S : Type} (P : Z -> S -> Prop) body hi s s' :
  0 <= hi -> P 0 s ->
  (forall k s s', 0 <= k < hi -> P k s -> body k s = Some s' -> P (k + 1) s') ->
  forM 0 hi body s = Some s' -> P hi s'.
Proof.
  intros Hhi H0 Hstep. unfold forM.
  pose proof (forM_from_ind P body (Z.to_nat (hi - 0)) 0 s s' H0) as H.
  replace (0 + Z.of_nat (Z.to_nat (hi - 0))) with hi in H by lia.
  apply H. intros k s1 s2 Hk. apply Hstep. lia.
Qed.

Lemma forM_from_total {S : Type} (P : Z -> S -> Prop) body n : forall i s,
  P i s ->
  (forall k s, i <= k < i + Z.of_nat n -> P k s -> exists s', body k s = Some s' /\ P (k + 1) s') ->
  exists s', forM_from n i body s = Some s' /\ P (i + Z.of_nat n) s'.
Proof.
  induction n as [|n IH]; intros i s H0 Hstep; cbn [forM_from].
  - exists s. replace (i + Z.of_nat 0) with i by lia. split; [reflexivity|exact H0].
  - destruct (Hstep i s ltac:(lia) H0) as (s1 & -> & H1).
    replace (i + Z.of_nat (Datatypes.S n)) with (i + 1 + Z.of_nat n) by lia.
    apply IH; [exact H1|]. intros k s2 Hk. apply Hstep. lia.
Qed.

Lemma forM_total {S : Type} (P : Z -> S -> Prop) body hi s :
  0 <= hi -> P 0 s ->
  (forall k s, 0 <= k < hi -> P k s -> exists s', body k s = Some s' /\ P (k + 1) s') ->
  exists s', forM 0 hi body s = Some s' /\ P hi s'.
Proof.
  intros Hhi H0 Hstep. unfold forM.
  pose proof (forM_from_total P body (Z.to_nat (hi - 0)) 0 s H0) as H.
  replace (0 + Z.of_nat (Z.to_nat (hi - 0))) with hi in H by lia.
  apply H. intros k s1 Hk. apply Hstep. lia.
Qed.

Lemma forM_empty {S : Type} (body : Z -> S -> option S) lo hi s :
  hi <= lo -> forM lo hi body s = Some s.
Proof. intros H. unfold forM. replace (Z.to_nat (hi - lo)) with 0%nat by lia. reflexivity. Qed.

(** ** Loops that fill planes cell by cell and can stop *)

Section MapM2D.
Variables (h w nb : Z) (cellof : Z -> Z -> Z -> Z) (post : Z -> Z -> Z -> Z -> Prop).
Variable body : Z -> Z -> ADMData -> option ADMData.
Variable s0 : ADMData.

Hypothesis Hinj : forall k i j k' i' j',
  0 <= k < nb -> 0 <= i < h -> 0 <= j < w ->
  0 <= k' < nb -> 0 <= i' < h -> 0 <= j' < w ->
  cellof k i j = cellof k' i' j' -> k = k' /\ i = i' /\ j = j'.
Hypothesis Hfoot : forall i j s s' a,
  0 <= i < h -> 0 <= j < w -> body i j s = Some s' ->
  (forall k, 0 <= k < nb -> a <> cellof k i j) ->
  rd (data_buf s') a = rd (data_buf s) a.
Hypothesis Hval : forall i j s s' k,
  0 <= i < h -> 0 <= j < w -> 0 <= k < nb ->
  same_outside (written h w nb cellof) s0 s -> body i j s = Some s' ->
  post k i j (rd (data_buf s') (cellof k i j)).

Let invM (i j : Z) (s : ADMData) : Prop :=
  same_outside (written h w nb cellof) s0 s /\
  forall k i' j', 0 <= k < nb -> 0 <= i' < h -> 0 <= j' < w ->
    i' < i \/ (i' = i /\ j' < j) ->
    post k i' j' (rd (data_buf s) (cellof k i' j')).

Lemma mapM2d_step i j s s' :
  0 <= i < h -> 0 <= j < w -> invM i j s -> body i j s = Some s' -> invM i (j + 1) s'.
Proof.
  intros Hi Hj [Hst Hv] E. split.
  - intros a Ha. rewrite (Hfoot i j s s'); [apply Hst, Ha|assumption|assumption|assumption|].
    intros k Hk ->. apply Ha. exists k, i, j. auto.
  - intros k i' j' Hk Hi' Hj' Hlt.
    destruct (Z.eq_dec i' i) as [->|Hne]; [destruct (Z.eq_dec j' j) as [->|Hnej]|].
    + apply (Hval i j s s'); assumption.
    + rewrite (Hfoot i j s s');
        [apply Hv; [assumption|assumption|assumption|lia]|assumption|assumption|assumption|].
      intros k' Hk' E'. apply Hinj in E'; try assumption. lia.
    + rewrite (Hfoot i j s s');
        [apply Hv; [assumption|assumption|assumption|lia]|assumption|assumption|assumption|].
      intros k' Hk' E'. apply Hinj in E'; try assumption. lia.
Qed.

Lemma mapM2d s' :
  forM 0 h (fun i s => forM 0 w (fun j s => body i j s) s) s0 = Some s' ->
  same_outside (written h w nb cellof) s0 s' /\
  forall k i j, 0 <= k < nb -> 0 <= i < h -> 0 <= j < w ->
    post k i j (rd (data_buf s') (cellof k i j)).
Proof.
  destruct (Z_lt_le_dec h 0) as [Hh|Hh].
  { rewrite forM_empty by lia. intros [= <-]. split; [intros a _; reflexivity|]. intros; lia. }
  destruct (Z_lt_le_dec w 0) as [Hw|Hw].
  { intros E. split; [|intros; lia]. revert E.
    apply (forM_ind (fun _ s => same_outside (written h w nb cellof) s0 s)); [assumption| |].
    - intros a _; reflexivity.
    - intros i s1 s2 Hi H1. rewrite forM_empty by lia. intros [= <-]. exact H1. }
  intros E.
  assert (H : invM h 0 s').
  { revert E. apply (forM_ind (fun i s => invM i 0 s)); [assumption| |].
    - split; [intros a _; reflexivity|]. intros; lia.
    - intros i s1 s2 Hi Hinv E.
      assert (Hw' : invM i w s2).
      { revert E. apply (forM_ind (fun j s => invM i j s)); [assumption|exact Hinv|].
        intros j s3 s4 Hj. apply mapM2d_step; assumption. }
      destruct Hw' as [Hst Hv]. split; [exact Hst|].
      intros k i' j' Hk Hi' Hj' Hlt. apply Hv; try assumption. lia. }
  destruct H as [Hst Hv]. split; [exact Hst|].
  intros k i j Hk Hi Hj. apply Hv; try assumption. lia.
Qed.

(** The loop runs to its end when the body is defined at every cell. *)
Hypothesis Hdef : forall i j s,
  0 <= i < h -> 0 <= j < w ->
  same_outside (written h w nb cellof) s0 s -> exists s', body i j s = Some s'.

Lemma mapM2d_total :
  exists s', forM 0 h (fun i s => forM 0 w (fun j s => body i j s) s) s0 = Some s'.
Proof.
  destruct (Z_lt_le_dec h 0) as [Hh|Hh].
  { rewrite forM_empty by lia. eauto. }
  pose (P := fun s => same_outside (written h w nb cellof) s0 s).
  assert (Hrow : forall i s, 0 <= i < h -> P s ->
            exists s', forM 0 w (fun j s => body i j s) s = Some s' /\ P s').
  { intros i s Hi Hs.
    destruct (Z_lt_le_dec w 0) as [Hw|Hw].
    { rewrite forM_empty by lia. eauto. }
    apply (forM_total (fun _ => P)); [assumption|exact Hs|].
    intros j s1 Hj H1. destruct (Hdef i j s1 Hi Hj H1) as [s2 E]. exists s2.
    split; [exact E|].
    intros a Ha. rewrite (Hfoot i j s1 s2); [apply H1, Ha|assumption|assumption|assumption|].
    intros k Hk ->. apply Ha. exists k, i, j. auto. }
  destruct (forM_total (fun _ => P) (fun i s => forM 0 w (fun j s => body i j s) s) h s0 Hh)
    as (s' & E & _).
  - intros a _; reflexivity.
  - intros i s Hi Hs. apply Hrow; assumption.
  - exists s'. exact E.
Qed.

End MapM2D.

(** ** The wavelet filter on a constant input *)

Lemma wrap32_mod x : wrap32 x = (x + 2147483648) mod 4294967296 - 2147483648.
Proof.
  unfold wrap32. change 4294967295 with (Z.ones 32). rewrite Z.land_ones by lia.
  reflexivity.
Qed.

Lemma wrap32_add_r a b : wrap32 (a + wrap32 b) = wrap32 (a + b).
Proof.
  rewrite !wrap32_mod.
  replace (a + ((b + 2147483648) mod 4294967296 - 2147483648) + 2147483648)
    with (a + (b + 2147483648) mod 4294967296) by lia.
  rewrite Z.add_mod_idemp_r by lia. f_equal. f_equal. lia.
Qed.

Lemma wrap32_add_l a b : wrap32 (wrap32 a + b) = wrap32 (a + b).
Proof. rewrite (Z.add_comm (wrap32 a)), wrap32_add_r. f_equal. lia. Qed.

Lemma wrap32_add_l2 a b c : wrap32 (wrap32 a + b + c) = wrap32 (a + b + c).
Proof.
  replace (wrap32 a + b + c) with (wrap32 a + (b + c)) by lia.
  rewrite wrap32_add_l. f_equal. lia.
Qed.

Lemma mac_wrap sum c x : mac (wrap32 sum) c x = wrap32 (sum + c * x).
Proof. unfold mac. rewrite wrap32_add_r, wrap32_add_l. reflexivity. Qed.

(** The taps of the high-pass filter add up to 0 and those of the
    low-pass filter to 46342: on a constant input the high-pass output
    is exactly 0, whatever the position and the length. *)
Lemma dwt_filter_const n i c :
  dwt_filter n i (fun _ => c) = (wrap32 (46342 * c), 0).
Proof.
  unfold dwt_filter, for_, filt_w. change (Z.to_nat (4 - 0)) with 4%nat.
  cbn [for_from].
  unfold dwt2_db2_coeffs_lo_int, dwt2_db2_coeffs_hi_int.
  change (Z.to_nat 0) with 0%nat. change (Z.to_nat (0 + 1)) with 1%nat.
  change (Z.to_nat (0 + 1 + 1)) with 2%nat. change (Z.to_nat (0 + 1 + 1 + 1)) with 3%nat.
  cbn [nth].
  unfold mac. rewrite !wrap32_add_r. rewrite !wrap32_add_l. rewrite !wrap32_add_l2.
  f_equal.
  - f_equal. lia.
  - replace (0 + -4240 * c + -7345 * c + 27411 * c + -15826 * c) with 0 by lia. reflexivity.
Qed.

(** ** The copy of the approximation band *)


Ltac sep :=
  cbn [pairwise];
  repeat match goal with
         | |- _ /\ _ => split
         | |- Forall _ (_ :: _) => apply List.Forall_cons
         | |- Forall _ [] => apply List.Forall_nil
         | |- True => exact I
         | |- apart _ _ _ =>
             unfold apart; vm_compute; first [left; discriminate|right; discriminate]
         end.


(** ** Contrast sensitivity weighting *)

(** The fixed-point CSF factors of the four scales are positive and
    below [2^15], so that the conversion to [uint16_t] keeps them. *)
Lemma csf_rfactor_range scale :
  0 <= scale < 4 ->
  0 < csf_rfactor (fst (nth (Z.to_nat scale) Q (S754_nan, S754_nan))) < 32768 /\
  0 < csf_rfactor (snd (nth (Z.to_nat scale) Q (S754_nan, S754_nan))) < 32768.
Proof.
  intros Hs.
  assert (E : scale = 0 \/ scale = 1 \/ scale = 2 \/ scale = 3) by lia.
  destruct E as [->|[->|[->| ->]]]; vm_compute; repeat split; reflexivity.
Qed.

Lemma csf_sample rf x :
  0 < rf < 32768 -> in_int16 x ->
  Z.shiftr (wrap32 (rf * x)) BIT_SHIFT = Z.shiftr (rf * x) 15 /\
  in_int16 (Z.shiftr (rf * x) 15) /\
  Z.abs (Z.shiftr (rf * x) 15) <= Z.abs x.
Proof.
  unfold in_int16, BIT_SHIFT. intros Hrf Hx.
  rewrite wrap32_small by nia.
  rewrite Z.shiftr_div_pow2 by lia. change (2 ^ 15) with 32768.
  pose proof (Z.div_mod (rf * x) 32768 ltac:(lia)) as Hd.
  pose proof (Z.mod_pos_bound (rf * x) 32768 ltac:(lia)) as Hm.
  split; [reflexivity|].
  assert (Z.abs (rf * x / 32768) <= Z.abs x) by nia.
  split; lia.
Qed.

(** One plane of [adm_csf]. *)
Lemma csf_plane_spec rf src dst sps dps w h s :
  wf_mem s -> 0 < rf < 32768 -> w <= sps -> w <= dps ->
  apart h (src, sps) (dst, dps) ->
  let s' :=
    for_ 0 h (fun i s =>
      for_ 0 w (fun j s =>
        store s dst (i * dps + j)
          (Z.shiftr (wrap32 (rf * load s src (i * sps + j))) BIT_SHIFT)) s) s in
  wf_mem s' /\
  same_outside (rect dst dps w h) s s' /\
  forall i j, 0 <= i < h -> 0 <= j < w ->
    load s' dst (i * dps + j) = Z.shiftr (rf * load s src (i * sps + j)) 15.
Proof.
  intros Hwf Hrf Hss Hds Hap. cbv zeta.
  split.
  { apply (for_from_inv wf_mem); [|exact Hwf]. intros i s1 H1.
    apply (for_from_inv wf_mem); [|exact H1]. intros j s2 H2. apply wf_store, H2. }
  pose proof (map2d h w 1 (fun _ i k => cell dst (i * dps + k))
                (fun _ i k => Z.shiftr (rf * load s src (i * sps + k)) 15)
                (fun i k s1 => store s1 dst (i * dps + k)
                   (Z.shiftr (wrap32 (rf * load s1 src (i * sps + k))) BIT_SHIFT)) s)
    as M.
  cbv zeta in M. destruct M as [Mst Mv].
  - intros k i j k' i' j' Hk Hi Hj Hk' Hi' Hj' E. apply cell_inj in E.
    apply rect_index_inj with (w := w) in E; [|lia|lia|lia]. lia.
  - intros i j s1 a Hi Hj Ha. apply rd_store_ne. apply (Ha 0). lia.
  - intros i j s1 k Hi Hj Hk Hst. rewrite rd_store_eq.
    assert (E : load s1 src (i * sps + j) = load s src (i * sps + j)).
    { unfold load. apply Hst. intros (k' & i' & j' & _ & Hi' & Hj' & E).
      apply (apart_rect h (src, sps) (dst, dps) w w (cell src (i * sps + j)));
        [exact Hap|exact Hss|exact Hds|apply rect_cell; assumption|].
      rewrite E. apply rect_cell; assumption. }
    rewrite E.
    destruct (csf_sample rf (load s src (i * sps + j)) Hrf (wf_load s src _ Hwf))
      as (-> & Hr & _).
    apply wrap16_small. exact Hr.
  - split.
    + intros a Ha. apply Mst. intros (k' & i' & j' & _ & Hi' & Hj' & ->).
      apply Ha. apply rect_cell; assumption.
    + intros i k Hi Hk. unfold load at 1. apply (Mv 0); [lia|assumption|assumption].
Qed.

Lemma apart_sym h x y : apart h x y -> apart h y x.
Proof. unfold apart. tauto. Qed.

(** The samples [adm_csf] stores, in the form shared with the proof on
    the scale loop. *)
Lemma adm_csf_cells src dst orig_h scale w h ss ds s :
  wf_mem s -> 0 <= scale < 4 -> w <= ss / 2 -> w <= ds / 2 ->
  pairwise (apart h)
    [(band_h dst, ds / 2); (band_v dst, ds / 2); (band_d dst, ds / 2)] ->
  Forall (fun d => Forall (apart h d)
                     [(band_h src, ss / 2); (band_v src, ss / 2); (band_d src, ss / 2)])
    [(band_h dst, ds / 2); (band_v dst, ds / 2); (band_d dst, ds / 2)] ->
  wf_mem (adm_csf src dst orig_h scale w h ss ds s) /\
  same_outside (fun a => rect (band_h dst) (ds / 2) w h a \/
                         rect (band_v dst) (ds / 2) w h a \/
                         rect (band_d dst) (ds / 2) w h a)
    s (adm_csf src dst orig_h scale w h ss ds s) /\
  forall i j, 0 <= i < h -> 0 <= j < w ->
    load (adm_csf src dst orig_h scale w h ss ds s) (band_h dst) (i * (ds / 2) + j)
    = Z.shiftr (csf_rfactor (fst (nth (Z.to_nat scale) Q (S754_nan, S754_nan)))
                * load s (band_h src) (i * (ss / 2) + j)) 15 /\
    load (adm_csf src dst orig_h scale w h ss ds s) (band_v dst) (i * (ds / 2) + j)
    = Z.shiftr (csf_rfactor (fst (nth (Z.to_nat scale) Q (S754_nan, S754_nan)))
                * load s (band_v src) (i * (ss / 2) + j)) 15 /\
    load (adm_csf src dst orig_h scale w h ss ds s) (band_d dst) (i * (ds / 2) + j)
    = Z.shiftr (csf_rfactor (snd (nth (Z.to_nat scale) Q (S754_nan, S754_nan)))
                * load s (band_d src) (i * (ss / 2) + j)) 15.
Proof.
  intros Hwf Hsc Hss Hds Hdd Hdsrc.
  destruct (csf_rfactor_range scale Hsc) as [Hr1 Hr2].
  cbn [pairwise] in Hdd. rewrite !Forall_cons in Hdd. rewrite !Forall_cons in Hdsrc.
  destruct Hdd as ((Dhv & Dhd & _) & (Dvd & _) & _).
  destruct Hdsrc as ((Hh & Hv & Hd & _) & (Vh & Vv & Vd & _) & (Dh & Dv & Dd & _) & _).
  unfold adm_csf. cbv zeta. unfold for_ at 1. change (Z.to_nat (3 - 0)) with 3%nat.
  cbn [for_from]. change (Z.to_nat 0) with 0%nat. change (Z.to_nat (0 + 1)) with 1%nat.
  change (Z.to_nat (0 + 1 + 1)) with 2%nat. cbn [nth].
  set (sps := ss / 2) in *. set (dps := ds / 2) in *.
  set (q := nth (Z.to_nat scale) Q (S754_nan, S754_nan)) in *.
  destruct (csf_plane_spec (csf_rfactor (fst q)) (band_h src) (band_h dst) sps dps w h s
              Hwf Hr1 Hss Hds (apart_sym _ _ _ Hh)) as (W1 & F1 & V1).
  set (s1 := for_ 0 h _ s) in *.
  destruct (csf_plane_spec (csf_rfactor (fst q)) (band_v src) (band_v dst) sps dps w h s1
              W1 Hr1 Hss Hds (apart_sym _ _ _ Vv)) as (W2 & F2 & V2).
  set (s2 := for_ 0 h _ s1) in *.
  destruct (csf_plane_spec (csf_rfactor (snd q)) (band_d src) (band_d dst) sps dps w h s2
              W2 Hr2 Hss Hds (apart_sym _ _ _ Dd)) as (W3 & F3 & V3).
  set (s3 := for_ 0 h _ s2) in *.
  split; [exact W3|]. split.
  - intros a Ha. rewrite F3 by tauto. rewrite F2 by tauto. apply F1. tauto.
  - intros i j Hi Hj.
    assert (Rsrc : forall p, rect p sps w h (cell p (i * sps + j)))
      by (intros p; apply rect_cell; assumption).
    assert (Rdst : forall p, rect p dps w h (cell p (i * dps + j)))
      by (intros p; apply rect_cell; assumption).
    split; [|split].
    + unfold load at 1. rewrite F3, F2.
      * apply V1; assumption.
      * intros R. apply (apart_rect h _ _ w w _ Dhv Hds Hds (Rdst _) R).
      * intros R. apply (apart_rect h _ _ w w _ Dhd Hds Hds (Rdst _) R).
    + unfold load at 1. rewrite F3.
      * fold (load s2 (band_v dst) (i * dps + j)). rewrite V2 by assumption.
        f_equal. f_equal. unfold load. apply F1.
        intros R. apply (apart_rect h _ _ w w _ Hv Hds Hss R (Rsrc _)).
      * intros R. apply (apart_rect h _ _ w w _ Dvd Hds Hds (Rdst _) R).
    + rewrite V3 by assumption. f_equal. f_equal. unfold load.
      rewrite F2, F1; [reflexivity| |].
      * intros R. apply (apart_rect h _ _ w w _ Hd Hds Hss R (Rsrc _)).
      * intros R. apply (apart_rect h _ _ w w _ Vd Hds Hss R (Rsrc _)).
Qed.

(** [adm_csf]: every sample of the three detail planes is multiplied
    by the factor of its scale and orientation and shifted right by 15
    bits (rounding toward minus infinity); nothing else is written. *)
Theorem adm_csf_spec src dst orig_h scale w h ss ds s :
  wf_mem s -> 0 <= scale < 4 -> w <= ss / 2 -> w <= ds / 2 ->
  pairwise (apart h)
    [(band_h dst, ds / 2); (band_v dst, ds / 2); (band_d dst, ds / 2)] ->
  Forall (fun d => Forall (apart h d)
                     [(band_h src, ss / 2); (band_v src, ss / 2); (band_d src, ss / 2)])
    [(band_h dst, ds / 2); (band_v dst, ds / 2); (band_d dst, ds / 2)] ->
  wf_mem (adm_csf src dst orig_h scale w h ss ds s) /\
  same_outside (fun a => rect (band_h dst) (ds / 2) w h a \/
                         rect (band_v dst) (ds / 2) w h a \/
                         rect (band_d dst) (ds / 2) w h a)
    s (adm_csf src dst orig_h scale w h ss ds s) /\
  forall i j, 0 <= i < h -> 0 <= j < w ->
    load (adm_csf src dst orig_h scale w h ss ds s) (band_h dst) (i * (ds / 2) + j)
    = Z.shiftr (csf_rfactor (fst (nth (Z.to_nat scale) Q (S754_nan, S754_nan)))
                * load s (band_h src) (i * (ss / 2) + j)) 15 /\
    load (adm_csf src dst orig_h scale w h ss ds s) (band_v dst) (i * (ds / 2) + j)
    = Z.shiftr (csf_rfactor (fst (nth (Z.to_nat scale) Q (S754_nan, S754_nan)))
                * load s (band_v src) (i * (ss / 2) + j)) 15 /\
    load (adm_csf src dst orig_h scale w h ss ds s) (band_d dst) (i * (ds / 2) + j)
    = Z.shiftr (csf_rfactor (snd (nth (Z.to_nat scale) Q (S754_nan, S754_nan)))
                * load s (band_d src) (i * (ss / 2) + j)) 15.
Proof. exact (adm_csf_cells src dst orig_h scale w h ss ds s). Qed.

Lemma adm_csf_spec_witness :
  wf_mem (adm_csf (ref_dwt2 (adm_layout 32 8)) (csf_o (adm_layout 32 8)) 8 0 16 4
            (buf_stride (adm_layout 32 8)) (buf_stride (adm_layout 32 8)) (fresh_ctx 32 8 8)).
Proof.
  apply adm_csf_spec.
  - apply wf_fresh.
  - lia.
  - vm_compute. discriminate.
  - vm_compute. discriminate.
  - sep.
  - sep.
Defined.

(** The rounding of the CSF stage is toward minus infinity: the
    magnitude never grows, a non-negative sample stays non-negative and
    a negative sample stays negative (it never becomes 0). *)
Theorem csf_sample_sign scale x :
  0 <= scale < 4 -> in_int16 x ->
  Forall (fun rf =>
            Z.abs (Z.shiftr (wrap32 (rf * x)) BIT_SHIFT) <= Z.abs x /\
            (0 <= x -> 0 <= Z.shiftr (wrap32 (rf * x)) BIT_SHIFT) /\
            (x < 0 -> Z.shiftr (wrap32 (rf * x)) BIT_SHIFT < 0))
    [csf_rfactor (fst (nth (Z.to_nat scale) Q (S754_nan, S754_nan)));
     csf_rfactor (snd (nth (Z.to_nat scale) Q (S754_nan, S754_nan)))].
Proof.
  intros Hs Hx. destruct (csf_rfactor_range scale Hs) as [H1 H2].
  assert (G : forall rf, 0 < rf < 32768 ->
            Z.abs (Z.shiftr (wrap32 (rf * x)) BIT_SHIFT) <= Z.abs x /\
            (0 <= x -> 0 <= Z.shiftr (wrap32 (rf * x)) BIT_SHIFT) /\
            (x < 0 -> Z.shiftr (wrap32 (rf * x)) BIT_SHIFT < 0)).
  { intros rf Hrf. destruct (csf_sample rf x Hrf Hx) as (-> & _ & Ha).
    split; [exact Ha|]. rewrite Z.shiftr_div_pow2 by lia. change (2 ^ 15) with 32768.
    split; intros Hsgn.
    - apply Z.div_pos; nia.
    - apply Z.div_lt_upper_bound; nia. }
  constructor; [apply G; assumption|].
  constructor; [apply G; assumption|]. constructor.
Qed.

Lemma csf_sample_sign_witness :
  Forall (fun rf =>
            Z.abs (Z.shiftr (wrap32 (rf * (-1))) BIT_SHIFT) <= Z.abs (-1) /\
            (0 <= -1 -> 0 <= Z.shiftr (wrap32 (rf * (-1))) BIT_SHIFT) /\
            (-1 < 0 -> Z.shiftr (wrap32 (rf * (-1))) BIT_SHIFT < 0))
    [csf_rfactor (fst (nth (Z.to_nat 0) Q (S754_nan, S754_nan)));
     csf_rfactor (snd (nth (Z.to_nat 0) Q (S754_nan, S754_nan)))].
Proof. apply csf_sample_sign; unfold in_int16; lia. Defined.

(** ** Contrast masking *)

(** The samples [adm_cm] stores, in the form shared with the proofs on
    the composition with [adm_cm_thresh] and on the scale loop. *)
Lemma adm_cm_cells src dst thresh w h ss ds ts s :
  wf_mem s -> w <= ss / 2 -> w <= ds / 2 -> w <= ts / 2 ->
  pairwise (apart h)
    [(band_h dst, ds / 2); (band_v dst, ds / 2); (band_d dst, ds / 2)] ->
  Forall (fun d => Forall (apart h d)
                     [(band_h src, ss / 2); (band_v src, ss / 2); (band_d src, ss / 2);
                      (thresh, ts / 2)])
    [(band_h dst, ds / 2); (band_v dst, ds / 2); (band_d dst, ds / 2)] ->
  same_outside (fun a => rect (band_h dst) (ds / 2) w h a \/
                         rect (band_v dst) (ds / 2) w h a \/
                         rect (band_d dst) (ds / 2) w h a)
    s (adm_cm src dst thresh w h ss ds ts s) /\
  forall i j, 0 <= i < h -> 0 <= j < w ->
    load (adm_cm src dst thresh w h ss ds ts s) (band_h dst) (i * (ds / 2) + j)
    = wrap16 (Z.max 0 (Z.abs (load s (band_h src) (i * (ss / 2) + j))
                       - load s thresh (i * (ts / 2) + j))) /\
    load (adm_cm src dst thresh w h ss ds ts s) (band_v dst) (i * (ds / 2) + j)
    = wrap16 (Z.max 0 (Z.abs (load s (band_v src) (i * (ss / 2) + j))
                       - load s thresh (i * (ts / 2) + j))) /\
    load (adm_cm src dst thresh w h ss ds ts s) (band_d dst) (i * (ds / 2) + j)
    = wrap16 (Z.max 0 (Z.abs (load s (band_d src) (i * (ss / 2) + j))
                       - load s thresh (i * (ts / 2) + j))).
Proof.
  intros Hwf Hss Hds Hts Hdd Hdsrc.
  cbn [pairwise] in Hdd. rewrite !Forall_cons in Hdd. rewrite !Forall_cons in Hdsrc.
  destruct Hdd as ((Dhv & Dhd & _) & (Dvd & _) & _).
  destruct Hdsrc as ((Hh & Hv & Hd & Ht & _) & (Vh & Vv & Vd & Vt & _)
                     & (Dh & Dv & Dd & Dt & _) & _).
  unfold adm_cm. cbv zeta.
  set (sps := ss / 2) in *. set (dps := ds / 2) in *. set (tps := ts / 2) in *.
  set (dptr := fun k : Z => if k =? 0 then band_h dst else if k =? 1 then band_v dst
                            else band_d dst).
  set (sptr := fun k : Z => if k =? 0 then band_h src else if k =? 1 then band_v src
                            else band_d src).
  assert (Hdk : forall k k', 0 <= k < 3 -> 0 <= k' < 3 -> k <> k' ->
                apart h (dptr k, dps) (dptr k', dps)).
  { intros k k' Hk Hk' Hne.
    assert (Ek : k = 0 \/ k = 1 \/ k = 2) by lia.
    assert (Ek' : k' = 0 \/ k' = 1 \/ k' = 2) by lia.
    destruct Ek as [->|[->| ->]], Ek' as [->|[->| ->]]; try lia; unfold dptr; cbn;
      first [assumption | apply apart_sym; assumption]. }
  assert (Hsk : forall k k', 0 <= k < 3 -> 0 <= k' < 3 ->
                apart h (dptr k, dps) (sptr k', sps)).
  { intros k k' Hk Hk'.
    assert (Ek : k = 0 \/ k = 1 \/ k = 2) by lia.
    assert (Ek' : k' = 0 \/ k' = 1 \/ k' = 2) by lia.
    destruct Ek as [->|[->| ->]], Ek' as [->|[->| ->]]; unfold dptr, sptr; cbn; assumption. }
  assert (Htk : forall k, 0 <= k < 3 -> apart h (dptr k, dps) (thresh, tps)).
  { intros k Hk. assert (Ek : k = 0 \/ k = 1 \/ k = 2) by lia.
    destruct Ek as [->|[->| ->]]; unfold dptr; cbn; assumption. }
  pose proof (map2d h w 3 (fun k i j => cell (dptr k) (i * dps + j))
    (fun k i j => wrap16 (Z.max 0 (Z.abs (load s (sptr k) (i * sps + j))
                                   - load s thresh (i * tps + j))))
    (fun i j s =>
      let xh := load s (band_h src) (i * sps + j) in
      let xv := load s (band_v src) (i * sps + j) in
      let xd := load s (band_d src) (i * sps + j) in
      let thr := load s thresh (i * tps + j) in
      let xh := FFABS xh - thr in
      let xv := FFABS xv - thr in
      let xd := FFABS xd - thr in
      let xh := if xh <? 0 then 0 else xh in
      let xv := if xv <? 0 then 0 else xv in
      let xd := if xd <? 0 then 0 else xd in
      let s := store s (band_h dst) (i * dps + j) xh in
      let s := store s (band_v dst) (i * dps + j) xv in
      store s (band_d dst) (i * dps + j) xd) s) as M.
  cbv zeta in M.
  assert (Hne : forall k k' i j, 0 <= k < 3 -> 0 <= k' < 3 -> 0 <= i < h -> 0 <= j < w ->
                k <> k' -> cell (dptr k) (i * dps + j) <> cell (dptr k') (i * dps + j)).
  { intros k k' i j Hk Hk' Hi Hj Hkk E.
    apply (apart_rect h _ _ w w (cell (dptr k) (i * dps + j)) (Hdk k k' Hk Hk' Hkk) Hds Hds).
    - apply rect_cell; assumption.
    - rewrite E. apply rect_cell; assumption. }
  destruct M as [Mst Mv].
  - intros k i j k' i' j' Hk Hi Hj Hk' Hi' Hj' E.
    destruct (Z.eq_dec k k') as [->|Hkk].
    + apply cell_inj in E. apply rect_index_inj with (w := w) in E; [|lia|lia|lia]. lia.
    + exfalso.
      apply (apart_rect h _ _ w w (cell (dptr k) (i * dps + j)) (Hdk k k' Hk Hk' Hkk) Hds Hds).
      * apply rect_cell; assumption.
      * rewrite E. apply rect_cell; assumption.
  - intros i j s1 a Hi Hj Ha.
    rewrite !rd_store_ne; [reflexivity| | |].
    + apply (Ha 0). lia.
    + apply (Ha 1). lia.
    + apply (Ha 2). lia.
  - intros i j s1 k Hi Hj Hk Hst.
    assert (Es : forall k', 0 <= k' < 3 ->
              load s1 (sptr k') (i * sps + j) = load s (sptr k') (i * sps + j)).
    { intros k' Hk'. unfold load. apply Hst. intros (k2 & i2 & j2 & Hk2 & Hi2 & Hj2 & E).
      apply (apart_rect h _ _ w w (cell (sptr k') (i * sps + j)) (Hsk k2 k' Hk2 Hk') Hds Hss).
      - rewrite E. apply rect_cell; assumption.
      - apply rect_cell; assumption. }
    assert (Et : load s1 thresh (i * tps + j) = load s thresh (i * tps + j)).
    { unfold load. apply Hst. intros (k2 & i2 & j2 & Hk2 & Hi2 & Hj2 & E).
      apply (apart_rect h _ _ w w (cell thresh (i * tps + j)) (Htk k2 Hk2) Hds Hts).
      - rewrite E. apply rect_cell; assumption.
      - apply rect_cell; assumption. }
    pose proof (Es 0 ltac:(lia)) as E0. pose proof (Es 1 ltac:(lia)) as E1.
    pose proof (Es 2 ltac:(lia)) as E2. unfold sptr in E0, E1, E2. cbn in E0, E1, E2.
    rewrite E0, E1, E2, Et.
    assert (Hab : forall p idx, FFABS (load s p idx) = Z.abs (load s p idx)).
    { intros p idx. pose proof (wf_load s p idx Hwf) as Hl. unfold in_int16 in Hl.
      apply FFABS_abs. lia. }
    rewrite !Hab.
    assert (Hmax : forall x, (if x <? 0 then 0 else x) = Z.max 0 x).
    { intros x. destruct (Z.ltb_spec x 0); lia. }
    rewrite !Hmax.
    assert (Ek : k = 0 \/ k = 1 \/ k = 2) by lia.
    destruct Ek as [->|[->| ->]]; unfold dptr, sptr; cbn [Z.eqb Pos.eqb].
    + rewrite rd_store_ne
        by exact (Hne 0 2 i j ltac:(lia) ltac:(lia) Hi Hj ltac:(lia)).
      rewrite rd_store_ne
        by exact (Hne 0 1 i j ltac:(lia) ltac:(lia) Hi Hj ltac:(lia)).
      apply rd_store_eq.
    + rewrite rd_store_ne
        by exact (Hne 1 2 i j ltac:(lia) ltac:(lia) Hi Hj ltac:(lia)).
      apply rd_store_eq.
    + apply rd_store_eq.
  - split.
    + intros a Ha. apply Mst. intros (k' & i' & j' & Hk' & Hi' & Hj' & ->).
      apply Ha. assert (Ek : k' = 0 \/ k' = 1 \/ k' = 2) by lia.
      destruct Ek as [->|[->| ->]]; unfold dptr; cbn [Z.eqb Pos.eqb];
        [left|right; left|right; right]; apply rect_cell; assumption.
    + intros i j Hi Hj. unfold load at 1 3 5.
      split; [apply (Mv 0)|split; [apply (Mv 1)|apply (Mv 2)]]; lia.
Qed.

(** [adm_cm]: every sample of the three destination planes is the
    magnitude of the source sample minus the threshold of its position,
    or 0 when that is negative; nothing else is written. *)
Theorem adm_cm_spec src dst thresh w h ss ds ts s :
  wf_mem s -> w <= ss / 2 -> w <= ds / 2 -> w <= ts / 2 ->
  pairwise (apart h)
    [(band_h dst, ds / 2); (band_v dst, ds / 2); (band_d dst, ds / 2)] ->
  Forall (fun d => Forall (apart h d)
                     [(band_h src, ss / 2); (band_v src, ss / 2); (band_d src, ss / 2);
                      (thresh, ts / 2)])
    [(band_h dst, ds / 2); (band_v dst, ds / 2); (band_d dst, ds / 2)] ->
  same_outside (fun a => rect (band_h dst) (ds / 2) w h a \/
                         rect (band_v dst) (ds / 2) w h a \/
                         rect (band_d dst) (ds / 2) w h a)
    s (adm_cm src dst thresh w h ss ds ts s) /\
  forall i j, 0 <= i < h -> 0 <= j < w ->
    load (adm_cm src dst thresh w h ss ds ts s) (band_h dst) (i * (ds / 2) + j)
    = wrap16 (Z.max 0 (Z.abs (load s (band_h src) (i * (ss / 2) + j))
                       - load s thresh (i * (ts / 2) + j))) /\
    load (adm_cm src dst thresh w h ss ds ts s) (band_v dst) (i * (ds / 2) + j)
    = wrap16 (Z.max 0 (Z.abs (load s (band_v src) (i * (ss / 2) + j))
                       - load s thresh (i * (ts / 2) + j))) /\
    load (adm_cm src dst thresh w h ss ds ts s) (band_d dst) (i * (ds / 2) + j)
    = wrap16 (Z.max 0 (Z.abs (load s (band_d src) (i * (ss / 2) + j))
                       - load s thresh (i * (ts / 2) + j))).
Proof. exact (adm_cm_cells src dst thresh w h ss ds ts s). Qed.

Lemma adm_cm_spec_witness :
  same_outside
    (fun a => rect (band_h (cm_r (adm_layout 32 8))) (buf_stride (adm_layout 32 8) / 2) 16 4 a \/
              rect (band_v (cm_r (adm_layout 32 8))) (buf_stride (adm_layout 32 8) / 2) 16 4 a \/
              rect (band_d (cm_r (adm_layout 32 8))) (buf_stride (adm_layout 32 8) / 2) 16 4 a)
    (fresh_ctx 32 8 8)
    (adm_cm (csf_r (adm_layout 32 8)) (cm_r (adm_layout 32 8)) (mta (adm_layout 32 8)) 16 4
       (buf_stride (adm_layout 32 8)) (buf_stride (adm_layout 32 8))
       (buf_stride (adm_layout 32 8)) (fresh_ctx 32 8 8)).
Proof.
  apply adm_cm_spec.
  - apply wf_fresh.
  - vm_compute. discriminate.
  - vm_compute. discriminate.
  - vm_compute. discriminate.
  - sep.
  - sep.
Defined.

Lemma cm_filt_coeff_all_zero filt_i filt_j : cm_filt_coeff filt_i filt_j = 0.
Proof.
  unfold cm_filt_coeff.
  destruct ((filt_i =? 1) && (filt_j =? 1)); vm_compute; reflexivity.
Qed.

Lemma cm_sum_zero (f : Z -> Z -> Z) :
  for_ 0 3 (fun filt_i sum =>
    for_ 0 3 (fun filt_j sum => mac sum (cm_filt_coeff filt_i filt_j) (f filt_i filt_j)) sum) 0
  = 0.
Proof.
  unfold for_. apply (for_from_inv (fun sum => sum = 0)); [|reflexivity].
  intros i sum ->. apply (for_from_inv (fun sum => sum = 0)); [|reflexivity].
  intros j sum ->. rewrite cm_filt_coeff_all_zero. reflexivity.
Qed.

Lemma rd_store_zero s p idx a :
  rd (data_buf s) a = 0 -> rd (data_buf (store s p idx 0)) a = 0.
Proof.
  intros H. destruct (Z.eq_dec a (cell p idx)) as [->|Hne].
  - rewrite rd_store_eq. reflexivity.
  - rewrite rd_store_ne by assumption. exact H.
Qed.

(** The samples [adm_cm_thresh] stores, in the form shared with the
    proofs on the composition with [adm_cm] and on the scale loop. *)
Lemma adm_cm_thresh_cells src dst w h ss ds s :
  same_outside (rect dst (ds / 2) w h) s (adm_cm_thresh src dst w h ss ds s) /\
  forall i j, 0 <= i < h -> 0 <= j < w ->
    load (adm_cm_thresh src dst w h ss ds s) dst (i * (ds / 2) + j) = 0.
Proof.
  unfold adm_cm_thresh. cbv zeta.
  set (sps := ss / 2). set (dps := ds / 2).
  destruct (Z.le_gt_cases 0 h) as [Hh|Hh].
  2:{ rewrite (for_empty _ 0 h) by lia. split; [intros a _; reflexivity|intros; lia]. }
  destruct (Z.le_gt_cases 0 w) as [Hw|Hw].
  2:{ split.
      - apply (for_from_inv (fun s' => same_outside (rect dst dps w h) s s'));
          [|intros a _; reflexivity].
        intros i s1 H1. rewrite (for_empty _ 0 w) by lia.
        apply (for_from_inv (fun s' => same_outside (rect dst dps w h) s s'));
          [|exact H1].
        intros th s2 H2. rewrite (for_empty _ 0 w) by lia. exact H2.
      - intros; lia. }
  pose (Z0 := fun (i : Z) (s' : ADMData) =>
          same_outside (rect dst dps w h) s s' /\
          forall i' j, 0 <= i' < i -> 0 <= j < w -> load s' dst (i' * dps + j) = 0).
  assert (H : Z0 h (for_ 0 h (fun i s0 =>
     for_ 0 3 (fun theta s1 =>
       for_ 0 w (fun j s2 =>
         store s2 dst (i * dps + j)
           (load s2 dst (i * dps + j) +
            Z.shiftr
              (for_ 0 3 (fun filt_i sum =>
                 for_ 0 3 (fun filt_j sum0 =>
                    mac sum0 (cm_filt_coeff filt_i filt_j)
                      (FFABS (load s2 (nth (Z.to_nat theta) [band_h src; band_v src; band_d src] 0)
                                (mirror h (i - 1 + filt_i) * sps + mirror w (j - 1 + filt_j)))))
                   sum) 0) BIT_SHIFT)) s1)
       (for_ 0 w (fun j s1 => store s1 dst (i * dps + j) 0) s0)) s)).
  { apply (for_ind Z0); [exact Hh| |].
    - split; [intros a _; reflexivity|intros; lia].
    - intros i s0 Hi [Hout Hz].
      (* the row is cleared *)
      assert (Hrow : Z0 (i + 1) (for_ 0 w (fun j s1 => store s1 dst (i * dps + j) 0) s0)).
      { pose (Zr := fun (j : Z) (s' : ADMData) =>
                same_outside (rect dst dps w h) s s' /\
                (forall i' j', 0 <= i' < i -> 0 <= j' < w -> load s' dst (i' * dps + j') = 0) /\
                forall j', 0 <= j' < j -> load s' dst (i * dps + j') = 0).
        assert (Hr : Zr w (for_ 0 w (fun j s1 => store s1 dst (i * dps + j) 0) s0)).
        { apply (for_ind Zr); [exact Hw| |].
          - split; [exact Hout|split; [exact Hz|intros; lia]].
          - intros j s1 Hj (Ho1 & Hz1 & Hr1). split; [|split].
            + intros a Ha. rewrite rd_store_ne; [apply Ho1, Ha|].
              intros ->. apply Ha. apply rect_cell; assumption.
            + intros i' j' Hi' Hj'. apply rd_store_zero. apply Hz1; assumption.
            + intros j' Hj'. destruct (Z.eq_dec j' j) as [->|Hne].
              * apply rd_store_eq.
              * apply rd_store_zero. apply Hr1. lia. }
        destruct Hr as (Ho1 & Hz1 & Hr1). split; [exact Ho1|].
        intros i' j Hi' Hj. destruct (Z.eq_dec i' i) as [->|Hne].
        - apply Hr1, Hj.
        - apply Hz1; [lia|exact Hj]. }
      (* the three accumulation passes add 0 *)
      unfold for_ at 1.
      apply (for_from_inv (Z0 (i + 1))); [|exact Hrow].
      intros theta s1 H1.
      apply (for_ind (fun _ => Z0 (i + 1))); [exact Hw|exact H1|].
      intros j s2 Hj [Ho2 Hz2].
      rewrite (cm_sum_zero (fun filt_i filt_j =>
                 FFABS (load s2 (nth (Z.to_nat theta) [band_h src; band_v src; band_d src] 0)
                          (mirror h (i - 1 + filt_i) * sps + mirror w (j - 1 + filt_j))))).
      change (Z.shiftr 0 BIT_SHIFT) with 0.
      rewrite (Hz2 i j) by lia. change (0 + 0) with 0.
      split.
      + intros a Ha. rewrite rd_store_ne; [apply Ho2, Ha|].
        intros ->. apply Ha. apply rect_cell; [lia|assumption].
      + intros i' j' Hi' Hj'. apply rd_store_zero. apply Hz2; assumption. }
  exact H.
Qed.

(** [adm_cm_thresh] leaves 0 in every sample of the threshold plane,
    whatever the source planes hold and wherever they lie, and writes
    nothing else. *)
Theorem adm_cm_thresh_all_zero src dst w h ss ds s :
  same_outside (rect dst (ds / 2) w h) s (adm_cm_thresh src dst w h ss ds s) /\
  forall i j, 0 <= i < h -> 0 <= j < w ->
    load (adm_cm_thresh src dst w h ss ds s) dst (i * (ds / 2) + j) = 0.
Proof. exact (adm_cm_thresh_cells src dst w h ss ds s). Qed.

Lemma adm_cm_thresh_wf src dst w h ss ds s :
  wf_mem s -> wf_mem (adm_cm_thresh src dst w h ss ds s).
Proof.
  intros Hwf. unfold adm_cm_thresh. cbv zeta.
  repeat first [apply for_range_inv; [|intros ? ? ? ?] | apply wf_store | assumption].
Qed.

(** Masking after thresholding: since [adm_cm_thresh] leaves only
    zeros in the threshold plane, [adm_cm] run on its result stores the
    magnitude of every source sample, unreduced. *)
Theorem adm_cm_after_thresh srca src dst thresh w h sa ss ds ts s :
  wf_mem s -> w <= ss / 2 -> w <= ds / 2 -> w <= ts / 2 ->
  pairwise (apart h)
    [(band_h dst, ds / 2); (band_v dst, ds / 2); (band_d dst, ds / 2)] ->
  Forall (fun d => Forall (apart h d)
                     [(band_h src, ss / 2); (band_v src, ss / 2); (band_d src, ss / 2);
                      (thresh, ts / 2)])
    [(band_h dst, ds / 2); (band_v dst, ds / 2); (band_d dst, ds / 2)] ->
  Forall (apart h (thresh, ts / 2))
    [(band_h src, ss / 2); (band_v src, ss / 2); (band_d src, ss / 2)] ->
  forall i j, 0 <= i < h -> 0 <= j < w ->
    load (adm_cm src dst thresh w h ss ds ts (adm_cm_thresh srca thresh w h sa ts s))
         (band_h dst) (i * (ds / 2) + j)
    = wrap16 (Z.abs (load s (band_h src) (i * (ss / 2) + j))) /\
    load (adm_cm src dst thresh w h ss ds ts (adm_cm_thresh srca thresh w h sa ts s))
         (band_v dst) (i * (ds / 2) + j)
    = wrap16 (Z.abs (load s (band_v src) (i * (ss / 2) + j))) /\
    load (adm_cm src dst thresh w h ss ds ts (adm_cm_thresh srca thresh w h sa ts s))
         (band_d dst) (i * (ds / 2) + j)
    = wrap16 (Z.abs (load s (band_d src) (i * (ss / 2) + j))).
Proof.
  intros Hwf Hss Hds Hts Hdd Hdsrc Hts' i j Hi Hj.
  destruct (adm_cm_thresh_cells srca thresh w h sa ts s) as [Tout Tz].
  set (s1 := adm_cm_thresh srca thresh w h sa ts s) in *.
  pose proof (adm_cm_thresh_wf srca thresh w h sa ts s Hwf) as Hwf1. fold s1 in Hwf1.
  destruct (adm_cm_cells src dst thresh w h ss ds ts s1 Hwf1 Hss Hds Hts Hdd Hdsrc) as [_ Hv].
  destruct (Hv i j Hi Hj) as (-> & -> & ->).
  rewrite (Tz i j Hi Hj). rewrite !Z.sub_0_r.
  rewrite !Forall_cons in Hts'. destruct Hts' as (Th & Tv & Td & _).
  assert (Hsrc : forall p, apart h (thresh, ts / 2) (p, ss / 2) ->
            load s1 p (i * (ss / 2) + j) = load s p (i * (ss / 2) + j)).
  { intros p Hp. unfold load. apply Tout. intros R.
    apply (apart_rect h _ _ w w _ Hp Hts Hss R). apply rect_cell; assumption. }
  rewrite (Hsrc _ Th), (Hsrc _ Tv), (Hsrc _ Td).
  rewrite !Z.max_r by lia. repeat split.
Qed.

Lemma adm_cm_after_thresh_witness :
  load (adm_cm (csf_r (adm_layout 32 8)) (cm_r (adm_layout 32 8)) (mta (adm_layout 32 8)) 16 4
          (buf_stride (adm_layout 32 8)) (buf_stride (adm_layout 32 8))
          (buf_stride (adm_layout 32 8))
          (adm_cm_thresh (csf_a (adm_layout 32 8)) (mta (adm_layout 32 8)) 16 4
             (buf_stride (adm_layout 32 8)) (buf_stride (adm_layout 32 8))
             (store (fresh_ctx 32 8 8) (band_h (csf_r (adm_layout 32 8)))
                    (3 * (buf_stride (adm_layout 32 8) / 2) + 15) (-7))))
       (band_h (cm_r (adm_layout 32 8))) (3 * (buf_stride (adm_layout 32 8) / 2) + 15)
  = wrap16 (Z.abs (load (store (fresh_ctx 32 8 8) (band_h (csf_r (adm_layout 32 8)))
                                (3 * (buf_stride (adm_layout 32 8) / 2) + 15) (-7))
                        (band_h (csf_r (adm_layout 32 8)))
                        (3 * (buf_stride (adm_layout 32 8) / 2) + 15))).
Proof.
  refine (proj1 (adm_cm_after_thresh (csf_a (adm_layout 32 8)) (csf_r (adm_layout 32 8))
            (cm_r (adm_layout 32 8)) (mta (adm_layout 32 8)) 16 4
            (buf_stride (adm_layout 32 8)) (buf_stride (adm_layout 32 8))
            (buf_stride (adm_layout 32 8)) (buf_stride (adm_layout 32 8))
            (store (fresh_ctx 32 8 8) (band_h (csf_r (adm_layout 32 8)))
                   (3 * (buf_stride (adm_layout 32 8) / 2) + 15) (-7))
            _ _ _ _ _ _ _ 3 15 _ _)).
  - apply wf_store, wf_fresh.
  - vm_compute. discriminate.
  - vm_compute. discriminate.
  - vm_compute. discriminate.
  - sep.
  - sep.
  - sep.
  - lia.
  - lia.
Defined.

(** ** What the stages write *)

Lemma confined_refl C T s : confined C T s s.
Proof. repeat split; reflexivity. Qed.

Lemma confined_mono (C C' T T' : Z -> Prop) s s' :
  (forall a, C a -> C' a) -> (forall j, T j -> T' j) ->
  confined C T s s' -> confined C' T' s s'.
Proof.
  intros HC HT (H1 & H2 & H3 & H4 & H5 & H6).
  repeat split; try assumption.
  - intros a Ha. apply H4. intros Hc. apply Ha, HC, Hc.
  - intros j Hj. apply H5. intros Ht. apply Hj, HT, Ht.
  - intros j Hj. apply H6. intros Ht. apply Hj, HT, Ht.
Qed.

Lemma confined_trans C T s1 s2 s3 :
  confined C T s1 s2 -> confined C T s2 s3 -> confined C T s1 s3.
Proof.
  intros (H1 & H2 & H3 & H4 & H5 & H6) (G1 & G2 & G3 & G4 & G5 & G6).
  repeat split; try congruence.
  - intros a Ha. rewrite G4, H4 by assumption. reflexivity.
  - intros j Hj. rewrite G5, H5 by assumption. reflexivity.
  - intros j Hj. rewrite G6, H6 by assumption. reflexivity.
Qed.

Lemma store_confined C T s0 s p idx v :
  confined C T s0 s -> C (cell p idx) -> confined C T s0 (store s p idx v).
Proof.
  intros (H1 & H2 & H3 & H4 & H5 & H6) Hc.
  repeat split; try assumption.
  intros a Ha. rewrite rd_store_ne; [apply H4, Ha|]. intros ->. apply Ha, Hc.
Qed.

Lemma temp_lo_confined C T s0 s j v :
  confined C T s0 s -> T j -> confined C T s0 (set_temp_lo s (wr (temp_lo s) j v)).
Proof.
  intros (H1 & H2 & H3 & H4 & H5 & H6) Ht.
  repeat split; try assumption. cbn [set_temp_lo temp_lo].
  intros j' Hj'. rewrite rd_wr_ne; [apply H5, Hj'|]. intros ->. apply Hj', Ht.
Qed.

Lemma temp_hi_confined C T s0 s j v :
  confined C T s0 s -> T j -> confined C T s0 (set_temp_hi s (wr (temp_hi s) j v)).
Proof.
  intros (H1 & H2 & H3 & H4 & H5 & H6) Ht.
  repeat split; try assumption. cbn [set_temp_hi temp_hi].
  intros j' Hj'. rewrite rd_wr_ne; [apply H6, Hj'|]. intros ->. apply Hj', Ht.
Qed.

Lemma rects_cell l p ps w h i j :
  In p l -> 0 <= i < h -> 0 <= j < w -> rects l ps w h (cell p (i * ps + j)).
Proof. intros Hp Hi Hj. exists p. split; [exact Hp|apply rect_cell; assumption]. Qed.

Ltac confined_step :=
  first
    [ apply for_range_inv; [|intros ? ? ? ?]
    | apply store_confined; [|apply rects_cell; [cbn [In]; tauto|lia|lia]]
    | apply temp_lo_confined; [|cbn beta; lia]
    | apply temp_hi_confined; [|cbn beta; lia]
    | assumption
    | apply confined_refl ].

Lemma adm_buffer_copy_confined T src dst linewidth h ss ds s :
  confined (rects [dst] (ds / 2) (linewidth / 2) h) T s
    (adm_buffer_copy src dst linewidth h ss ds s).
Proof. unfold adm_buffer_copy. repeat confined_step. Qed.

Lemma adm_csf_confined T src dst orig_h scale w h ss ds s :
  confined (rects [band_h dst; band_v dst; band_d dst] (ds / 2) w h) T s
    (adm_csf src dst orig_h scale w h ss ds s).
Proof.
  unfold adm_csf. cbv zeta.
  apply for_range_inv; [apply confined_refl|]. intros theta s1 Ht H1.
  assert (Hin : In (nth (Z.to_nat theta) [band_h dst; band_v dst; band_d dst] 0)
                   [band_h dst; band_v dst; band_d dst]).
  { apply nth_In. cbn [length]. lia. }
  apply for_range_inv; [exact H1|]. intros i s2 Hi H2.
  apply for_range_inv; [exact H2|]. intros j s3 Hj H3.
  apply store_confined; [exact H3|]. apply rects_cell; assumption.
Qed.

Lemma adm_cm_thresh_confined T src dst w h ss ds s :
  confined (rects [dst] (ds / 2) w h) T s (adm_cm_thresh src dst w h ss ds s).
Proof. unfold adm_cm_thresh. cbv zeta. repeat confined_step. Qed.

Lemma adm_cm_confined T src dst thresh w h ss ds ts s :
  confined (rects [band_h dst; band_v dst; band_d dst] (ds / 2) w h) T s
    (adm_cm src dst thresh w h ss ds ts s).
Proof. unfold adm_cm. cbv zeta. repeat confined_step. Qed.

Lemma adm_decouple_confined T ref main r a w h rs ms rst ast s s' :
  adm_decouple ref main r a w h rs ms rst ast s = Some s' ->
  confined (fun c => rects [band_h r; band_v r; band_d r] (rst / 2) w h c \/
                     rects [band_h a; band_v a; band_d a] (ast / 2) w h c) T s s'.
Proof.
  unfold adm_decouple. cbv zeta.
  apply forM_range_inv; [apply confined_refl|]. intros i s1 s2 Hi H1.
  apply forM_range_inv; [exact H1|]. intros j s3 s4 Hj H3.
  destruct (decouple_one _ _ _) as [[rh ah]|]; [|discriminate].
  destruct (decouple_one _ _ _) as [[rv av]|]; [|discriminate].
  destruct (decouple_one _ _ _) as [[rd_ ad]|]; [|discriminate].
  intros [= <-].
  repeat (apply store_confined;
          [|first [left; apply rects_cell; [cbn [In]; tauto|lia|lia]
                  |right; apply rects_cell; [cbn [In]; tauto|lia|lia]]]).
  exact H3.
Qed.

Lemma adm_dwt2_confined src dst sps ds s :
  confined (rects [band_a dst; band_h dst; band_v dst; band_d dst] (ds / 2)
              ((width s + 1) `quot` 2) ((height s + 1) `quot` 2))
           (fun j => 0 <= j < width s) s (adm_dwt2 src dst sps ds s).
Proof.
  unfold adm_dwt2. cbv zeta.
  apply for_range_inv; [apply confined_refl|]. intros i s1 Hi H1.
  apply for_range_inv.
  - apply for_range_inv.
    + apply for_range_inv; [exact H1|]. intros j s2 Hj H2.
      destruct (dwt_filter _ _ _) as [lo hi].
      apply temp_hi_confined; [|exact Hj]. apply temp_lo_confined; [|exact Hj]. exact H2.
    + intros j s2 Hj H2. destruct (dwt_filter _ _ _) as [lo hi].
      repeat (apply store_confined; [|apply rects_cell; [cbn [In]; tauto|lia|lia]]).
      exact H2.
  - intros j s2 Hj H2. destruct (dwt_filter _ _ _) as [lo hi].
    repeat (apply store_confined; [|apply rects_cell; [cbn [In]; tauto|lia|lia]]).
    exact H2.
Qed.

Lemma view_ptr_cases w h p :
  In p (view_ptrs (adm_layout w h)) ->
  exists k, 0 <= k < 35 /\ p = k * (buf_stride (adm_layout w h) * ((h + 1) `quot` 2)).
Proof.
  intros Hp. destruct (view_ptrs_consecutive w h) as [E1 _]. rewrite E1 in Hp.
  cbn [map In] in Hp.
  repeat (destruct Hp as [Hp|Hp];
          [match type of Hp with ?k * _ = _ => exists k end; split; [lia|symmetry; exact Hp]|]).
  contradiction.
Qed.

Lemma rects_in_arena W H l w h a :
  0 <= W -> 0 <= H -> incl l (view_ptrs (adm_layout W H)) ->
  w <= (W + 1) `quot` 2 -> h <= (H + 1) `quot` 2 ->
  rects l (buf_stride (adm_layout W H) / 2) w h a -> in_arena W H a.
Proof.
  intros HW HH Hl Hw Hh (p & Hp & i & j & Hi & Hj & ->).
  apply Hl in Hp. destruct (view_ptr_cases W H p Hp) as (k & Hk & ->).
  unfold in_arena. destruct (view_ptrs_consecutive W H) as [_ E2]. rewrite E2.
  rewrite buf_stride_indep in *.
  destruct (buf_stride_facts W HW) as (ps & Eps & Hps & _). rewrite Eps in *.
  set (H2 := (H + 1) `quot` 2) in *.
  replace (2 * ps / 2) with ps by (apply Z.div_unique_exact; lia).
  unfold cell.
  replace (k * (2 * ps * H2) / 2) with (k * (ps * H2))
    by (apply Z.div_unique_exact; lia).
  assert (0 <= i * ps + j < ps * H2) by nia.
  nia.
Qed.

Lemma row_in_temp W H j : 0 <= j < W -> in_temp W H j.
Proof.
  intros Hj. unfold in_temp. cbn [ff_adm_init_alloc temp_lo_sz temp_hi_sz].
  destruct (ALIGN_CEIL_bounds (W * 2) ltac:(lia)) as [[H1 _] _]. lia.
Qed.

Lemma confined_then (C T C' T' : Z -> Prop) s0 s1 s2 :
  confined C' T' s1 s2 -> (forall a, C' a -> C a) -> (forall j, T' j -> T j) ->
  confined C T s0 s1 -> confined C T s0 s2.
Proof.
  intros H12 HC HT H01. apply (confined_trans _ _ s0 s1 s2 H01).
  apply (confined_mono C' C T' T); assumption.
Qed.

Ltac view_incl :=
  let p := fresh "p" in let Hp := fresh "Hp" in
  intros p Hp; cbn [In] in Hp; unfold view_ptrs, band_ptrs; cbn [app In];
  repeat (destruct Hp as [<-|Hp]; [tauto|]); contradiction.

Lemma adm_scale_confined W H ref main scale st st' :
  0 <= W -> 0 <= H -> width (ctx st) = W -> height (ctx st) = H ->
  0 <= cur_w st <= W -> 0 <= cur_h st <= H ->
  adm_scale (adm_layout W H) ref main scale st = Some st' ->
  confined (in_arena W H) (in_temp W H) (ctx st) (ctx st') /\
  0 <= cur_w st' <= W /\ 0 <= cur_h st' <= H.
Proof.
  intros HW HH Ew Eh Hcw Hch. unfold adm_scale. cbv zeta.
  set (v := adm_layout W H). set (bs := buf_stride v).
  assert (Hw2 : 0 <= (cur_w st + 1) `quot` 2 <= cur_w st + 0 * W /\
                (cur_w st + 1) `quot` 2 <= (W + 1) `quot` 2 /\
                0 <= (cur_h st + 1) `quot` 2 <= cur_h st /\
                (cur_h st + 1) `quot` 2 <= (H + 1) `quot` 2).
  { Z.to_euclidean_division_equations. lia. }
  set (w := (cur_w st + 1) `quot` 2) in *. set (h := (cur_h st + 1) `quot` 2) in *.
  assert (Hdwt : forall src dst sps s1,
            width s1 = W -> height s1 = H ->
            incl [band_a dst; band_h dst; band_v dst; band_d dst] (view_ptrs v) ->
            confined (in_arena W H) (in_temp W H) s1 (adm_dwt2 src dst sps bs s1)).
  { intros src dst sps s1 E1 E2 Hin.
    eapply confined_mono; [| |apply adm_dwt2_confined].
    - intros a. apply (rects_in_arena W H); try assumption; rewrite ?E1, ?E2; lia.
    - intros j Hj. apply row_in_temp. cbn beta in Hj. rewrite E1 in Hj. exact Hj. }
  set (sD := if scale =? 0 then _ else _).
  assert (HD : confined (in_arena W H) (in_temp W H) (ctx st) sD).
  { assert (G : forall src1 src2 sps1 sps2,
              confined (in_arena W H) (in_temp W H) (ctx st)
                (adm_dwt2 src2 (main_dwt2 v) sps2 bs
                   (adm_dwt2 src1 (ref_dwt2 v) sps1 bs (ctx st)))).
    { intros src1 src2 sps1 sps2.
      assert (G1 : confined (in_arena W H) (in_temp W H) (ctx st)
                     (adm_dwt2 src1 (ref_dwt2 v) sps1 bs (ctx st))).
      { apply Hdwt; [assumption|assumption|view_incl]. }
      apply (confined_trans _ _ _ _ _ G1).
      destruct G1 as (G1w & G1h & _).
      apply Hdwt; [congruence|congruence|view_incl]. }
    subst sD. unfold adm_dwt2_8bit, adm_dwt2_10bit, adm_dwt2_32bit.
    destruct (scale =? 0); [destruct (depth (ctx st) <=? 8)|]; apply G. }
  clearbody sD.
  destruct (adm_decouple _ _ _ _ _ _ _ _ _ _ sD) as [s1|] eqn:Edec; [|discriminate].
  intros E'.
  apply (f_equal (fun o => match o with Some x => x | None => st end)) in E'.
  cbv beta iota in E'. rewrite <- E'. cbn [ctx cur_w cur_h].
  split; [|lia].
  pose proof (adm_decouple_confined (in_temp W H) _ _ _ _ _ _ _ _ _ _ _ _ Edec) as H1.
  assert (Hin : forall l ww hh a, incl l (view_ptrs v) -> ww <= w -> hh <= h ->
                  rects l (bs / 2) ww hh a -> in_arena W H a).
  { intros l ww hh a Hl Hww Hhh. apply (rects_in_arena W H l ww hh a HW HH Hl); lia. }
  eapply confined_then;
    [apply adm_buffer_copy_confined
    |intros a; apply Hin; [view_incl|rewrite Z.div_mul by lia; lia|lia]
    |intros j Hj; exact Hj|].
  eapply confined_then;
    [apply adm_buffer_copy_confined
    |intros a; apply Hin; [view_incl|rewrite Z.div_mul by lia; lia|lia]
    |intros j Hj; exact Hj|].
  eapply confined_then;
    [apply adm_cm_confined|intros a; apply Hin; [view_incl|lia|lia]|intros j Hj; exact Hj|].
  eapply confined_then;
    [apply adm_cm_thresh_confined|intros a; apply Hin; [view_incl|lia|lia]
    |intros j Hj; exact Hj|].
  do 3 (eapply confined_then;
    [apply adm_csf_confined|intros a; apply Hin; [view_incl|lia|lia]|intros j Hj; exact Hj|]).
  eapply confined_then; [exact H1| |intros j Hj; exact Hj|exact HD].
  intros a [Ha|Ha]; revert Ha; apply Hin; first [view_incl|lia].
Qed.

(** [ff_adm_process], when it returns, has written only inside the
    three allocations of [ff_adm_init] for the configured size, and has
    left the configuration (width, height, depth) as it was. *)
Theorem ff_adm_process_confined s ref main s' out :
  0 <= width s -> 0 <= height s ->
  ff_adm_process s ref main = Some (s', out) ->
  confined (in_arena (width s) (height s)) (in_temp (width s) (height s)) s s'.
Proof.
  intros HW HH. unfold ff_adm_process. cbv zeta.
  destruct (forM 0 4 _ _) as [st|] eqn:E; [|discriminate].
  intros [= <- _].
  set (W := width s) in *. set (H := height s) in *.
  pose (P := fun st : adm_loop =>
          confined (in_arena W H) (in_temp W H) s (ctx st) /\
          0 <= cur_w st <= W /\ 0 <= cur_h st <= H).
  assert (HP : P st).
  { revert E. apply (forM_range_inv P).
    - unfold P. cbn [ctx cur_w cur_h]. split; [apply confined_refl|lia].
    - intros k st1 st2 Hk (Hc & Hw & Hh) Hs.
      destruct Hc as (Ew & Eh & Hc').
      destruct (adm_scale_confined W H ref main k st1 st2 HW HH Ew Eh Hw Hh Hs)
        as (Hc2 & Hw2 & Hh2).
      split; [|split; assumption].
      apply (confined_trans _ _ s (ctx st1) (ctx st2)); [|exact Hc2].
      split; [exact Ew|split; [exact Eh|exact Hc']]. }
  apply HP.
Qed.

Lemma ff_adm_process_confined_witness :
  exists s' out,
    ff_adm_process (fresh_ctx 32 2 8) (flat_frame 32 2 128) (flat_frame 32 2 128)
    = Some (s', out) /\
    confined (in_arena 32 2) (in_temp 32 2) (fresh_ctx 32 2 8) s'.
Proof.
  destruct flat_pair_defined as [[s' out] E]. exists s', out. split; [exact E|].
  apply (ff_adm_process_confined (fresh_ctx 32 2 8) _ _ _ _
           ltac:(vm_compute; discriminate) ltac:(vm_compute; discriminate) E).
Defined.

(** ** The decoupling loop *)

Lemma pairwise_nth {A : Type} (R : A -> A -> Prop) (l : list A) (d : A) :
  pairwise R l -> forall m n, (m < n < length l)%nat -> R (nth m l d) (nth n l d).
Proof.
  induction l as [|x l IH]; intros Hp m n Hmn; cbn [length] in Hmn; [lia|].
  cbn [pairwise] in Hp. destruct Hp as [Hx Hl].
  destruct n as [|n]; [lia|]. destruct m as [|m]; cbn [nth].
  - rewrite List.Forall_forall in Hx. apply Hx. apply nth_In. lia.
  - apply IH; [exact Hl|lia].
Qed.

Lemma Forall_nth_lt {A : Type} (P : A -> Prop) (l : list A) (d : A) :
  Forall P l -> forall n, (n < length l)%nat -> P (nth n l d).
Proof.
  intros H n Hn. rewrite List.Forall_forall in H. apply H. apply nth_In. exact Hn.
Qed.

Lemma decouple_one_int16 flag o t r a :
  decouple_one flag o t = Some (r, a) -> in_int16 r /\ in_int16 a.
Proof.
  unfold decouple_one, decouple_r, decouple_a.
  destruct (to_int16 (ceilZ (decouple_tmp flag o t))) as [r'|] eqn:Er; [|discriminate].
  destruct (to_int16 (ceilZ (F32.sub (F32.of_int t) (decouple_tmp flag o t)))) as [a'|] eqn:Ea;
    [|discriminate].
  intros [= <- <-].
  apply to_int16_Some in Er. apply to_int16_Some in Ea. tauto.
Qed.

Section Decouple.
Variables (ref main r a : adm_dwt_band_t) (w h rs ms rst ast : Z) (s : ADMData).

Let dec_dst : list (Z * Z) :=
  [(band_h r, rst / 2); (band_v r, rst / 2); (band_d r, rst / 2);
   (band_h a, ast / 2); (band_v a, ast / 2); (band_d a, ast / 2)].
Let dec_src : list (Z * Z) :=
  [(band_h ref, rs / 2); (band_v ref, rs / 2); (band_d ref, rs / 2);
   (band_h main, ms / 2); (band_v main, ms / 2); (band_d main, ms / 2)].
Let dec_cell (k i j : Z) : Z :=
  cell (fst (nth (Z.to_nat k) dec_dst (0, 0))) (i * snd (nth (Z.to_nat k) dec_dst (0, 0)) + j).
Let dec_sel (k : Z) : adm_dwt_band_t -> Z :=
  if (k =? 0) || (k =? 3) then band_h else if (k =? 1) || (k =? 4) then band_v else band_d.
Let dec_post (k i j v : Z) : Prop :=
  exists x y, decouple_at ref main (rs / 2) (ms / 2) s (dec_sel k) i j = Some (x, y) /\
              v = if k <? 3 then x else y.
Let dec_body (i j : Z) (s : ADMData) : option ADMData :=
  let oh := load s (band_h ref) (i * (rs / 2) + j) in
  let ov := load s (band_v ref) (i * (rs / 2) + j) in
  let od := load s (band_d ref) (i * (rs / 2) + j) in
  let th := load s (band_h main) (i * (ms / 2) + j) in
  let tv := load s (band_v main) (i * (ms / 2) + j) in
  let td := load s (band_d main) (i * (ms / 2) + j) in
  let flag := angle_flag oh ov th tv in
  match decouple_one flag oh th, decouple_one flag ov tv, decouple_one flag od td with
  | Some (rh, ah), Some (rv, av), Some (rd_, ad) =>
      let s := store s (band_h r) (i * (rst / 2) + j) rh in
      let s := store s (band_v r) (i * (rst / 2) + j) rv in
      let s := store s (band_d r) (i * (rst / 2) + j) rd_ in
      let s := store s (band_h a) (i * (ast / 2) + j) ah in
      let s := store s (band_v a) (i * (ast / 2) + j) av in
      Some (store s (band_d a) (i * (ast / 2) + j) ad)
  | _, _, _ => None
  end.

Hypothesis Hrs : w <= rs / 2.
Hypothesis Hms : w <= ms / 2.
Hypothesis Hrst : w <= rst / 2.
Hypothesis Hast : w <= ast / 2.
Hypothesis Hdd : pairwise (apart h) dec_dst.
Hypothesis Hds : Forall (fun d => Forall (apart h d) dec_src) dec_dst.

Lemma dec_stride_D k : 0 <= k < 6 -> w <= snd (nth (Z.to_nat k) dec_dst (0, 0)).
Proof.
  intros Hk. assert (E : k = 0 \/ k = 1 \/ k = 2 \/ k = 3 \/ k = 4 \/ k = 5) by lia.
  destruct E as [->|[->|[->|[->|[->| ->]]]]]; cbn; assumption.
Qed.

Lemma dec_stride_S k : 0 <= k < 6 -> w <= snd (nth (Z.to_nat k) dec_src (0, 0)).
Proof.
  intros Hk. assert (E : k = 0 \/ k = 1 \/ k = 2 \/ k = 3 \/ k = 4 \/ k = 5) by lia.
  destruct E as [->|[->|[->|[->|[->| ->]]]]]; cbn; assumption.
Qed.

Lemma dec_apart_D k k' :
  0 <= k < 6 -> 0 <= k' < 6 -> k <> k' ->
  apart h (nth (Z.to_nat k) dec_dst (0, 0)) (nth (Z.to_nat k') dec_dst (0, 0)).
Proof.
  intros Hk Hk' Hne. destruct (Z_lt_le_dec k k').
  - apply pairwise_nth; [exact Hdd|]. cbn [length dec_dst]. lia.
  - apply apart_sym. apply pairwise_nth; [exact Hdd|]. cbn [length dec_dst]. lia.
Qed.

Lemma dec_apart_S k k' :
  0 <= k < 6 -> 0 <= k' < 6 ->
  apart h (nth (Z.to_nat k) dec_dst (0, 0)) (nth (Z.to_nat k') dec_src (0, 0)).
Proof.
  intros Hk Hk'.
  apply (Forall_nth_lt _ dec_src); [|cbn [length dec_src]; lia].
  apply (Forall_nth_lt (fun d => Forall (apart h d) dec_src) dec_dst);
    [exact Hds|cbn [length dec_dst]; lia].
Qed.

Lemma dec_rect k i j :
  0 <= k < 6 -> 0 <= i < h -> 0 <= j < w ->
  rect (fst (nth (Z.to_nat k) dec_dst (0, 0))) (snd (nth (Z.to_nat k) dec_dst (0, 0))) w h
       (dec_cell k i j).
Proof. intros Hk Hi Hj. apply rect_cell; assumption. Qed.

Lemma dec_inj k i j k' i' j' :
  0 <= k < 6 -> 0 <= i < h -> 0 <= j < w ->
  0 <= k' < 6 -> 0 <= i' < h -> 0 <= j' < w ->
  dec_cell k i j = dec_cell k' i' j' -> k = k' /\ i = i' /\ j = j'.
Proof.
  intros Hk Hi Hj Hk' Hi' Hj' E.
  destruct (Z.eq_dec k k') as [->|Hkk].
  - apply cell_inj in E. apply rect_index_inj with (w := w) in E;
      [lia|lia|lia|pose proof (dec_stride_D k' Hk'); lia].
  - exfalso.
    pose proof (dec_apart_D k k' Hk Hk' Hkk) as Ha.
    destruct (nth (Z.to_nat k) dec_dst (0, 0)) as [p ps] eqn:E1.
    destruct (nth (Z.to_nat k') dec_dst (0, 0)) as [p' ps'] eqn:E2.
    apply (apart_rect h (p, ps) (p', ps') w w (dec_cell k i j) Ha).
    + pose proof (dec_stride_D k Hk) as H1. rewrite E1 in H1. exact H1.
    + pose proof (dec_stride_D k' Hk') as H1. rewrite E2 in H1. exact H1.
    + pose proof (dec_rect k i j Hk Hi Hj) as H1. rewrite E1 in H1. exact H1.
    + rewrite E. pose proof (dec_rect k' i' j' Hk' Hi' Hj') as H1. rewrite E2 in H1. exact H1.
Qed.

Lemma dec_src_stable k i j s1 :
  0 <= k < 6 -> 0 <= i < h -> 0 <= j < w ->
  same_outside (written h w 6 dec_cell) s s1 ->
  load s1 (fst (nth (Z.to_nat k) dec_src (0, 0))) (i * snd (nth (Z.to_nat k) dec_src (0, 0)) + j)
  = load s (fst (nth (Z.to_nat k) dec_src (0, 0))) (i * snd (nth (Z.to_nat k) dec_src (0, 0)) + j).
Proof.
  intros Hk Hi Hj Hst. unfold load. apply Hst.
  intros (k2 & i2 & j2 & Hk2 & Hi2 & Hj2 & E).
  pose proof (dec_apart_S k2 k Hk2 Hk) as Ha.
  destruct (nth (Z.to_nat k2) dec_dst (0, 0)) as [p ps] eqn:E1.
  destruct (nth (Z.to_nat k) dec_src (0, 0)) as [p' ps'] eqn:E2.
  cbn [fst snd] in *.
  apply (apart_rect h (p, ps) (p', ps') w w (cell p' (i * ps' + j)) Ha).
  - pose proof (dec_stride_D k2 Hk2) as H1. rewrite E1 in H1. exact H1.
  - pose proof (dec_stride_S k Hk) as H1. rewrite E2 in H1. exact H1.
  - rewrite E. pose proof (dec_rect k2 i2 j2 Hk2 Hi2 Hj2) as H1. rewrite E1 in H1. exact H1.
  - apply rect_cell; assumption.
Qed.

Lemma dec_body_stable i j s1 :
  0 <= i < h -> 0 <= j < w -> same_outside (written h w 6 dec_cell) s s1 ->
  dec_body i j s1 =
  match decouple_at ref main (rs / 2) (ms / 2) s band_h i j,
        decouple_at ref main (rs / 2) (ms / 2) s band_v i j,
        decouple_at ref main (rs / 2) (ms / 2) s band_d i j with
  | Some (rh, ah), Some (rv, av), Some (rd_, ad) =>
      Some (store (store (store (store (store (store s1
        (band_h r) (i * (rst / 2) + j) rh) (band_v r) (i * (rst / 2) + j) rv)
        (band_d r) (i * (rst / 2) + j) rd_) (band_h a) (i * (ast / 2) + j) ah)
        (band_v a) (i * (ast / 2) + j) av) (band_d a) (i * (ast / 2) + j) ad)
  | _, _, _ => None
  end.
Proof.
  intros Hi Hj Hst. unfold dec_body, decouple_at. cbv zeta.
  assert (E0 : load s1 (band_h ref) (i * (rs / 2) + j) = load s (band_h ref) (i * (rs / 2) + j))
    by exact (dec_src_stable 0 i j s1 ltac:(lia) Hi Hj Hst).
  assert (E1 : load s1 (band_v ref) (i * (rs / 2) + j) = load s (band_v ref) (i * (rs / 2) + j))
    by exact (dec_src_stable 1 i j s1 ltac:(lia) Hi Hj Hst).
  assert (E2 : load s1 (band_d ref) (i * (rs / 2) + j) = load s (band_d ref) (i * (rs / 2) + j))
    by exact (dec_src_stable 2 i j s1 ltac:(lia) Hi Hj Hst).
  assert (E3 : load s1 (band_h main) (i * (ms / 2) + j) = load s (band_h main) (i * (ms / 2) + j))
    by exact (dec_src_stable 3 i j s1 ltac:(lia) Hi Hj Hst).
  assert (E4 : load s1 (band_v main) (i * (ms / 2) + j) = load s (band_v main) (i * (ms / 2) + j))
    by exact (dec_src_stable 4 i j s1 ltac:(lia) Hi Hj Hst).
  assert (E5 : load s1 (band_d main) (i * (ms / 2) + j) = load s (band_d main) (i * (ms / 2) + j))
    by exact (dec_src_stable 5 i j s1 ltac:(lia) Hi Hj Hst).
  rewrite E0, E1, E2, E3, E4, E5. reflexivity.
Qed.

Lemma dec_foot i j s1 s2 c :
  0 <= i < h -> 0 <= j < w -> dec_body i j s1 = Some s2 ->
  (forall k, 0 <= k < 6 -> c <> dec_cell k i j) ->
  rd (data_buf s2) c = rd (data_buf s1) c.
Proof.
  intros Hi Hj E Hc. unfold dec_body in E. cbv zeta in E.
  destruct (decouple_one _ _ _) as [[rh ah]|]; [|discriminate].
  destruct (decouple_one _ _ _) as [[rv av]|]; [|discriminate].
  destruct (decouple_one _ _ _) as [[rd_ ad]|]; [|discriminate].
  injection E as <-.
  rewrite !rd_store_ne; [reflexivity| | | | | |].
  - apply (Hc 0); lia.
  - apply (Hc 1); lia.
  - apply (Hc 2); lia.
  - apply (Hc 3); lia.
  - apply (Hc 4); lia.
  - apply (Hc 5); lia.
Qed.

Lemma dec_val i j s1 s2 k :
  0 <= i < h -> 0 <= j < w -> 0 <= k < 6 ->
  same_outside (written h w 6 dec_cell) s s1 -> dec_body i j s1 = Some s2 ->
  dec_post k i j (rd (data_buf s2) (dec_cell k i j)).
Proof.
  intros Hi Hj Hk Hst E. rewrite (dec_body_stable i j s1 Hi Hj Hst) in E.
  destruct (decouple_at _ _ _ _ _ band_h i j) as [[rh ah]|] eqn:Eh; [|discriminate].
  destruct (decouple_at _ _ _ _ _ band_v i j) as [[rv av]|] eqn:Ev; [|discriminate].
  destruct (decouple_at _ _ _ _ _ band_d i j) as [[rd_ ad]|] eqn:Ed; [|discriminate].
  injection E as <-.
  assert (Hne : forall k k', 0 <= k < 6 -> 0 <= k' < 6 -> k <> k' ->
                  dec_cell k i j <> dec_cell k' i j).
  { intros k1 k2 H1 H2 H12 E'. apply dec_inj in E'; try assumption. lia. }
  destruct (decouple_one_int16 _ _ _ _ _ Eh) as [Rh Ah].
  destruct (decouple_one_int16 _ _ _ _ _ Ev) as [Rv Av].
  destruct (decouple_one_int16 _ _ _ _ _ Ed) as [Rd Ad].
  unfold in_int16 in *.
  assert (Ek : k = 0 \/ k = 1 \/ k = 2 \/ k = 3 \/ k = 4 \/ k = 5) by lia.
  unfold dec_post.
  destruct Ek as [->|[->|[->|[->|[->| ->]]]]];
    cbn [dec_sel Z.eqb Pos.eqb orb Z.ltb Z.compare Pos.compare Pos.compare_cont].
  - exists rh, ah. split; [exact Eh|].
    rewrite rd_store_ne by exact (Hne 0 5 ltac:(lia) ltac:(lia) ltac:(lia)).
    rewrite rd_store_ne by exact (Hne 0 4 ltac:(lia) ltac:(lia) ltac:(lia)).
    rewrite rd_store_ne by exact (Hne 0 3 ltac:(lia) ltac:(lia) ltac:(lia)).
    rewrite rd_store_ne by exact (Hne 0 2 ltac:(lia) ltac:(lia) ltac:(lia)).
    rewrite rd_store_ne by exact (Hne 0 1 ltac:(lia) ltac:(lia) ltac:(lia)).
    change (dec_cell 0 i j) with (cell (band_h r) (i * (rst / 2) + j)).
    rewrite rd_store_eq. apply wrap16_small. lia.
  - exists rv, av. split; [exact Ev|].
    rewrite rd_store_ne by exact (Hne 1 5 ltac:(lia) ltac:(lia) ltac:(lia)).
    rewrite rd_store_ne by exact (Hne 1 4 ltac:(lia) ltac:(lia) ltac:(lia)).
    rewrite rd_store_ne by exact (Hne 1 3 ltac:(lia) ltac:(lia) ltac:(lia)).
    rewrite rd_store_ne by exact (Hne 1 2 ltac:(lia) ltac:(lia) ltac:(lia)).
    change (dec_cell 1 i j) with (cell (band_v r) (i * (rst / 2) + j)).
    rewrite rd_store_eq. apply wrap16_small. lia.
  - exists rd_, ad. split; [exact Ed|].
    rewrite rd_store_ne by exact (Hne 2 5 ltac:(lia) ltac:(lia) ltac:(lia)).
    rewrite rd_store_ne by exact (Hne 2 4 ltac:(lia) ltac:(lia) ltac:(lia)).
    rewrite rd_store_ne by exact (Hne 2 3 ltac:(lia) ltac:(lia) ltac:(lia)).
    change (dec_cell 2 i j) with (cell (band_d r) (i * (rst / 2) + j)).
    rewrite rd_store_eq. apply wrap16_small. lia.
  - exists rh, ah. split; [exact Eh|].
    rewrite rd_store_ne by exact (Hne 3 5 ltac:(lia) ltac:(lia) ltac:(lia)).
    rewrite rd_store_ne by exact (Hne 3 4 ltac:(lia) ltac:(lia) ltac:(lia)).
    change (dec_cell 3 i j) with (cell (band_h a) (i * (ast / 2) + j)).
    rewrite rd_store_eq. apply wrap16_small. lia.
  - exists rv, av. split; [exact Ev|].
    rewrite rd_store_ne by exact (Hne 4 5 ltac:(lia) ltac:(lia) ltac:(lia)).
    change (dec_cell 4 i j) with (cell (band_v a) (i * (ast / 2) + j)).
    rewrite rd_store_eq. apply wrap16_small. lia.
  - exists rd_, ad. split; [exact Ed|].
    change (dec_cell 5 i j) with (cell (band_d a) (i * (ast / 2) + j)).
    rewrite rd_store_eq. apply wrap16_small. lia.
Qed.

End Decouple.

(** [adm_decouple] over planes that do not overlap: it returns exactly
    when the three pairs of every position are defined, and then the
    restored and the additive planes hold, at every position, the pair
    computed from the samples the reference and distorted planes held
    on entry; nothing else is written. *)
Theorem adm_decouple_spec ref main r a w h rs ms rst ast s :
  w <= rs / 2 -> w <= ms / 2 -> w <= rst / 2 -> w <= ast / 2 ->
  pairwise (apart h)
    [(band_h r, rst / 2); (band_v r, rst / 2); (band_d r, rst / 2);
     (band_h a, ast / 2); (band_v a, ast / 2); (band_d a, ast / 2)] ->
  Forall (fun d => Forall (apart h d)
                     [(band_h ref, rs / 2); (band_v ref, rs / 2); (band_d ref, rs / 2);
                      (band_h main, ms / 2); (band_v main, ms / 2); (band_d main, ms / 2)])
    [(band_h r, rst / 2); (band_v r, rst / 2); (band_d r, rst / 2);
     (band_h a, ast / 2); (band_v a, ast / 2); (band_d a, ast / 2)] ->
  ((exists s', adm_decouple ref main r a w h rs ms rst ast s = Some s') <->
   (forall i j, 0 <= i < h -> 0 <= j < w ->
      decouple_at ref main (rs / 2) (ms / 2) s band_h i j <> None /\
      decouple_at ref main (rs / 2) (ms / 2) s band_v i j <> None /\
      decouple_at ref main (rs / 2) (ms / 2) s band_d i j <> None)) /\
  (forall s', adm_decouple ref main r a w h rs ms rst ast s = Some s' ->
     same_outside (fun c => rects [band_h r; band_v r; band_d r] (rst / 2) w h c \/
                            rects [band_h a; band_v a; band_d a] (ast / 2) w h c) s s' /\
     forall i j, 0 <= i < h -> 0 <= j < w ->
       decouple_at ref main (rs / 2) (ms / 2) s band_h i j
       = Some (load s' (band_h r) (i * (rst / 2) + j), load s' (band_h a) (i * (ast / 2) + j)) /\
       decouple_at ref main (rs / 2) (ms / 2) s band_v i j
       = Some (load s' (band_v r) (i * (rst / 2) + j), load s' (band_v a) (i * (ast / 2) + j)) /\
       decouple_at ref main (rs / 2) (ms / 2) s band_d i j
       = Some (load s' (band_d r) (i * (rst / 2) + j), load s' (band_d a) (i * (ast / 2) + j))).
Proof.
  intros Hrs Hms Hrst Hast Hdd Hds.
  pose proof (dec_inj r a w h rst ast Hrst Hast Hdd) as Hinj.
  pose proof (dec_foot ref main r a w h rs ms rst ast) as Hfoot.
  pose proof (dec_val ref main r a w h rs ms rst ast s Hrs Hms Hrst Hast Hdd Hds) as Hval.
  pose proof (dec_body_stable ref main r a w h rs ms rst ast s Hrs Hms Hrst Hast Hds) as Hstab.
  cbv zeta in Hinj, Hfoot, Hval, Hstab.
  assert (Spec : forall s', adm_decouple ref main r a w h rs ms rst ast s = Some s' ->
     same_outside (fun c => rects [band_h r; band_v r; band_d r] (rst / 2) w h c \/
                            rects [band_h a; band_v a; band_d a] (ast / 2) w h c) s s' /\
     forall i j, 0 <= i < h -> 0 <= j < w ->
       decouple_at ref main (rs / 2) (ms / 2) s band_h i j
       = Some (load s' (band_h r) (i * (rst / 2) + j), load s' (band_h a) (i * (ast / 2) + j)) /\
       decouple_at ref main (rs / 2) (ms / 2) s band_v i j
       = Some (load s' (band_v r) (i * (rst / 2) + j), load s' (band_v a) (i * (ast / 2) + j)) /\
       decouple_at ref main (rs / 2) (ms / 2) s band_d i j
       = Some (load s' (band_d r) (i * (rst / 2) + j), load s' (band_d a) (i * (ast / 2) + j))).
  { intros s' E. unfold adm_decouple in E. cbv zeta in E.
    eapply mapM2d in E; [|exact Hinj|exact Hfoot|exact Hval].
    destruct E as [Hst Hv]. split.
    - intros c Hc. apply Hst. intros (k & i & j & Hk & Hi & Hj & ->). apply Hc.
      assert (Ek : k = 0 \/ k = 1 \/ k = 2 \/ k = 3 \/ k = 4 \/ k = 5) by lia.
      destruct Ek as [->|[->|[->|[->|[->| ->]]]]];
        [left|left|left|right|right|right];
        (apply rects_cell; [cbn [In]; tauto|assumption|assumption]).
    - intros i j Hi Hj.
      destruct (Hv 0 i j ltac:(lia) Hi Hj) as (x0 & y0 & E0 & V0).
      destruct (Hv 1 i j ltac:(lia) Hi Hj) as (x1 & y1 & E1 & V1).
      destruct (Hv 2 i j ltac:(lia) Hi Hj) as (x2 & y2 & E2 & V2).
      destruct (Hv 3 i j ltac:(lia) Hi Hj) as (x3 & y3 & E3 & V3).
      destruct (Hv 4 i j ltac:(lia) Hi Hj) as (x4 & y4 & E4 & V4).
      destruct (Hv 5 i j ltac:(lia) Hi Hj) as (x5 & y5 & E5 & V5).
      cbn in E0, E1, E2, E3, E4, E5.
      change (load s' (band_h r) (i * (rst / 2) + j) = x0) in V0.
      change (load s' (band_v r) (i * (rst / 2) + j) = x1) in V1.
      change (load s' (band_d r) (i * (rst / 2) + j) = x2) in V2.
      change (load s' (band_h a) (i * (ast / 2) + j) = y3) in V3.
      change (load s' (band_v a) (i * (ast / 2) + j) = y4) in V4.
      change (load s' (band_d a) (i * (ast / 2) + j) = y5) in V5.
      rewrite V0, V1, V2, V3, V4, V5.
      rewrite E3 in E0. rewrite E4 in E1. rewrite E5 in E2.
      injection E0 as <- <-. injection E1 as <- <-. injection E2 as <- <-.
      rewrite E3, E4, E5. repeat split. }
  split; [|exact Spec]. split.
  - intros [s' E] i j Hi Hj. destruct (Spec s' E) as [_ Hv].
    destruct (Hv i j Hi Hj) as (-> & -> & ->). repeat split; discriminate.
  - intros Hdef. unfold adm_decouple. cbv zeta.
    eapply mapM2d_total; [exact Hfoot|].
    intros i j s1 Hi Hj Hst. rewrite (Hstab i j s1 Hi Hj Hst).
    destruct (Hdef i j Hi Hj) as (Dh & Dv & Dd).
    destruct (decouple_at _ _ _ _ _ band_h i j) as [[rh ah]|]; [|congruence].
    destruct (decouple_at _ _ _ _ _ band_v i j) as [[rv av]|]; [|congruence].
    destruct (decouple_at _ _ _ _ _ band_d i j) as [[rd_ ad]|]; [|congruence].
    eauto.
Qed.

Lemma adm_decouple_spec_witness :
  exists s', adm_decouple (ref_dwt2 (adm_layout 32 8)) (main_dwt2 (adm_layout 32 8))
               (decouple_r_ (adm_layout 32 8)) (decouple_a_ (adm_layout 32 8)) 16 4
               (buf_stride (adm_layout 32 8)) (buf_stride (adm_layout 32 8))
               (buf_stride (adm_layout 32 8)) (buf_stride (adm_layout 32 8))
               (fresh_ctx 32 8 8) = Some s'.
Proof.
  apply adm_decouple_spec.
  - vm_compute. discriminate.
  - vm_compute. discriminate.
  - vm_compute. discriminate.
  - vm_compute. discriminate.
  - sep.
  - sep.
  - intros i j _ _. unfold decouple_at, load, fresh_ctx. cbn [data_buf]. unfold rd.
    rewrite !lookup_empty. cbn [default].
    assert (E : decouple_one (angle_flag 0 0 0 0) 0 0 = Some (0, 0)) by (vm_compute; reflexivity).
    rewrite E. repeat split; discriminate.
Defined.

(** When the angle test fails at a pixel whose two samples are not both
    0, the restored sample lies between 0 and the reference sample if
    the reference and the distorted sample have the same sign, and is 0
    otherwise. *)
Theorem decouple_restored_range o t r a :
  in_int16 o -> in_int16 t -> o <> 0 \/ t <> 0 ->
  decouple_one false o t = Some (r, a) ->
  (if (t <? 0) && (o <? 0) then o else 0) <= r <= (if (0 <? t) && (0 <? o) then o else 0).
Proof.
  intros Ho Ht Hne. unfold decouple_one, decouple_r.
  pose proof (decouple_tmp_range o t Ho Ht Hne) as Hb.
  destruct (ceilZ_sbnd _ _ _ Hb) as (c & Ec & Hc & _). rewrite Ec.
  destruct (to_int16 (Some c)) as [r'|] eqn:Er; [|discriminate].
  destruct (decouple_a t (decouple_tmp false o t)) as [a'|]; [|discriminate].
  intros [= <- <-]. apply to_int16_Some in Er as [[= <-] _]. exact Hc.
Qed.

Lemma decouple_restored_range_witness :
  exists r a, decouple_one false 100 37 = Some (r, a) /\ 0 <= r <= 100.
Proof.
  assert (Ho : in_int16 100) by (unfold in_int16; lia).
  assert (Ht : in_int16 37) by (unfold in_int16; lia).
  destruct (decouple_one_defined false 100 37 Ho Ht ltac:(right; left; lia)) as (r & a & E).
  exists r, a. split; [exact E|].
  exact (decouple_restored_range 100 37 r a Ho Ht ltac:(left; lia) E).
Defined.

(** ** The wavelet transform *)

Lemma dwt_filter_ext n i img img' :
  (forall k, 0 <= k < filt_w -> img (mirror n (2 * i - 1 + k)) = img' (mirror n (2 * i - 1 + k))) ->
  dwt_filter n i img = dwt_filter n i img'.
Proof.
  intros Hk. unfold dwt_filter. apply for_ext. intros k [lo hi] Hr.
  cbv zeta. rewrite Hk by assumption. reflexivity.
Qed.

Lemma mirror_dwt_range n i k :
  2 <= n < 2 ^ 30 -> 0 <= i < (n + 1) `quot` 2 -> 0 <= k < filt_w ->
  0 <= mirror n (2 * i - 1 + k) < n.
Proof.
  intros Hn Hi Hf. unfold filt_w in Hf.
  assert (Hq : 2 * ((n + 1) `quot` 2) <= n + 1).
  { rewrite Z.quot_div_nonneg by lia. pose proof (Z.mul_div_le (n + 1) 2). lia. }
  unfold mirror. rewrite FFABS_abs by lia.
  destruct (Z.geb_spec (Z.abs (2 * i - 1 + k)) n); lia.
Qed.

Lemma dwt_filter_const_on n i img c :
  2 <= n < 2 ^ 30 -> 0 <= i < (n + 1) `quot` 2 ->
  (forall k, 0 <= k < n -> img k = c) ->
  dwt_filter n i img = (wrap32 (46342 * c), 0).
Proof.
  intros Hn Hi Himg. rewrite <- (dwt_filter_const n i c).
  apply dwt_filter_ext. intros k Hk. apply Himg. apply mirror_dwt_range; assumption.
Qed.

Lemma dwt_horiz_ext w row row' j :
  (forall c, row c = row' c) -> dwt_horiz w row j = dwt_horiz w row' j.
Proof.
  intros H. unfold dwt_horiz. rewrite (dwt_filter_ext w j row row'); [reflexivity|].
  intros k _. apply H.
Qed.

Section Dwt2.
Variables (f : Z -> Z) (dst : adm_dwt_band_t) (sps ds : Z) (s : ADMData).

Let W := width s.
Let H := height s.
Let W2 := (W + 1) `quot` 2.
Let H2 := (H + 1) `quot` 2.
Let dps := ds / 2.

(** The three loops of one output row. *)
Let vert_pass (i : Z) (s1 : ADMData) : ADMData :=
  for_ 0 W (fun j s =>
    let '(sum_lo, sum_hi) := dwt_filter H i (fun src_i => f (src_i * sps + j)) in
    let s := set_temp_lo s (wr (temp_lo s) j (wrap16 (Z.shiftr sum_lo BIT_SHIFT))) in
    set_temp_hi s (wr (temp_hi s) j (wrap16 (Z.shiftr sum_hi BIT_SHIFT)))) s1.
Let horiz_pass (pa pb : Z) (tl : ADMData -> gmap Z Z) (i : Z) (s2 : ADMData) : ADMData :=
  for_ 0 W2 (fun j s =>
    let '(sum_lo, sum_hi) := dwt_filter W j (fun src_j => rd (tl s) src_j) in
    let s := store s pa (i * dps + j) (Z.shiftr sum_lo BIT_SHIFT) in
    store s pb (i * dps + j) (Z.shiftr sum_hi BIT_SHIFT)) s2.

Lemma adm_dwt2_phases :
  adm_dwt2 (fun _ idx => f idx) dst sps ds s
  = for_ 0 H2 (fun i s1 =>
      horiz_pass (band_h dst) (band_d dst) temp_hi i
        (horiz_pass (band_a dst) (band_v dst) temp_lo i (vert_pass i s1))) s.
Proof. reflexivity. Qed.

Lemma vert_pass_spec i s1 :
  0 <= W ->
  data_buf (vert_pass i s1) = data_buf s1 /\
  (forall c, rd (temp_lo (vert_pass i s1)) c =
             if (0 <=? c) && (c <? W) then fst (dwt_vert f sps H i c) else rd (temp_lo s1) c) /\
  (forall c, rd (temp_hi (vert_pass i s1)) c =
             if (0 <=? c) && (c <? W) then snd (dwt_vert f sps H i c) else rd (temp_hi s1) c).
Proof.
  intros HW. unfold vert_pass.
  apply (for_ind (fun j s2 =>
    data_buf s2 = data_buf s1 /\
    (forall c, rd (temp_lo s2) c =
               if (0 <=? c) && (c <? j) then fst (dwt_vert f sps H i c) else rd (temp_lo s1) c) /\
    (forall c, rd (temp_hi s2) c =
               if (0 <=? c) && (c <? j) then snd (dwt_vert f sps H i c) else rd (temp_hi s1) c)));
    [exact HW| |].
  - split; [reflexivity|]. split; intros c; destruct (Z.leb_spec 0 c), (Z.ltb_spec c 0);
      cbn [andb]; try reflexivity; lia.
  - intros j s2 Hj (Hd & Hlo & Hhi).
    unfold dwt_vert in *.
    destruct (dwt_filter H i (fun src_i => f (src_i * sps + j))) as [lo hi] eqn:Ef.
    cbn [set_temp_hi set_temp_lo data_buf temp_lo temp_hi].
    split; [exact Hd|]. split; intros c.
    + destruct (Z.eq_dec c j) as [->|Hne].
      * rewrite rd_wr_eq, Ef.
        destruct (Z.leb_spec 0 j), (Z.ltb_spec j (j + 1)); cbn [andb fst]; try reflexivity; lia.
      * rewrite rd_wr_ne by congruence. rewrite Hlo.
        destruct (Z.leb_spec 0 c), (Z.ltb_spec c j), (Z.ltb_spec c (j + 1)); cbn [andb];
          try reflexivity; lia.
    + destruct (Z.eq_dec c j) as [->|Hne].
      * rewrite rd_wr_eq, Ef.
        destruct (Z.leb_spec 0 j), (Z.ltb_spec j (j + 1)); cbn [andb snd]; try reflexivity; lia.
      * rewrite rd_wr_ne by congruence. rewrite Hhi.
        destruct (Z.leb_spec 0 c), (Z.ltb_spec c j), (Z.ltb_spec c (j + 1)); cbn [andb];
          try reflexivity; lia.
Qed.

Lemma rowfill_spec pa pb tl i s2 :
  0 <= W2 ->
  (forall s p idx v, tl (store s p idx v) = tl s) ->
  (forall j j', 0 <= j < W2 -> 0 <= j' < W2 -> cell pa (i * dps + j) <> cell pb (i * dps + j')) ->
  temp_lo (horiz_pass pa pb tl i s2) = temp_lo s2 /\
  temp_hi (horiz_pass pa pb tl i s2) = temp_hi s2 /\
  (forall c, (forall j, 0 <= j < W2 -> c <> cell pa (i * dps + j) /\ c <> cell pb (i * dps + j)) ->
             rd (data_buf (horiz_pass pa pb tl i s2)) c = rd (data_buf s2) c) /\
  (forall j, 0 <= j < W2 ->
     rd (data_buf (horiz_pass pa pb tl i s2)) (cell pa (i * dps + j))
     = fst (dwt_horiz W (rd (tl s2)) j) /\
     rd (data_buf (horiz_pass pa pb tl i s2)) (cell pb (i * dps + j))
     = snd (dwt_horiz W (rd (tl s2)) j)).
Proof.
  intros HW2 Htl Hne.
  pose (P := fun (j : Z) (s3 : ADMData) =>
    temp_lo s3 = temp_lo s2 /\ temp_hi s3 = temp_hi s2 /\ tl s3 = tl s2 /\
    (forall c, (forall j, 0 <= j < W2 -> c <> cell pa (i * dps + j) /\ c <> cell pb (i * dps + j)) ->
               rd (data_buf s3) c = rd (data_buf s2) c) /\
    (forall j', 0 <= j' < j ->
       rd (data_buf s3) (cell pa (i * dps + j')) = fst (dwt_horiz W (rd (tl s2)) j') /\
       rd (data_buf s3) (cell pb (i * dps + j')) = snd (dwt_horiz W (rd (tl s2)) j'))).
  assert (HP : P W2 (horiz_pass pa pb tl i s2));
    [|destruct HP as (H1 & H2' & _ & H3 & H4); repeat split; try assumption; apply H4; assumption].
  unfold horiz_pass. apply (for_ind P); [exact HW2| |]; unfold P.
  - repeat split; try reflexivity; lia.
  - intros j s3 Hj (Hlo & Hhi & Ht & Hout & Hv).
    unfold dwt_horiz in *. rewrite Ht.
    destruct (dwt_filter W j (fun src_j => rd (tl s2) src_j)) as [lo hi] eqn:Ef.
    split; [exact Hlo|]. split; [exact Hhi|]. split; [rewrite !Htl; exact Ht|]. split.
    + intros c Hc. destruct (Hc j Hj) as [Ha Hb].
      rewrite !rd_store_ne by assumption. apply Hout, Hc.
    + intros j' Hj'. destruct (Z.eq_dec j' j) as [->|Hnej].
      * change (dwt_filter W j (rd (tl s2))) with (dwt_filter W j (fun src_j => rd (tl s2) src_j)).
        rewrite Ef. cbn [fst snd]. split.
        -- rewrite rd_store_ne by (apply Hne; lia). apply rd_store_eq.
        -- apply rd_store_eq.
      * assert (Ea : cell pa (i * dps + j') <> cell pa (i * dps + j)) by (unfold cell; lia).
        assert (Eb : cell pb (i * dps + j') <> cell pb (i * dps + j)) by (unfold cell; lia).
        split.
        -- rewrite rd_store_ne by (apply Hne; lia). rewrite rd_store_ne by exact Ea.
           apply Hv. lia.
        -- rewrite rd_store_ne by exact Eb.
           rewrite rd_store_ne by (apply not_eq_sym, Hne; lia).
           apply Hv. lia.
Qed.

Hypothesis HW2 : W2 <= dps.
Hypothesis Hap : pairwise (apart H2)
  [(band_a dst, dps); (band_h dst, dps); (band_v dst, dps); (band_d dst, dps)].

Lemma dwt_plane_ne p p' i j i' j' :
  apart H2 (p, dps) (p', dps) \/ apart H2 (p', dps) (p, dps) ->
  0 <= i < H2 -> 0 <= j < W2 -> 0 <= i' < H2 -> 0 <= j' < W2 ->
  cell p (i * dps + j) <> cell p' (i' * dps + j').
Proof.
  intros Ha Hi Hj Hi' Hj' E.
  assert (Ha' : apart H2 (p, dps) (p', dps))
    by (destruct Ha; [assumption|apply apart_sym; assumption]).
  apply (apart_rect H2 (p, dps) (p', dps) W2 W2 (cell p (i * dps + j)) Ha' HW2 HW2).
  - apply rect_cell; assumption.
  - cbn [fst snd]. rewrite E. apply rect_cell; assumption.
Qed.

Lemma dwt_same_plane_ne p i j i' j' :
  0 <= j < W2 -> 0 <= j' < W2 -> i <> i' \/ j <> j' ->
  cell p (i * dps + j) <> cell p (i' * dps + j').
Proof.
  intros Hj Hj' Hne E. apply cell_inj in E.
  apply rect_index_inj with (w := W2) in E; [lia|lia|lia|exact HW2].
Qed.

Lemma adm_dwt2_rows :
  0 <= W -> 0 <= H ->
  forall i j, 0 <= i < H2 -> 0 <= j < W2 ->
    load (adm_dwt2 (fun _ idx => f idx) dst sps ds s) (band_a dst) (i * dps + j)
    = fst (dwt_horiz W (dwt_temp f sps W H (temp_lo s) fst i) j) /\
    load (adm_dwt2 (fun _ idx => f idx) dst sps ds s) (band_v dst) (i * dps + j)
    = snd (dwt_horiz W (dwt_temp f sps W H (temp_lo s) fst i) j) /\
    load (adm_dwt2 (fun _ idx => f idx) dst sps ds s) (band_h dst) (i * dps + j)
    = fst (dwt_horiz W (dwt_temp f sps W H (temp_hi s) snd i) j) /\
    load (adm_dwt2 (fun _ idx => f idx) dst sps ds s) (band_d dst) (i * dps + j)
    = snd (dwt_horiz W (dwt_temp f sps W H (temp_hi s) snd i) j).
Proof.
  intros HW HH.
  assert (HW2' : 0 <= W2) by (unfold W2; Z.to_euclidean_division_equations; lia).
  assert (HH2' : 0 <= H2) by (unfold H2; Z.to_euclidean_division_equations; lia).
  cbn [pairwise] in Hap. rewrite !Forall_cons in Hap.
  destruct Hap as ((Aah & Aav & Aad & _) & (Ahv & Ahd & _) & (Avd & _) & _).
  pose (Inv := fun (i : Z) (s1 : ADMData) =>
    (forall c, ~ 0 <= c < W -> rd (temp_lo s1) c = rd (temp_lo s) c) /\
    (forall c, ~ 0 <= c < W -> rd (temp_hi s1) c = rd (temp_hi s) c) /\
    forall i' j, 0 <= i' < i -> 0 <= j < W2 ->
      load s1 (band_a dst) (i' * dps + j)
      = fst (dwt_horiz W (dwt_temp f sps W H (temp_lo s) fst i') j) /\
      load s1 (band_v dst) (i' * dps + j)
      = snd (dwt_horiz W (dwt_temp f sps W H (temp_lo s) fst i') j) /\
      load s1 (band_h dst) (i' * dps + j)
      = fst (dwt_horiz W (dwt_temp f sps W H (temp_hi s) snd i') j) /\
      load s1 (band_d dst) (i' * dps + j)
      = snd (dwt_horiz W (dwt_temp f sps W H (temp_hi s) snd i') j)).
  assert (HI : Inv H2 (adm_dwt2 (fun _ idx => f idx) dst sps ds s)).
  { rewrite adm_dwt2_phases. apply (for_ind Inv); [exact HH2'| |].
    - unfold Inv. repeat split; try reflexivity; lia.
    - intros i s1 Hi (Tlo & Thi & Hv).
      destruct (vert_pass_spec i s1 HW) as (D1 & L1 & H1).
      set (s2 := vert_pass i s1) in *.
      assert (L2 : forall c, rd (temp_lo s2) c = dwt_temp f sps W H (temp_lo s) fst i c).
      { intros c. rewrite L1. unfold dwt_temp.
        destruct (Z.leb_spec 0 c), (Z.ltb_spec c W); cbn [andb]; try reflexivity;
          apply Tlo; lia. }
      assert (H2x : forall c, rd (temp_hi s2) c = dwt_temp f sps W H (temp_hi s) snd i c).
      { intros c. rewrite H1. unfold dwt_temp.
        destruct (Z.leb_spec 0 c), (Z.ltb_spec c W); cbn [andb]; try reflexivity;
          apply Thi; lia. }
      destruct (rowfill_spec (band_a dst) (band_v dst) temp_lo i s2 HW2'
                  ltac:(reflexivity)
                  ltac:(intros; apply dwt_plane_ne; auto))
        as (TL3 & TH3 & O3 & V3).
      set (s3 := horiz_pass (band_a dst) (band_v dst) temp_lo i s2) in *.
      destruct (rowfill_spec (band_h dst) (band_d dst) temp_hi i s3 HW2'
                  ltac:(reflexivity)
                  ltac:(intros; apply dwt_plane_ne; auto))
        as (TL4 & TH4 & O4 & V4).
      set (s4 := horiz_pass (band_h dst) (band_d dst) temp_hi i s3) in *.
      unfold Inv. split; [|split].
      + intros c Hc. rewrite TL4, TL3, L1.
        destruct (Z.leb_spec 0 c), (Z.ltb_spec c W); cbn [andb]; try lia; apply Tlo; lia.
      + intros c Hc. rewrite TH4, TH3, H1.
        destruct (Z.leb_spec 0 c), (Z.ltb_spec c W); cbn [andb]; try lia; apply Thi; lia.
      + intros i' j Hi' Hj. unfold load.
        destruct (Z.eq_dec i' i) as [->|Hne].
        * (* the row just written *)
          destruct (V3 j Hj) as [Va Vv]. destruct (V4 j Hj) as [Vh Vd].
          rewrite (dwt_horiz_ext W _ _ j L2) in Va, Vv.
          rewrite TH3 in Vh, Vd.
          rewrite (dwt_horiz_ext W _ _ j H2x) in Vh, Vd.
          rewrite Vh, Vd.
          rewrite !O4; [rewrite Va, Vv; repeat split| |].
          -- intros j' Hj'. split; apply dwt_plane_ne; auto.
          -- intros j' Hj'. split; apply dwt_plane_ne; auto.
        * (* an earlier row *)
          destruct (Hv i' j ltac:(lia) Hj) as (Ea & Ev & Eh & Ed).
          unfold load in Ea, Ev, Eh, Ed. rewrite <- Ea, <- Ev, <- Eh, <- Ed.
          assert (Hi2 : 0 <= i' < H2) by lia.
          rewrite !O4, !O3, D1; [repeat split| | | | | | | |];
            intros j' Hj'; split;
            first [apply dwt_same_plane_ne; [assumption|assumption|left; assumption]
                  |apply dwt_plane_ne; auto]. }
  intros i j Hi Hj. apply HI; assumption.
Qed.

End Dwt2.

(** [adm_dwt2] on samples that do not lie in the arena (the instances
    [adm_dwt2_8bit] and [adm_dwt2_10bit], where [f] reads the frame):
    when the four planes of [dst] do not overlap, every output sample is
    the horizontal pass of the scratch row that the vertical pass
    computes for its row, and nothing but the four planes is written in
    the arena. *)
Theorem adm_dwt2_spec f dst sps ds s :
  (width s + 1) `quot` 2 <= ds / 2 ->
  pairwise (apart ((height s + 1) `quot` 2))
    [(band_a dst, ds / 2); (band_h dst, ds / 2); (band_v dst, ds / 2); (band_d dst, ds / 2)] ->
  same_outside
    (rects [band_a dst; band_h dst; band_v dst; band_d dst] (ds / 2)
       ((width s + 1) `quot` 2) ((height s + 1) `quot` 2))
    s (adm_dwt2 (fun _ idx => f idx) dst sps ds s) /\
  forall i j, 0 <= i < (height s + 1) `quot` 2 -> 0 <= j < (width s + 1) `quot` 2 ->
    load (adm_dwt2 (fun _ idx => f idx) dst sps ds s) (band_a dst) (i * (ds / 2) + j)
    = fst (dwt_horiz (width s) (dwt_temp f sps (width s) (height s) (temp_lo s) fst i) j) /\
    load (adm_dwt2 (fun _ idx => f idx) dst sps ds s) (band_v dst) (i * (ds / 2) + j)
    = snd (dwt_horiz (width s) (dwt_temp f sps (width s) (height s) (temp_lo s) fst i) j) /\
    load (adm_dwt2 (fun _ idx => f idx) dst sps ds s) (band_h dst) (i * (ds / 2) + j)
    = fst (dwt_horiz (width s) (dwt_temp f sps (width s) (height s) (temp_hi s) snd i) j) /\
    load (adm_dwt2 (fun _ idx => f idx) dst sps ds s) (band_d dst) (i * (ds / 2) + j)
    = snd (dwt_horiz (width s) (dwt_temp f sps (width s) (height s) (temp_hi s) snd i) j).
Proof.
  intros HW2 Hap. split.
  - destruct (adm_dwt2_confined (fun _ idx => f idx) dst sps ds s)
      as (_ & _ & _ & Hd & _). exact Hd.
  - intros i j Hi Hj.
    assert (0 <= width s /\ 0 <= height s) as [HW HH]
      by (Z.to_euclidean_division_equations; lia).
    apply (adm_dwt2_rows f dst sps ds s HW2 Hap HW HH i j Hi Hj).
Qed.

Lemma adm_dwt2_spec_witness :
  same_outside
    (rects [band_a (ref_dwt2 (adm_layout 32 8)); band_h (ref_dwt2 (adm_layout 32 8));
            band_v (ref_dwt2 (adm_layout 32 8)); band_d (ref_dwt2 (adm_layout 32 8))]
       (buf_stride (adm_layout 32 8) / 2)
       ((width (fresh_ctx 32 8 8) + 1) `quot` 2) ((height (fresh_ctx 32 8 8) + 1) `quot` 2))
    (fresh_ctx 32 8 8)
    (adm_dwt2 (fun _ idx => frame_get (flat_frame 32 8 128) idx) (ref_dwt2 (adm_layout 32 8))
       32 (buf_stride (adm_layout 32 8)) (fresh_ctx 32 8 8)).
Proof.
  apply (adm_dwt2_spec (frame_get (flat_frame 32 8 128))).
  - vm_compute. discriminate.
  - change ((height (fresh_ctx 32 8 8) + 1) `quot` 2) with 4. sep.
Defined.

Lemma frame_get_flat w h v idx :
  0 <= idx < w * h -> frame_get (flat_frame w h v) idx = v.
Proof.
  intros Hi. unfold frame_get, flat_frame. cbn [data0].
  destruct (Z.ltb_spec idx 0); [lia|].
  apply nth_repeat_lt. lia.
Qed.

(** On a frame that holds the same 8-bit sample [c] everywhere, the
    three detail bands that [adm_dwt2_8bit] computes are 0 at every
    position and the approximation band holds one value, [c] scaled
    twice by 46342 / 32768. *)
Theorem adm_dwt2_8bit_flat c dst ds s :
  2 <= width s < 2 ^ 30 -> 2 <= height s < 2 ^ 30 -> 0 <= c < 256 ->
  (width s + 1) `quot` 2 <= ds / 2 ->
  pairwise (apart ((height s + 1) `quot` 2))
    [(band_a dst, ds / 2); (band_h dst, ds / 2); (band_v dst, ds / 2); (band_d dst, ds / 2)] ->
  forall i j, 0 <= i < (height s + 1) `quot` 2 -> 0 <= j < (width s + 1) `quot` 2 ->
    load (adm_dwt2_8bit (flat_frame (width s) (height s) c) dst (width s) ds s)
         (band_a dst) (i * (ds / 2) + j)
    = 46342 * (46342 * c / 32768) / 32768 /\
    load (adm_dwt2_8bit (flat_frame (width s) (height s) c) dst (width s) ds s)
         (band_v dst) (i * (ds / 2) + j) = 0 /\
    load (adm_dwt2_8bit (flat_frame (width s) (height s) c) dst (width s) ds s)
         (band_h dst) (i * (ds / 2) + j) = 0 /\
    load (adm_dwt2_8bit (flat_frame (width s) (height s) c) dst (width s) ds s)
         (band_d dst) (i * (ds / 2) + j) = 0.
Proof.
  intros HW HH Hc HW2 Hap i j Hi Hj.
  unfold adm_dwt2_8bit. rewrite Z.div_1_r.
  set (fr := flat_frame (width s) (height s) c).
  pose proof (adm_dwt2_rows (frame_get fr) dst (width s) ds s HW2 Hap
                ltac:(lia) ltac:(lia) i j Hi Hj) as (Ea & Ev & Eh & Ed).
  rewrite Ea, Ev, Eh, Ed. clear Ea Ev Eh Ed.
  assert (Hv : forall col, 0 <= col < width s ->
            dwt_vert (frame_get fr) (width s) (height s) i col
            = (46342 * c / 32768, 0)).
  { intros col Hcol. unfold dwt_vert.
    rewrite (dwt_filter_const_on (height s) i _ c HH Hi).
    - rewrite wrap32_small by lia. rewrite Z.shiftr_div_pow2 by (unfold BIT_SHIFT; lia).
      change (2 ^ BIT_SHIFT) with 32768. change (Z.shiftr 0 BIT_SHIFT) with 0.
      rewrite wrap16_small by (Z.to_euclidean_division_equations; lia). reflexivity.
    - intros k Hk. apply frame_get_flat. nia. }
  assert (Hlo : forall col, 0 <= col < width s ->
            dwt_temp (frame_get fr) (width s) (width s) (height s) (temp_lo s) fst i col
            = 46342 * c / 32768).
  { intros col Hcol. unfold dwt_temp.
    destruct (Z.leb_spec 0 col), (Z.ltb_spec col (width s)); cbn [andb]; try lia.
    rewrite Hv by lia. reflexivity. }
  assert (Hhi : forall col, 0 <= col < width s ->
            dwt_temp (frame_get fr) (width s) (width s) (height s) (temp_hi s) snd i col = 0).
  { intros col Hcol. unfold dwt_temp.
    destruct (Z.leb_spec 0 col), (Z.ltb_spec col (width s)); cbn [andb]; try lia.
    rewrite Hv by lia. reflexivity. }
  unfold dwt_horiz.
  rewrite (dwt_filter_const_on (width s) j _ _ HW Hj Hlo).
  rewrite (dwt_filter_const_on (width s) j _ _ HW Hj Hhi).
  cbn [fst snd]. change (wrap32 (46342 * 0)) with 0. change (Z.shiftr 0 BIT_SHIFT) with 0.
  change (wrap16 0) with 0.
  assert (Hr : 0 <= 46342 * c / 32768 < 362) by (Z.to_euclidean_division_equations; lia).
  rewrite wrap32_small by lia. rewrite Z.shiftr_div_pow2 by (unfold BIT_SHIFT; lia).
  change (2 ^ BIT_SHIFT) with 32768.
  rewrite wrap16_small by (Z.to_euclidean_division_equations; lia).
  repeat split.
Qed.

Lemma adm_dwt2_8bit_flat_witness :
  load (adm_dwt2_8bit (flat_frame (width (fresh_ctx 32 8 8)) (height (fresh_ctx 32 8 8)) 128)
          (ref_dwt2 (adm_layout 32 8)) (width (fresh_ctx 32 8 8))
          (buf_stride (adm_layout 32 8)) (fresh_ctx 32 8 8))
       (band_a (ref_dwt2 (adm_layout 32 8))) (3 * (buf_stride (adm_layout 32 8) / 2) + 15)
  = 46342 * (46342 * 128 / 32768) / 32768.
Proof.
  refine (proj1 (adm_dwt2_8bit_flat 128 (ref_dwt2 (adm_layout 32 8))
                   (buf_stride (adm_layout 32 8)) (fresh_ctx 32 8 8) _ _ _ _ _ 3 15 _ _)).
  - cbn [width fresh_ctx]. change (2 ^ 30) with 1073741824. lia.
  - cbn [height fresh_ctx]. change (2 ^ 30) with 1073741824. lia.
  - lia.
  - vm_compute. discriminate.
  - change ((height (fresh_ctx 32 8 8) + 1) `quot` 2) with 4. sep.
  - vm_compute. split; [discriminate|reflexivity].
  - vm_compute. split; [discriminate|reflexivity].
Defined.

(** ** The border of the pooled region *)

(** The pooled region of [adm_sum_cube]: the border of a dimension
    [n] is [(n - 5) / 10] truncated toward zero, so the region
    [[border, n - border)] lies inside the plane and, for [n >= 1], is
    not empty. *)
Theorem border_region n :
  0 <= n < 2 ^ 31 ->
  border n ADM_BORDER_FACTOR = (n - 5) `quot` 10 /\
  0 <= border n ADM_BORDER_FACTOR <= n - border n ADM_BORDER_FACTOR /\
  (1 <= n -> border n ADM_BORDER_FACTOR < n - border n ADM_BORDER_FACTOR).
Proof.
  intros Hn. rewrite (border_closed n Hn). split; [reflexivity|].
  Z.to_euclidean_division_equations. lia.
Qed.

Lemma border_region_witness :
  border 1920 ADM_BORDER_FACTOR = (1920 - 5) `quot` 10 /\
  0 <= border 1920 ADM_BORDER_FACTOR <= 1920 - border 1920 ADM_BORDER_FACTOR /\
  (1 <= 1920 -> border 1920 ADM_BORDER_FACTOR < 1920 - border 1920 ADM_BORDER_FACTOR).
Proof. apply border_region. change (2 ^ 31) with 2147483648. lia. Defined.

(** ** The masking stage in the scale loop *)

Lemma adm_dwt2_wf src dst sps ds s : wf_mem s -> wf_mem (adm_dwt2 src dst sps ds s).
Proof.
  intros Hwf. unfold adm_dwt2. cbv zeta.
  apply for_range_inv; [exact Hwf|]. intros i s1 _ H1.
  apply for_range_inv.
  - apply for_range_inv.
    + apply for_range_inv; [exact H1|]. intros j s2 _ H2.
      destruct (dwt_filter _ _ _) as [lo hi]. exact H2.
    + intros j s2 _ H2. destruct (dwt_filter _ _ _) as [lo hi].
      apply wf_store, wf_store, H2.
  - intros j s2 _ H2. destruct (dwt_filter _ _ _) as [lo hi].
    apply wf_store, wf_store, H2.
Qed.

Lemma adm_decouple_wf ref main r a w h rs ms rst ast s s' :
  adm_decouple ref main r a w h rs ms rst ast s = Some s' -> wf_mem s -> wf_mem s'.
Proof.
  intros E Hwf. revert E. unfold adm_decouple. cbv zeta.
  apply forM_range_inv; [exact Hwf|]. intros i s1 s2 _ H1.
  apply forM_range_inv; [exact H1|]. intros j s3 s4 _ H3.
  destruct (decouple_one _ _ _) as [[rh ah]|]; [|discriminate].
  destruct (decouple_one _ _ _) as [[rv av]|]; [|discriminate].
  destruct (decouple_one _ _ _) as [[rd_ ad]|]; [|discriminate].
  intros [= <-]. repeat apply wf_store. exact H3.
Qed.

Lemma adm_csf_wf src dst orig_h scale w h ss ds s :
  wf_mem s -> wf_mem (adm_csf src dst orig_h scale w h ss ds s).
Proof.
  intros Hwf. unfold adm_csf. cbv zeta.
  repeat first [apply for_range_inv; [|intros ? ? ? ?] | apply wf_store | assumption].
Qed.

Lemma view_ptr_nth W H m :
  (m < 35)%nat ->
  nth m (view_ptrs (adm_layout W H)) 0
  = Z.of_nat m * (buf_stride (adm_layout W H) * ((H + 1) `quot` 2)).
Proof.
  intros Hm. destruct (view_ptrs_consecutive W H) as [E _]. rewrite E.
  set (B := buf_stride (adm_layout W H) * ((H + 1) `quot` 2)).
  do 35 (destruct m as [|m]; [cbn [map nth]; lia|]). lia.
Qed.

Lemma layout_apart_idx W H h m n :
  0 <= W -> 0 <= H -> h <= (H + 1) `quot` 2 ->
  (m < 35)%nat -> (n < 35)%nat -> m <> n ->
  apart h (nth m (view_ptrs (adm_layout W H)) 0, buf_stride (adm_layout W H) / 2)
          (nth n (view_ptrs (adm_layout W H)) 0, buf_stride (adm_layout W H) / 2).
Proof.
  intros HW HH Hh Hm Hn Hne.
  rewrite !view_ptr_nth by assumption.
  rewrite buf_stride_indep.
  destruct (buf_stride_facts W HW) as (ps & Eps & Hps & _). rewrite Eps.
  replace (2 * ps / 2) with ps by (apply Z.div_unique_exact; lia).
  assert (HH2 : 0 <= (H + 1) `quot` 2) by (Z.to_euclidean_division_equations; lia).
  assert (Hps0 : 0 <= ps) by (Z.to_euclidean_division_equations; lia).
  set (H2 := (H + 1) `quot` 2) in *.
  unfold apart. cbn [fst snd].
  replace (Z.of_nat m * (2 * ps * H2) / 2) with (Z.of_nat m * (ps * H2))
    by (apply Z.div_unique_exact; lia).
  replace (Z.of_nat n * (2 * ps * H2) / 2) with (Z.of_nat n * (ps * H2))
    by (apply Z.div_unique_exact; lia).
  assert (A1 : h * ps <= H2 * ps) by (apply Z.mul_le_mono_nonneg_r; lia).
  assert (A2 : 0 <= ps * H2) by (apply Z.mul_nonneg_nonneg; lia).
  rewrite (Z.mul_comm H2 ps) in A1.
  destruct (Nat.lt_ge_cases m n) as [Hlt|Hge]; [left|right].
  - assert (A3 : (Z.of_nat m + 1) * (ps * H2) <= Z.of_nat n * (ps * H2))
      by (apply Z.mul_le_mono_nonneg_r; lia).
    lia.
  - assert (A3 : (Z.of_nat n + 1) * (ps * H2) <= Z.of_nat m * (ps * H2))
      by (apply Z.mul_le_mono_nonneg_r; lia).
    lia.
Qed.

(** A cell of a plane keeps its value through a stage that writes
    other planes only. *)
Lemma load_kept l ps w h T s s' p i j :
  confined (rects l ps w h) T s s' ->
  Forall (fun p' => apart h (p, ps) (p', ps)) l ->
  w <= ps -> 0 <= i < h -> 0 <= j < w ->
  load s' p (i * ps + j) = load s p (i * ps + j).
Proof.
  intros (_ & _ & _ & Hd & _) Hap Hw Hi Hj. unfold load. apply Hd.
  intros (p' & Hp' & R). rewrite List.Forall_forall in Hap.
  apply (apart_rect h (p, ps) (p', ps) w w (cell p (i * ps + j)) (Hap p' Hp') Hw Hw);
    [|exact R].
  apply rect_cell; assumption.
Qed.

Lemma sum_cube_loop_planes x y ps top bottom left right s s' :
  (forall i j, top <= i < bottom -> left <= j < right ->
     FFABS (load s x (i * ps + j)) = FFABS (load s' y (i * ps + j))) ->
  sum_cube_loop x ps top bottom left right s = sum_cube_loop y ps top bottom left right s'.
Proof.
  intros H. unfold sum_cube_loop. apply for_ext. intros i a Hi.
  apply for_ext. intros j b Hj. rewrite H by assumption. reflexivity.
Qed.

Lemma adm_sum_cube_planes x y w h stride s s' :
  0 <= w < 2 ^ 31 -> 0 <= h < 2 ^ 31 ->
  (forall i j, 0 <= i < h -> 0 <= j < w ->
     FFABS (load s x (i * (stride / 2) + j)) = FFABS (load s' y (i * (stride / 2) + j))) ->
  adm_sum_cube x w h stride ADM_BORDER_FACTOR s = adm_sum_cube y w h stride ADM_BORDER_FACTOR s'.
Proof.
  intros Hw Hh H. unfold adm_sum_cube. cbv zeta.
  rewrite (border_closed w Hw), (border_closed h Hh).
  pose proof (border_range w ltac:(lia)) as Bw. pose proof (border_range h ltac:(lia)) as Bh.
  rewrite (sum_cube_loop_planes x y _ _ _ _ _ s s'); [reflexivity|].
  intros i j Hi Hj. apply H; lia.
Qed.

Lemma csf_sample_gt rf x :
  0 < rf < 32768 -> in_int16 x -> -32768 < Z.shiftr (rf * x) 15 <= 32767.
Proof.
  unfold in_int16. intros Hrf Hx. rewrite Z.shiftr_div_pow2 by lia.
  change (2 ^ 15) with 32768. split.
  - apply Z.lt_le_trans with (- rf); [lia|]. apply Z.div_le_lower_bound; nia.
  - assert (rf * x / 32768 < 32768); [|lia]. apply Z.div_lt_upper_bound; nia.
Qed.

(** The position of a view among the 35 pointers. *)
Ltac plane_idx p :=
  lazymatch p with
  | ref_scale _ => constr:(0%nat)
  | main_scale _ => constr:(1%nat)
  | band_a (ref_dwt2 _) => constr:(2%nat)
  | band_h (ref_dwt2 _) => constr:(3%nat)
  | band_v (ref_dwt2 _) => constr:(4%nat)
  | band_d (ref_dwt2 _) => constr:(5%nat)
  | band_a (main_dwt2 _) => constr:(6%nat)
  | band_h (main_dwt2 _) => constr:(7%nat)
  | band_v (main_dwt2 _) => constr:(8%nat)
  | band_d (main_dwt2 _) => constr:(9%nat)
  | band_a (decouple_r_ _) => constr:(10%nat)
  | band_h (decouple_r_ _) => constr:(11%nat)
  | band_v (decouple_r_ _) => constr:(12%nat)
  | band_d (decouple_r_ _) => constr:(13%nat)
  | band_a (decouple_a_ _) => constr:(14%nat)
  | band_h (decouple_a_ _) => constr:(15%nat)
  | band_v (decouple_a_ _) => constr:(16%nat)
  | band_d (decouple_a_ _) => constr:(17%nat)
  | band_a (csf_o _) => constr:(18%nat)
  | band_h (csf_o _) => constr:(19%nat)
  | band_v (csf_o _) => constr:(20%nat)
  | band_d (csf_o _) => constr:(21%nat)
  | band_a (csf_r _) => constr:(22%nat)
  | band_h (csf_r _) => constr:(23%nat)
  | band_v (csf_r _) => constr:(24%nat)
  | band_d (csf_r _) => constr:(25%nat)
  | band_a (csf_a _) => constr:(26%nat)
  | band_h (csf_a _) => constr:(27%nat)
  | band_v (csf_a _) => constr:(28%nat)
  | band_d (csf_a _) => constr:(29%nat)
  | mta _ => constr:(30%nat)
  | band_a (cm_r _) => constr:(31%nat)
  | band_h (cm_r _) => constr:(32%nat)
  | band_v (cm_r _) => constr:(33%nat)
  | band_d (cm_r _) => constr:(34%nat)
  end.

Lemma apart_eq h p p' q q' ps :
  p = q -> p' = q' -> apart h (p, ps) (p', ps) -> apart h (q, ps) (q', ps).
Proof. intros -> ->. exact (fun H => H). Qed.

Ltac layout_sep v Hall Hh :=
  cbn [pairwise];
  repeat match goal with
         | |- _ /\ _ => split
         | |- Forall _ (_ :: _) => apply List.Forall_cons
         | |- Forall _ [] => apply List.Forall_nil
         | |- True => exact I
         | |- apart ?h (?p, _) (?p', _) =>
             let m := plane_idx p in
             let n := plane_idx p' in
             apply (apart_eq h (nth m (view_ptrs v) 0) (nth n (view_ptrs v) 0));
             [reflexivity|reflexivity
             |exact (Hall h Hh m n ltac:(lia) ltac:(lia) ltac:(lia))]
         end.

(** In an iteration of the scale loop the masking stage changes
    nothing but the sign: when the iteration ends, every sample of the
    three planes of [cm_r] is the magnitude of the sample of [csf_r] at
    the same position, and the numerator added to the score is the
    pooled energy of the planes of [csf_r]. *)
Theorem adm_scale_masking_void W H ref main scale st st' :
  0 <= W < 2 ^ 31 -> 0 <= H < 2 ^ 31 -> 0 <= scale < 4 ->
  width (ctx st) = W -> height (ctx st) = H ->
  0 <= cur_w st <= W -> 0 <= cur_h st <= H -> wf_mem (ctx st) ->
  adm_scale (adm_layout W H) ref main scale st = Some st' ->
  (forall i j, 0 <= i < cur_h st' -> 0 <= j < cur_w st' ->
     load (ctx st') (band_h (cm_r (adm_layout W H))) (i * (buf_stride (adm_layout W H) / 2) + j)
     = Z.abs (load (ctx st') (band_h (csf_r (adm_layout W H)))
                   (i * (buf_stride (adm_layout W H) / 2) + j)) /\
     load (ctx st') (band_v (cm_r (adm_layout W H))) (i * (buf_stride (adm_layout W H) / 2) + j)
     = Z.abs (load (ctx st') (band_v (csf_r (adm_layout W H)))
                   (i * (buf_stride (adm_layout W H) / 2) + j)) /\
     load (ctx st') (band_d (cm_r (adm_layout W H))) (i * (buf_stride (adm_layout W H) / 2) + j)
     = Z.abs (load (ctx st') (band_d (csf_r (adm_layout W H)))
                   (i * (buf_stride (adm_layout W H) / 2) + j))) /\
  acc_num st'
  = F64.add (acc_num st)
      (F64.of_float
         (add_pool
            (add_pool
               (add_pool (F32.of_int 0)
                  (adm_sum_cube (band_h (csf_r (adm_layout W H))) (cur_w st') (cur_h st')
                     (buf_stride (adm_layout W H)) ADM_BORDER_FACTOR (ctx st')))
               (adm_sum_cube (band_v (csf_r (adm_layout W H))) (cur_w st') (cur_h st')
                  (buf_stride (adm_layout W H)) ADM_BORDER_FACTOR (ctx st')))
            (adm_sum_cube (band_d (csf_r (adm_layout W H))) (cur_w st') (cur_h st')
               (buf_stride (adm_layout W H)) ADM_BORDER_FACTOR (ctx st')))).
Proof.
  intros HW HH Hsc Ew Eh Hcw Hch Hwf E.
  assert (HW0 : 0 <= W) by lia. assert (HH0 : 0 <= H) by lia.
  unfold adm_scale in E. cbv zeta in E.
  assert (Hps : (W + 1) `quot` 2 <= buf_stride (adm_layout W H) / 2).
  { rewrite buf_stride_indep. destruct (buf_stride_facts W HW0) as (ps & Eps & Hps & _).
    rewrite Eps. replace (2 * ps / 2) with ps by (apply Z.div_unique_exact; lia). exact Hps. }
  pose proof (fun h Hh m n => layout_apart_idx W H h m n HW0 HH0 Hh) as Hall.
  set (v := adm_layout W H) in *. clearbody v.
  set (bs := buf_stride v) in *.
  assert (Hq : 0 <= (cur_w st + 1) `quot` 2 <= W /\
               (cur_w st + 1) `quot` 2 <= (W + 1) `quot` 2 /\
               0 <= (cur_h st + 1) `quot` 2 <= H /\
               (cur_h st + 1) `quot` 2 <= (H + 1) `quot` 2).
  { change (2 ^ 31) with 2147483648 in *. Z.to_euclidean_division_equations. lia. }
  set (w := (cur_w st + 1) `quot` 2) in *. set (h := (cur_h st + 1) `quot` 2) in *.
  destruct Hq as (Hw & Hw2 & Hh & Hh2).
  assert (Hwps : w <= bs / 2) by lia.
  set (sD := if scale =? 0 then _ else _) in E.
  assert (HwfD : wf_mem sD).
  { subst sD. unfold adm_dwt2_8bit, adm_dwt2_10bit, adm_dwt2_32bit.
    destruct (scale =? 0); [destruct (depth (ctx st) <=? 8)|];
      apply adm_dwt2_wf, adm_dwt2_wf, Hwf. }
  clearbody sD.
  destruct (adm_decouple _ _ _ _ _ _ _ _ _ _ sD) as [s1|] eqn:Edec; [|discriminate].
  pose proof (adm_decouple_wf _ _ _ _ _ _ _ _ _ _ _ _ Edec HwfD) as Hwf1.
  apply (f_equal (fun o => match o with Some x => x | None => st end)) in E.
  cbv beta iota in E. subst st'. cbn [ctx cur_w cur_h acc_num].
  set (s2 := adm_csf (ref_dwt2 v) (csf_o v) (height s1) scale w h bs bs s1).
  set (s3 := adm_csf (decouple_r_ v) (csf_r v) (height s2) scale w h bs bs s2).
  set (s4 := adm_csf (decouple_a_ v) (csf_a v) (height s3) scale w h bs bs s3).
  set (s5 := adm_cm_thresh (csf_a v) (mta v) w h bs bs s4).
  set (s6 := adm_cm (csf_r v) (cm_r v) (mta v) w h bs bs bs s5).
  set (s7 := adm_buffer_copy (band_a (ref_dwt2 v)) (ref_scale v) (w * 2) h bs bs s6).
  set (s8 := adm_buffer_copy (band_a (main_dwt2 v)) (main_scale v) (w * 2) h bs bs s7).
  assert (Hwf2 : wf_mem s2) by apply adm_csf_wf, Hwf1.
  assert (Hwf3 : wf_mem s3) by apply adm_csf_wf, Hwf2.
  assert (Hwf4 : wf_mem s4) by apply adm_csf_wf, Hwf3.
  assert (Hwf5 : wf_mem s5) by apply adm_cm_thresh_wf, Hwf4.
  (* the samples of csf_r *)
  destruct (adm_csf_cells (decouple_r_ v) (csf_r v) (height s2) scale w h bs bs s2
              Hwf2 Hsc Hwps Hwps
              ltac:(layout_sep v Hall Hh2) ltac:(layout_sep v Hall Hh2))
    as (_ & _ & C3).
  fold s3 in C3.
  destruct (csf_rfactor_range scale Hsc) as [Rf Rs].
  pose (ok := fun y : Z => -32768 < y <= 32767).
  assert (R3 : forall i j, 0 <= i < h -> 0 <= j < w ->
            ok (load s3 (band_h (csf_r v)) (i * (bs / 2) + j)) /\
            ok (load s3 (band_v (csf_r v)) (i * (bs / 2) + j)) /\
            ok (load s3 (band_d (csf_r v)) (i * (bs / 2) + j))).
  { intros i j Hi Hj. destruct (C3 i j Hi Hj) as (-> & -> & ->).
    repeat split; apply csf_sample_gt; try assumption; apply wf_load, Hwf2. }
  (* they stay through the later stages *)
  assert (K4 : confined (rects [band_h (csf_a v); band_v (csf_a v); band_d (csf_a v)]
                           (bs / 2) w h) (fun _ => False) s3 s4)
    by apply adm_csf_confined.
  assert (K5 : confined (rects [mta v] (bs / 2) w h) (fun _ => False) s4 s5)
    by apply adm_cm_thresh_confined.
  assert (K6 : confined (rects [band_h (cm_r v); band_v (cm_r v); band_d (cm_r v)]
                           (bs / 2) w h) (fun _ => False) s5 s6)
    by apply adm_cm_confined.
  assert (K7 : confined (rects [ref_scale v] (bs / 2) (w * 2 / 2) h) (fun _ => False) s6 s7)
    by apply adm_buffer_copy_confined.
  assert (K8 : confined (rects [main_scale v] (bs / 2) (w * 2 / 2) h) (fun _ => False) s7 s8)
    by apply adm_buffer_copy_confined.
  rewrite Z.div_mul in K7, K8 by lia.
  assert (Kr : forall p i j,
            p = band_h (csf_r v) \/ p = band_v (csf_r v) \/ p = band_d (csf_r v) ->
            0 <= i < h -> 0 <= j < w ->
            load s5 p (i * (bs / 2) + j) = load s3 p (i * (bs / 2) + j) /\
            load s8 p (i * (bs / 2) + j) = load s3 p (i * (bs / 2) + j)).
  { intros p i j Hp Hi Hj.
    assert (E4 : load s4 p (i * (bs / 2) + j) = load s3 p (i * (bs / 2) + j)).
    { apply (load_kept _ _ _ _ _ _ _ _ _ _ K4); try assumption.
      destruct Hp as [->|[->| ->]]; layout_sep v Hall Hh2. }
    assert (E5 : load s5 p (i * (bs / 2) + j) = load s4 p (i * (bs / 2) + j)).
    { apply (load_kept _ _ _ _ _ _ _ _ _ _ K5); try assumption.
      destruct Hp as [->|[->| ->]]; layout_sep v Hall Hh2. }
    assert (E6 : load s6 p (i * (bs / 2) + j) = load s5 p (i * (bs / 2) + j)).
    { apply (load_kept _ _ _ _ _ _ _ _ _ _ K6); try assumption.
      destruct Hp as [->|[->| ->]]; layout_sep v Hall Hh2. }
    assert (E7 : load s7 p (i * (bs / 2) + j) = load s6 p (i * (bs / 2) + j)).
    { apply (load_kept _ _ _ _ _ _ _ _ _ _ K7); try assumption.
      destruct Hp as [->|[->| ->]]; layout_sep v Hall Hh2. }
    assert (E8 : load s8 p (i * (bs / 2) + j) = load s7 p (i * (bs / 2) + j)).
    { apply (load_kept _ _ _ _ _ _ _ _ _ _ K8); try assumption.
      destruct Hp as [->|[->| ->]]; layout_sep v Hall Hh2. }
    split; congruence. }
  (* the samples of cm_r *)
  destruct (adm_cm_thresh_cells (csf_a v) (mta v) w h bs bs s4) as [_ Tz]. fold s5 in Tz.
  destruct (adm_cm_cells (csf_r v) (cm_r v) (mta v) w h bs bs bs s5 Hwf5 Hwps Hwps Hwps
              ltac:(layout_sep v Hall Hh2) ltac:(layout_sep v Hall Hh2))
    as [_ C6].
  fold s6 in C6.
  assert (M6 : forall i j, 0 <= i < h -> 0 <= j < w ->
            load s6 (band_h (cm_r v)) (i * (bs / 2) + j)
            = Z.abs (load s3 (band_h (csf_r v)) (i * (bs / 2) + j)) /\
            load s6 (band_v (cm_r v)) (i * (bs / 2) + j)
            = Z.abs (load s3 (band_v (csf_r v)) (i * (bs / 2) + j)) /\
            load s6 (band_d (cm_r v)) (i * (bs / 2) + j)
            = Z.abs (load s3 (band_d (csf_r v)) (i * (bs / 2) + j))).
  { intros i j Hi Hj. destruct (C6 i j Hi Hj) as (-> & -> & ->).
    rewrite (Tz i j Hi Hj). rewrite !Z.sub_0_r.
    destruct (Kr _ i j (or_introl eq_refl) Hi Hj) as [-> _].
    destruct (Kr _ i j (or_intror (or_introl eq_refl)) Hi Hj) as [-> _].
    destruct (Kr _ i j (or_intror (or_intror eq_refl)) Hi Hj) as [-> _].
    destruct (R3 i j Hi Hj) as (Oh & Ov & Od). unfold ok in *.
    rewrite !Z.max_r by lia. rewrite !wrap16_small by lia. repeat split. }
  assert (Kc : forall p i j,
            p = band_h (cm_r v) \/ p = band_v (cm_r v) \/ p = band_d (cm_r v) ->
            0 <= i < h -> 0 <= j < w ->
            load s8 p (i * (bs / 2) + j) = load s6 p (i * (bs / 2) + j)).
  { intros p i j Hp Hi Hj.
    assert (E7 : load s7 p (i * (bs / 2) + j) = load s6 p (i * (bs / 2) + j)).
    { apply (load_kept _ _ _ _ _ _ _ _ _ _ K7); try assumption.
      destruct Hp as [->|[->| ->]]; layout_sep v Hall Hh2. }
    assert (E8 : load s8 p (i * (bs / 2) + j) = load s7 p (i * (bs / 2) + j)).
    { apply (load_kept _ _ _ _ _ _ _ _ _ _ K8); try assumption.
      destruct Hp as [->|[->| ->]]; layout_sep v Hall Hh2. }
    congruence. }
  split.
  - intros i j Hi Hj. destruct (M6 i j Hi Hj) as (Mh & Mv & Md).
    rewrite (Kc _ i j (or_introl eq_refl) Hi Hj).
    rewrite (Kc _ i j (or_intror (or_introl eq_refl)) Hi Hj).
    rewrite (Kc _ i j (or_intror (or_intror eq_refl)) Hi Hj).
    destruct (Kr _ i j (or_introl eq_refl) Hi Hj) as [_ ->].
    destruct (Kr _ i j (or_intror (or_introl eq_refl)) Hi Hj) as [_ ->].
    destruct (Kr _ i j (or_intror (or_intror eq_refl)) Hi Hj) as [_ ->].
    exact (conj Mh (conj Mv Md)).
  - assert (P : forall p q,
              (p = band_h (cm_r v) /\ q = band_h (csf_r v)) \/
              (p = band_v (cm_r v) /\ q = band_v (csf_r v)) \/
              (p = band_d (cm_r v) /\ q = band_d (csf_r v)) ->
              adm_sum_cube p w h bs ADM_BORDER_FACTOR s6
              = adm_sum_cube q w h bs ADM_BORDER_FACTOR s8).
    { intros p q Hpq. apply adm_sum_cube_planes; [lia|lia|].
      intros i j Hi Hj. destruct (M6 i j Hi Hj) as (Mh & Mv & Md).
      destruct (R3 i j Hi Hj) as (Oh & Ov & Od). unfold ok in *.
      destruct Hpq as [[-> ->]|[[-> ->]|[-> ->]]].
      + rewrite Mh. destruct (Kr _ i j (or_introl eq_refl) Hi Hj) as [_ ->].
        rewrite !FFABS_abs by lia. apply Z.abs_idemp.
      + rewrite Mv. destruct (Kr _ i j (or_intror (or_introl eq_refl)) Hi Hj) as [_ ->].
        rewrite !FFABS_abs by lia. apply Z.abs_idemp.
      + rewrite Md. destruct (Kr _ i j (or_intror (or_intror eq_refl)) Hi Hj) as [_ ->].
        rewrite !FFABS_abs by lia. apply Z.abs_idemp. }
    rewrite (P _ _ (or_introl (conj eq_refl eq_refl))).
    rewrite (P _ _ (or_intror (or_introl (conj eq_refl eq_refl)))).
    rewrite (P _ _ (or_intror (or_intror (conj eq_refl eq_refl)))).
    reflexivity.
Qed.

Lemma flat_scale_defined :
  exists st', adm_scale (adm_layout 32 2) (flat_frame 32 2 128) (flat_frame 32 2 128) 0
                (mkLoop (fresh_ctx 32 2 8) 32 2 (F64.of_int 0) (F64.of_int 0) []) = Some st'.
Proof.
  assert (H : match adm_scale (adm_layout 32 2) (flat_frame 32 2 128) (flat_frame 32 2 128) 0
                      (mkLoop (fresh_ctx 32 2 8) 32 2 (F64.of_int 0) (F64.of_int 0) [])
              with Some _ => true | None => false end = true)
    by (vm_compute; reflexivity).
  destruct (adm_scale _ _ _ _ _) as [r|]; [exists r; reflexivity|discriminate H].
Qed.

Lemma adm_scale_masking_void_witness :
  exists st',
    adm_scale (adm_layout 32 2) (flat_frame 32 2 128) (flat_frame 32 2 128) 0
      (mkLoop (fresh_ctx 32 2 8) 32 2 (F64.of_int 0) (F64.of_int 0) []) = Some st' /\
    acc_num st'
    = F64.add (F64.of_int 0)
        (F64.of_float
           (add_pool
              (add_pool
                 (add_pool (F32.of_int 0)
                    (adm_sum_cube (band_h (csf_r (adm_layout 32 2))) (cur_w st') (cur_h st')
                       (buf_stride (adm_layout 32 2)) ADM_BORDER_FACTOR (ctx st')))
                 (adm_sum_cube (band_v (csf_r (adm_layout 32 2))) (cur_w st') (cur_h st')
                    (buf_stride (adm_layout 32 2)) ADM_BORDER_FACTOR (ctx st')))
              (adm_sum_cube (band_d (csf_r (adm_layout 32 2))) (cur_w st') (cur_h st')
                 (buf_stride (adm_layout 32 2)) ADM_BORDER_FACTOR (ctx st')))).
Proof.
  destruct flat_scale_defined as [st' E]. exists st'. split; [exact E|].
  refine (proj2 (adm_scale_masking_void 32 2 (flat_frame 32 2 128) (flat_frame 32 2 128) 0
                   (mkLoop (fresh_ctx 32 2 8) 32 2 (F64.of_int 0) (F64.of_int 0) []) st'
                   _ _ _ _ _ _ _ _ E)).
  - change (2 ^ 31) with 2147483648. lia.
  - change (2 ^ 31) with 2147483648. lia.
  - lia.
  - reflexivity.
  - reflexivity.
  - cbn [cur_w]. lia.
  - cbn [cur_h]. lia.
  - apply wf_fresh.
Defined.
